(** * Parallel transport and holonomy on the fractal Kaehler manifold

    A shallow embedding of [fractal_kahler_manifold.py] (class
    [FractalKahlerManifold]) and of the composition driver
    [depth3_simulation.py], with the properties of the transport
    integrator and of the holonomy extractor.

    Numbers.  The methods are embedded twice.  In the first embedding a
    NumPy [float64] is a real number of [R] and the arithmetic is exact:
    rounding, overflow and the IEEE special values are outside it.  It
    agrees with the code where every intermediate value of the code is a
    finite number and to the extent that rounding can be neglected; it
    does not where the code divides by zero, since a quotient [x / 0] of
    [R] is a number while NumPy's is an infinity or NaN (a connection
    cell over a metric cell [g = 0], the cosine of the holonomy angle for
    a zero initial or final vector), and where the sign of a zero counts
    ([np.angle] at a negative real part).  The properties over [R] are
    stated for inputs away from these cases.  The second embedding,
    module [F64], is on binary64 floats with the IEEE operations, and
    shows what the code computes in those cases and what rounding does.
    Python integers are [Z].  Exceptions are modelled by the error monad
    [result]. *)

From Stdlib Require Import Floats Uint63.
From Stdlib Require Import Reals Lra Lia ZArith List.
From stdpp Require Import base list strings gmap.
Import ListNotations.

Set Warnings "-inexact-float".

Open Scope R_scope.

(** ** Exceptions *)

(** The two exceptions that the array code of the module can raise. *)
Inductive exn : Type :=
| IndexError
| ValueError.

Inductive result (A : Type) : Type :=
| Ok (a : A)
| Raise (e : exn).

Arguments Ok {A} a.
Arguments Raise {A} e.

Definition bind {A B : Type} (m : result A) (k : A -> result B) : result B :=
  match m with
  | Ok a => k a
  | Raise e => Raise e
  end.

Notation "'let*' x := e 'in' k" := (bind e (fun x => k))
  (at level 10, x name, e at level 200, k at level 200, only parsing).
Notation "'let*' ' p := e 'in' k" := (bind e (fun x => match x with p => k end))
  (at level 10, p pattern, e at level 200, k at level 200, only parsing).

(** [for i in range(n): s = body(i, s)], counting up from [start]. *)
Fixpoint for_loop {St : Type} (n : nat) (start : Z)
    (body : Z -> St -> result St) (s : St) : result St :=
  match n with
  | O => Ok s
  | S n' => let* s' := body start s in for_loop n' (start + 1)%Z body s'
  end.

Definition for_range {St : Type} (n : Z) (body : Z -> St -> result St) (s : St)
  : result St :=
  for_loop (Z.to_nat n) 0%Z body s.

(** [mapM] for [result], left to right. *)
Fixpoint mapM {A B : Type} (f : A -> result B) (l : list A) : result (list B) :=
  match l with
  | [] => Ok []
  | a :: l' => let* b := f a in let* bs := mapM f l' in Ok (b :: bs)
  end.

(** ** Python sequences *)

(** Python's index normalisation: a negative index counts from the end, and
    an index outside [-len, len) is an [IndexError]. *)
Definition py_index (len : nat) (i : Z) : option nat :=
  let j := if (i <? 0)%Z then (i + Z.of_nat len)%Z else i in
  if ((0 <=? j)%Z && (j <? Z.of_nat len)%Z)%bool then Some (Z.to_nat j) else None.

(** [l[i]] *)
Definition getitem {A : Type} (l : list A) (i : Z) : result A :=
  match py_index (length l) i with
  | Some j => match l !! j with Some a => Ok a | None => Raise IndexError end
  | None => Raise IndexError
  end.

(** [l[i] = v] *)
Definition setitem {A : Type} (l : list A) (i : Z) (v : A) : result (list A) :=
  match py_index (length l) i with
  | Some j => Ok (<[j := v]> l)
  | None => Raise IndexError
  end.

(** [a[i, j]] on a two-dimensional array stored by rows. *)
Definition getitem2 {A : Type} (a : list (list A)) (i j : Z) : result A :=
  let* row := getitem a i in getitem row j.

(** ** The NumPy functions the module calls *)

Abbreviation array2 := (list (list R)).

(** [np.linspace(start, stop, num)]: [num] samples, end point included.
    A negative [num] is a [ValueError]. *)
Definition np_linspace (start stop : R) (num : Z) : result (list R) :=
  if (num <? 0)%Z then Raise ValueError else
  let n := Z.to_nat num in
  let div := (n - 1)%nat in
  let delta := stop - start in
  let y := map INR (seq 0 n) in
  let y := if (0 <? div)%nat
           then map (fun v => v * (delta / INR div)) y
           else map (fun v => v * delta) y in
  let y := map (fun v => v + start) y in
  Ok (if (1 <? n)%nat then <[(n - 1)%nat := stop]> y else y).

(** [np.zeros(n)] *)
Definition np_zeros (n : Z) : result (list R) :=
  if (n <? 0)%Z then Raise ValueError else Ok (replicate (Z.to_nat n) 0).

(** [np.meshgrid(x, y)] with the default ['xy'] indexing:
    [xx[i][j] = x[j]] and [yy[i][j] = y[i]]. *)
Definition np_meshgrid (x y : list R) : array2 * array2 :=
  (map (fun _ => x) y, map (fun yi => map (fun _ => yi) x) y).

Definition np_zeros_like (a : array2) : array2 :=
  map (map (fun _ => 0)) a.

(** Elementwise operations on two-dimensional arrays. *)
Definition map2d (f : R -> R) (a : array2) : array2 := map (map f) a.
Definition zip2d (f : R -> R -> R) (a b : array2) : array2 :=
  zip_with (zip_with f) a b.

(** [np.gradient(f, h)] along one axis with uniform spacing [h] and the
    default [edge_order=1]: one-sided differences at the two ends, centered
    differences inside; fewer than two samples is a [ValueError].  The
    samples are of type [A], with their own subtraction and division by a
    scalar, so that the same definition serves both axes. *)
Definition gradient_values {A : Type} (sub : A -> A -> A) (divs : A -> R -> A)
    (dflt : A) (f : list A) (h : R) : list A :=
  let n := length f in
  map (fun i =>
         if (i =? 0)%nat then
           divs (sub (nth 1 f dflt) (nth 0 f dflt)) h
         else if (i =? n - 1)%nat then
           divs (sub (nth (n - 1) f dflt) (nth (n - 2) f dflt)) h
         else
           divs (sub (nth (i + 1) f dflt) (nth (i - 1) f dflt)) (2 * h))
      (seq 0 n).

Definition gradient_axis {A : Type} (sub : A -> A -> A) (divs : A -> R -> A)
    (dflt : A) (f : list A) (h : R) : result (list A) :=
  if (length f <? 2)%nat then Raise ValueError
  else Ok (gradient_values sub divs dflt f h).

(** [np.gradient(a, h, axis=1)]: along each row. *)
Definition np_gradient_axis1 (a : array2) (h : R) : result array2 :=
  match a with
  | [] => Raise ValueError
  | _ => mapM (fun row => gradient_axis Rminus Rdiv 0 row h) a
  end.

(** [np.gradient(a, h, axis=0)]: along the columns, that is on the list of
    rows with the row operations. *)
Definition np_gradient_axis0 (a : array2) (h : R) : result array2 :=
  gradient_axis (zip_with Rminus) (fun row s => map (fun v => v / s) row) [] a h.

(** [np.argmin]: the first index of a least element; the empty sequence is a
    [ValueError]. *)
Fixpoint argmin_from (best : R) (ibest i : nat) (l : list R) : nat :=
  match l with
  | [] => ibest
  | v :: l' =>
      if Rlt_dec v best then argmin_from v i (S i) l'
      else argmin_from best ibest (S i) l'
  end.

Definition np_argmin (l : list R) : result nat :=
  match l with
  | [] => Raise ValueError
  | v :: l' => Ok (argmin_from v 0 1 l')
  end.

(** [np.clip(a, lo, hi) = minimum(maximum(a, lo), hi)] *)
Definition np_clip (a lo hi : R) : R := Rmin (Rmax a lo) hi.

(** [np.dot] and [np.linalg.norm] on vectors of length two. *)
Definition np_dot (u v : R * R) : R := fst u * fst v + snd u * snd v.
Definition np_linalg_norm (v : R * R) : R := sqrt (fst v * fst v + snd v * snd v).

(** ** The class [FractalKahlerManifold] *)

(** The dictionary with the two keys ["Gamma_x_xx"] and ["Gamma_y_yy"]:
    of arrays for the attribute [self.Gamma], of numbers for the value that
    [get_christoffel] returns. *)
Record GammaDict (A : Type) : Type := mkGamma {
  Gamma_x_xx : A;
  Gamma_y_yy : A
}.

Arguments mkGamma {A} _ _.
Arguments Gamma_x_xx {A} _.
Arguments Gamma_y_yy {A} _.

(** The attributes of an instance.  Two-dimensional arrays are stored by
    rows and indexed [a[iy][ix]]. *)
Module Self.
Record FractalKahlerManifold : Type := mk {
  size : Z;
  fractal_level : Z;
  scale : R;
  x : list R;
  y : list R;
  xx : array2;
  yy : array2;
  K : array2;
  g : array2;
  Gamma : GammaDict array2
}.

Definition set_K (self : FractalKahlerManifold) (v : array2) :=
  mk (size self) (fractal_level self) (scale self) (x self) (y self)
     (xx self) (yy self) v (g self) (Gamma self).
Definition set_g (self : FractalKahlerManifold) (v : array2) :=
  mk (size self) (fractal_level self) (scale self) (x self) (y self)
     (xx self) (yy self) (K self) v (Gamma self).
Definition set_Gamma (self : FractalKahlerManifold) (v : GammaDict array2) :=
  mk (size self) (fractal_level self) (scale self) (x self) (y self)
     (xx self) (yy self) (K self) (g self) v.
End Self.

Abbreviation FractalKahlerManifold := Self.FractalKahlerManifold.

Section Manifold.

(** The seeded random source: [uniform l] is the [l]-th value that
    [np.random.RandomState(0)] draws with [uniform(0, 2 * np.pi)]. *)
Variable uniform : nat -> R.

(** One pass of the loop of [_generate_fractal_potential]:
    [K += scale * weight * (sin(freq * xx + phase) + cos(freq * yy + phase))]. *)
Definition potential_band (self : FractalKahlerManifold) (scale : R)
    (l : nat) (K : array2) : array2 :=
  let freq := (2 ^ Z.of_nat l)%Z in
  let weight := 1 / Rpower (IZR freq) 1.2 in
  let phase := uniform l in
  zip2d Rplus K
    (map2d (fun v => scale * weight * v)
       (zip2d Rplus
          (map2d (fun v => sin (IZR freq * v + phase)) self.(Self.xx))
          (map2d (fun v => cos (IZR freq * v + phase)) self.(Self.yy)))).

Definition _generate_fractal_potential (self : FractalKahlerManifold)
    (level : Z) (scale : R) : array2 :=
  fold_left (fun K l => potential_band self scale l K)
    (seq 0 (Z.to_nat level)) (np_zeros_like self.(Self.xx)).

Definition _compute_metric_from_potential (self : FractalKahlerManifold)
  : result array2 :=
  let* x1 := getitem self.(Self.x) 1 in
  let* x0 := getitem self.(Self.x) 0 in
  let dx := x1 - x0 in
  let* y1 := getitem self.(Self.y) 1 in
  let* y0 := getitem self.(Self.y) 0 in
  let dy := y1 - y0 in
  let* dK_dx := np_gradient_axis1 self.(Self.K) dx in
  let* d2K_dx2 := np_gradient_axis1 dK_dx dx in
  let* dK_dy := np_gradient_axis0 self.(Self.K) dy in
  let* d2K_dy2 := np_gradient_axis0 dK_dy dy in
  Ok (map2d (fun v => 0.25 * v) (zip2d Rplus d2K_dx2 d2K_dy2)).

(** The division by [self.g] is not guarded.  Over [R] the quotient by a
    cell [g = 0] is a number of no meaning; the code stores NaN or an
    infinity there ([F64._compute_christoffel]). *)
Definition _compute_christoffel (self : FractalKahlerManifold)
  : result (GammaDict array2) :=
  let* x1 := getitem self.(Self.x) 1 in
  let* x0 := getitem self.(Self.x) 0 in
  let dx := x1 - x0 in
  let* y1 := getitem self.(Self.y) 1 in
  let* y0 := getitem self.(Self.y) 0 in
  let dy := y1 - y0 in
  let* dg_dx := np_gradient_axis1 self.(Self.g) dx in
  let* dg_dy := np_gradient_axis0 self.(Self.g) dy in
  let Gamma_x_xx := zip2d Rdiv (map2d (fun v => 0.5 * v) dg_dx) self.(Self.g) in
  let Gamma_y_yy := zip2d Rdiv (map2d (fun v => 0.5 * v) dg_dy) self.(Self.g) in
  Ok (mkGamma Gamma_x_xx Gamma_y_yy).

(** The constructor.  Attributes that are not assigned yet are empty. *)
Definition __init__ (size : Z) (fractal_level : Z) (scale : R)
  : result FractalKahlerManifold :=
  let* x := np_linspace (-2) 2 size in
  let* y := np_linspace (-2) 2 size in
  let '(xx, yy) := np_meshgrid x y in
  let self := Self.mk size fractal_level scale x y xx yy [] [] (mkGamma [] []) in
  let self := Self.set_K self (_generate_fractal_potential self fractal_level scale) in
  let* g := _compute_metric_from_potential self in
  let self := Self.set_g self g in
  let* Gamma := _compute_christoffel self in
  Ok (Self.set_Gamma self Gamma).

End Manifold.

Definition get_christoffel (self : FractalKahlerManifold) (x y : R)
  : result (GammaDict R) :=
  let* ix := np_argmin (map (fun xi => Rabs (xi - x)) self.(Self.x)) in
  let* iy := np_argmin (map (fun yi => Rabs (yi - y)) self.(Self.y)) in
  let* gx := getitem2 (Gamma_x_xx self.(Self.Gamma)) (Z.of_nat iy) (Z.of_nat ix) in
  let* gy := getitem2 (Gamma_y_yy self.(Self.Gamma)) (Z.of_nat iy) (Z.of_nat ix) in
  Ok (mkGamma gx gy).

(** The body of the loop of [parallel_transport], on the state [(vx, vy)]. *)
Definition transport_step (self : FractalKahlerManifold)
    (t_span : list R) (points : list (R * R))
    (i : Z) (v : list R * list R) : result (list R * list R) :=
  let '(vx, vy) := v in
  let* t1 := getitem t_span (i + 1) in
  let* t0 := getitem t_span i in
  let dt := t1 - t0 in
  let* '(x, y) := getitem points i in
  let* '(dxdt, dydt) :=
    if (i =? 0)%Z then
      let* p1 := getitem points (i + 1) in
      Ok ((fst p1 - x) / dt, (snd p1 - y) / dt)
    else
      let* p1 := getitem points (i + 1) in
      let* p0 := getitem points (i - 1) in
      Ok ((fst p1 - fst p0) / (2 * dt), (snd p1 - snd p0) / (2 * dt)) in
  let* Gamma := get_christoffel self x y in
  let gamma_x := Gamma_x_xx Gamma in
  let gamma_y := Gamma_y_yy Gamma in
  let* vxi := getitem vx i in
  let dvxdt := - gamma_x * vxi * dxdt in
  let* vyi := getitem vy i in
  let dvydt := - gamma_y * vyi * dydt in
  let* vx := setitem vx (i + 1) (vxi + dvxdt * dt) in
  let* vy := setitem vy (i + 1) (vyi + dvydt * dt) in
  Ok (vx, vy).

Definition parallel_transport (self : FractalKahlerManifold)
    (curve : R -> R * R) (initial_vector : R * R) (steps : Z)
  : result ((list R * list R) * list (R * R)) :=
  let* t_span := np_linspace 0 1 steps in
  let points := map curve t_span in
  let* vx := np_zeros steps in
  let* vy := np_zeros steps in
  let* vx := setitem vx 0 (fst initial_vector) in
  let* vy := setitem vy 0 (snd initial_vector) in
  let* '(vx, vy) :=
    for_range (steps - 1) (transport_step self t_span points) (vx, vy) in
  Ok ((vx, vy), points).

(** A 2x2 matrix, by rows. *)
Definition mat2 (A : Type) : Type := (A * A) * (A * A).

(** The quotient [dot / (norm0 * norm1)] is not guarded either: with a
    zero initial or final vector the code computes [0 / 0], NaN, and
    returns a NaN angle and matrix ([F64.compute_holonomy]); over [R] the
    quotient is a number of no meaning there. *)
Definition compute_holonomy (self : FractalKahlerManifold)
    (loop : R -> R * R) (initial_vector : R * R) (steps : Z)
  : result (R * mat2 R * (list R * list R) * list (R * R)) :=
  let* '((vx, vy), points) := parallel_transport self loop initial_vector steps in
  let v_initial := initial_vector in
  let* vx_last := getitem vx (-1) in
  let* vy_last := getitem vy (-1) in
  let v_final := (vx_last, vy_last) in
  let dot := np_dot v_initial v_final in
  let norm0 := np_linalg_norm v_initial in
  let norm1 := np_linalg_norm v_final in
  let cos_theta := dot / (norm0 * norm1) in
  let cos_theta := np_clip cos_theta (-1) 1 in
  let angle := acos cos_theta in
  let cross := fst v_initial * snd v_final - snd v_initial * fst v_final in
  let angle := if Rlt_dec cross 0 then - angle else angle in
  let rot := ((cos angle, - sin angle), (sin angle, cos angle)) in
  Ok (angle, rot, (vx, vy), points).

(** The loop of the demonstration of the module: the circle of radius
    [0.5] around [(0.5, -0.3)]. *)
Definition circle_loop (t : R) : R * R :=
  let theta := 2 * PI * t in
  (0.5 + 0.5 * cos theta, -0.3 + 0.5 * sin theta).

(** ** The driver [depth3_simulation.py] *)

(** A complex number, as its real and imaginary parts. *)
Abbreviation C := (R * R)%type.

Definition Cplus (z w : C) : C := (fst z + fst w, snd z + snd w).
Definition Cmult (z w : C) : C :=
  (fst z * fst w - snd z * snd w, fst z * snd w + snd z * fst w).
Definition RtoC (a : R) : C := (a, 0).
Definition Cdiv_real (z : C) (a : R) : C := (fst z / a, snd z / a).
Definition Cexp (z : C) : C := (exp (fst z) * cos (snd z), exp (fst z) * sin (snd z)).

(** [M @ N] on 2x2 complex matrices. *)
Definition matmul (m n : mat2 C) : mat2 C :=
  ((Cplus (Cmult (fst (fst m)) (fst (fst n))) (Cmult (snd (fst m)) (fst (snd n))),
    Cplus (Cmult (fst (fst m)) (snd (fst n))) (Cmult (snd (fst m)) (snd (snd n)))),
   (Cplus (Cmult (fst (snd m)) (fst (fst n))) (Cmult (snd (snd m)) (fst (snd n))),
    Cplus (Cmult (fst (snd m)) (snd (fst n))) (Cmult (snd (snd m)) (snd (snd n))))).

(** [np.arctan2(y, x)]: the angle of the point [(x, y)] in [(-pi, pi]].
    A real number has no signed zero: for [x < 0] and [y = -0.0] NumPy
    returns [-pi], this definition [pi]. *)
Definition atan2 (y x : R) : R :=
  if Rlt_dec 0 x then atan (y / x)
  else if Rlt_dec x 0 then
    if Rle_dec 0 y then atan (y / x) + PI else atan (y / x) - PI
  else if Rlt_dec 0 y then PI / 2
  else if Rlt_dec y 0 then - (PI / 2)
  else 0.

(** [np.angle(z) = arctan2(z.imag, z.real)] and [np.degrees]. *)
Definition np_angle (z : C) : R := atan2 (snd z) (fst z).
Definition np_degrees (a : R) : R := a * (180 / PI).

(** The three loops of the driver. *)
Definition loop1 (t : R) : C :=
  Cplus (Cplus (RtoC 0.5) (0, 0.5))
        (Cmult (RtoC 0.4) (Cexp (Cmult (Cmult (0, 2) (RtoC PI)) (RtoC t)))).

Definition loop2 (t : R) : C :=
  let theta := 2 * PI * t in
  Cdiv_real
    (Cmult (RtoC 0.1)
       (Cplus (RtoC (cos theta)) (Cmult (0, 1) (RtoC (sin (2 * theta))))))
    (1 + sin theta ^ 2).

Definition loop3 (t : R) : C :=
  Cplus (Cplus (RtoC (-0.7)) (0, -0.6))
        (Cmult (RtoC 0.5) (Cexp (Cmult (Cmult (0, 2) (RtoC PI)) (RtoC t)))).

(** The value stored under each key of [results]: the dictionary with the
    keys ['phase'], ['angle_degrees'] and ['matrix']. *)
Record LoopResult : Type := mkLoopResult {
  phase : C;
  angle_degrees : R;
  matrix : mat2 C
}.

Section Depth3.

(** The class [ComplexKahlerManifold] of the module
    [complex_kahler_manifold], which the driver imports: its constructor and
    its method [compute_holonomy_complex], which returns a phase factor, a
    matrix, the two transported components and the path points. *)
Variable ComplexKahlerManifold : Type.
Variable new_ComplexKahlerManifold :
  Z -> Z -> R -> result ComplexKahlerManifold.
Variable compute_holonomy_complex :
  ComplexKahlerManifold -> (R -> C) -> C * C -> Z ->
  result (C * mat2 C * (list C * list C) * list C).

Definition run_depth3_simulation : result (gmap string LoopResult) :=
  let* ckm := new_ComplexKahlerManifold 300 5 0.3 in
  let init_vec := (RtoC 1, RtoC 1) in
  let results : gmap string LoopResult := empty in
  let* '(phase1, M1, (v_z1, v_zc1), pts1) :=
    compute_holonomy_complex ckm loop1 init_vec 300 in
  let angle1 := np_degrees (np_angle phase1) in
  let results := <["loop1" := mkLoopResult phase1 angle1 M1]> results in
  let* z := getitem v_z1 (-1) in
  let* zc := getitem v_zc1 (-1) in
  let current_vec := (z, zc) in
  let* '(phase2, M2, (v_z2, v_zc2), pts2) :=
    compute_holonomy_complex ckm loop2 current_vec 300 in
  let angle2 := np_degrees (np_angle phase2) in
  let results := <["loop2" := mkLoopResult phase2 angle2 M2]> results in
  let* z := getitem v_z2 (-1) in
  let* zc := getitem v_zc2 (-1) in
  let current_vec := (z, zc) in
  let* '(phase3, M3, (v_z3, v_zc3), pts3) :=
    compute_holonomy_complex ckm loop3 current_vec 300 in
  let angle3 := np_degrees (np_angle phase3) in
  let results := <["loop3" := mkLoopResult phase3 angle3 M3]> results in
  let total_phase := Cmult (Cmult phase1 phase2) phase3 in
  let total_angle_degrees := np_degrees (np_angle total_phase) in
  let total_matrix := matmul (matmul M3 M2) M1 in
  let results :=
    <["total" := mkLoopResult total_phase total_angle_degrees total_matrix]> results in
  Ok results.

End Depth3.

(** * The same methods in binary64 arithmetic *)

(** The methods of [FractalKahlerManifold] once more, on Rocq's primitive
    binary64 floats: every sum, difference, product, quotient, square root
    and comparison below is the IEEE 754 operation that NumPy performs on a
    [float64], with its rounding, its infinities and its NaN.  The
    definitions follow the ones over the real numbers line by line; what
    differs is written out: [np.linspace] tests its step against zero,
    [np.argmin] and [np.clip] let a NaN through, a division by zero gives an
    infinity or NaN and raises nothing.  The functions [arccos], [cos] and
    [sin] of the C library are parameters of [compute_holonomy]. *)
Module F64.

(** The integer [n] as a float, as [np.arange] produces it. *)
Definition of_nat (n : nat) : float :=
  PrimFloat.of_uint63 (Uint63.of_Z (Z.of_nat n)).

(** [np.linspace(start, stop, num)] *)
Definition np_linspace (start stop : float) (num : Z) : result (list float) :=
  if (num <? 0)%Z then Raise ValueError else
  let n := Z.to_nat num in
  let div := (n - 1)%nat in
  let delta := (stop - start)%float in
  let y := map of_nat (seq 0 n) in
  let y := if (0 <? div)%nat
           then
             let step := (delta / of_nat div)%float in
             if (step =? 0)%float
             then map (fun v => (v / of_nat div * delta)%float) y
             else map (fun v => (v * step)%float) y
           else map (fun v => (v * delta)%float) y in
  let y := map (fun v => (v + start)%float) y in
  Ok (if (1 <? n)%nat then <[(n - 1)%nat := stop]> y else y).

(** [np.zeros(n)] *)
Definition np_zeros (n : Z) : result (list float) :=
  if (n <? 0)%Z then Raise ValueError else Ok (replicate (Z.to_nat n) 0%float).

(** [np.argmin]: the index of the first element for which [v >= best] fails,
    scanning from the left; a NaN is taken as the minimum and ends the scan. *)
Fixpoint argmin_from (best : float) (ibest i : nat) (l : list float) : nat :=
  match l with
  | [] => ibest
  | v :: l' =>
      if (best <=? v)%float then argmin_from best ibest (S i) l'
      else if PrimFloat.is_nan v then i
      else argmin_from v i (S i) l'
  end.

Definition np_argmin (l : list float) : result nat :=
  match l with
  | [] => Raise ValueError
  | v :: l' => if PrimFloat.is_nan v then Ok 0%nat else Ok (argmin_from v 0 1 l')
  end.

(** [np.clip(a, lo, hi)]: [minimum(maximum(a, lo), hi)], where a NaN [a]
    comes back as it is. *)
Definition np_clip (a lo hi : float) : float :=
  let m := if PrimFloat.is_nan a then a else if (lo <? a)%float then a else lo in
  if PrimFloat.is_nan m then m else if (m <? hi)%float then m else hi.

(** [np.dot] and [np.linalg.norm] on vectors of length two. *)
Definition np_dot (u v : float * float) : float :=
  (fst u * fst v + snd u * snd v)%float.
Definition np_linalg_norm (v : float * float) : float :=
  PrimFloat.sqrt (fst v * fst v + snd v * snd v)%float.

(** Elementwise operations on two-dimensional arrays. *)
Definition map2d (f : float -> float) (a : list (list float)) : list (list float) :=
  map (map f) a.
Definition zip2d (f : float -> float -> float) (a b : list (list float))
  : list (list float) :=
  zip_with (zip_with f) a b.

(** [np.gradient(f, h)] along one axis, as over the real numbers. *)
Definition gradient_values {A : Type} (sub : A -> A -> A) (divs : A -> float -> A)
    (dflt : A) (f : list A) (h : float) : list A :=
  let n := length f in
  map (fun i =>
         if (i =? 0)%nat then
           divs (sub (nth 1 f dflt) (nth 0 f dflt)) h
         else if (i =? n - 1)%nat then
           divs (sub (nth (n - 1) f dflt) (nth (n - 2) f dflt)) h
         else
           divs (sub (nth (i + 1) f dflt) (nth (i - 1) f dflt)) (2 * h)%float)
      (seq 0 n).

Definition gradient_axis {A : Type} (sub : A -> A -> A) (divs : A -> float -> A)
    (dflt : A) (f : list A) (h : float) : result (list A) :=
  if (length f <? 2)%nat then Raise ValueError
  else Ok (gradient_values sub divs dflt f h).

Definition np_gradient_axis1 (a : list (list float)) (h : float)
  : result (list (list float)) :=
  match a with
  | [] => Raise ValueError
  | _ => mapM (fun row => gradient_axis PrimFloat.sub PrimFloat.div 0%float row h) a
  end.

Definition np_gradient_axis0 (a : list (list float)) (h : float)
  : result (list (list float)) :=
  gradient_axis (zip_with PrimFloat.sub)
    (fun row s => map (fun v => (v / s)%float) row) [] a h.

(** The attributes of an instance. *)
Module Self.
Record FractalKahlerManifold : Type := mk {
  size : Z;
  fractal_level : Z;
  scale : float;
  x : list float;
  y : list float;
  xx : list (list float);
  yy : list (list float);
  K : list (list float);
  g : list (list float);
  Gamma : GammaDict (list (list float))
}.
End Self.

Definition _compute_christoffel (self : Self.FractalKahlerManifold)
  : result (GammaDict (list (list float))) :=
  let* x1 := getitem self.(Self.x) 1 in
  let* x0 := getitem self.(Self.x) 0 in
  let dx := (x1 - x0)%float in
  let* y1 := getitem self.(Self.y) 1 in
  let* y0 := getitem self.(Self.y) 0 in
  let dy := (y1 - y0)%float in
  let* dg_dx := np_gradient_axis1 self.(Self.g) dx in
  let* dg_dy := np_gradient_axis0 self.(Self.g) dy in
  let Gamma_x_xx :=
    zip2d PrimFloat.div (map2d (fun v => (0.5 * v)%float) dg_dx) self.(Self.g) in
  let Gamma_y_yy :=
    zip2d PrimFloat.div (map2d (fun v => (0.5 * v)%float) dg_dy) self.(Self.g) in
  Ok (mkGamma Gamma_x_xx Gamma_y_yy).

Definition get_christoffel (self : Self.FractalKahlerManifold) (x y : float)
  : result (GammaDict float) :=
  let* ix := np_argmin (map (fun xi => PrimFloat.abs (xi - x)%float) self.(Self.x)) in
  let* iy := np_argmin (map (fun yi => PrimFloat.abs (yi - y)%float) self.(Self.y)) in
  let* gx := getitem2 (Gamma_x_xx self.(Self.Gamma)) (Z.of_nat iy) (Z.of_nat ix) in
  let* gy := getitem2 (Gamma_y_yy self.(Self.Gamma)) (Z.of_nat iy) (Z.of_nat ix) in
  Ok (mkGamma gx gy).

Definition transport_step (self : Self.FractalKahlerManifold)
    (t_span : list float) (points : list (float * float))
    (i : Z) (v : list float * list float) : result (list float * list float) :=
  let '(vx, vy) := v in
  let* t1 := getitem t_span (i + 1) in
  let* t0 := getitem t_span i in
  let dt := (t1 - t0)%float in
  let* '(x, y) := getitem points i in
  let* '(dxdt, dydt) :=
    if (i =? 0)%Z then
      let* p1 := getitem points (i + 1) in
      Ok ((fst p1 - x) / dt, (snd p1 - y) / dt)%float
    else
      let* p1 := getitem points (i + 1) in
      let* p0 := getitem points (i - 1) in
      Ok ((fst p1 - fst p0) / (2 * dt), (snd p1 - snd p0) / (2 * dt))%float in
  let* Gamma := get_christoffel self x y in
  let gamma_x := Gamma_x_xx Gamma in
  let gamma_y := Gamma_y_yy Gamma in
  let* vxi := getitem vx i in
  let dvxdt := (- gamma_x * vxi * dxdt)%float in
  let* vyi := getitem vy i in
  let dvydt := (- gamma_y * vyi * dydt)%float in
  let* vx := setitem vx (i + 1) (vxi + dvxdt * dt)%float in
  let* vy := setitem vy (i + 1) (vyi + dvydt * dt)%float in
  Ok (vx, vy).

Definition parallel_transport (self : Self.FractalKahlerManifold)
    (curve : float -> float * float) (initial_vector : float * float) (steps : Z)
  : result ((list float * list float) * list (float * float)) :=
  let* t_span := np_linspace 0 1 steps in
  let points := map curve t_span in
  let* vx := np_zeros steps in
  let* vy := np_zeros steps in
  let* vx := setitem vx 0 (fst initial_vector) in
  let* vy := setitem vy 0 (snd initial_vector) in
  let* '(vx, vy) :=
    for_range (steps - 1) (transport_step self t_span points) (vx, vy) in
  Ok ((vx, vy), points).

Section Libm.

(** [np.arccos], [np.cos] and [np.sin] on a [float64]: the functions of the
    C library. *)
Variable np_arccos np_cos np_sin : float -> float.

Definition compute_holonomy (self : Self.FractalKahlerManifold)
    (loop : float -> float * float) (initial_vector : float * float) (steps : Z)
  : result (float * mat2 float * (list float * list float) * list (float * float)) :=
  let* '((vx, vy), points) := parallel_transport self loop initial_vector steps in
  let v_initial := initial_vector in
  let* vx_last := getitem vx (-1) in
  let* vy_last := getitem vy (-1) in
  let v_final := (vx_last, vy_last) in
  let dot := np_dot v_initial v_final in
  let norm0 := np_linalg_norm v_initial in
  let norm1 := np_linalg_norm v_final in
  let cos_theta := (dot / (norm0 * norm1))%float in
  let cos_theta := np_clip cos_theta (-1) 1 in
  let angle := np_arccos cos_theta in
  let cross :=
    (fst v_initial * snd v_final - snd v_initial * fst v_final)%float in
  let angle := if (cross <? 0)%float then (- angle)%float else angle in
  let rot := ((np_cos angle, (- np_sin angle)%float), (np_sin angle, np_cos angle)) in
  Ok (angle, rot, (vx, vy), points).

End Libm.

(** The determinant of a 2x2 matrix of floats. *)
Definition mat2_det (m : mat2 float) : float :=
  (fst (fst m) * snd (snd m) - snd (fst m) * fst (snd m))%float.

(** Instances on the grid of three samples per axis: the connection [0] at
    every cell, the connection [1] at every cell, and the instance with a
    zero metric, whose connection is NaN at every cell. *)
Definition constant_connection (c : float) : Self.FractalKahlerManifold :=
  Self.mk 3 0 0
    [-2; 0; 2]%float [-2; 0; 2]%float
    [[-2; 0; 2]; [-2; 0; 2]; [-2; 0; 2]]%float
    [[-2; -2; -2]; [0; 0; 0]; [2; 2; 2]]%float
    [[0; 0; 0]; [0; 0; 0]; [0; 0; 0]]%float
    [[0; 0; 0]; [0; 0; 0]; [0; 0; 0]]%float
    (mkGamma [[c; c; c]; [c; c; c]; [c; c; c]] [[c; c; c]; [c; c; c]; [c; c; c]]).

End F64.

(** * The vocabulary of the properties *)

(** ** Samples, indices and shapes *)

(** The samples of [np.linspace(start, stop, n)] in closed form. *)
Definition linspace_samples (start stop : R) (n : nat) : list R :=
  map (fun i => start + INR i * ((stop - start) / INR (n - 1))) (seq 0 n).

(** [r] is the first index of a least element of [l]. *)
Definition first_argmin (l : list R) (r : nat) : Prop :=
  exists m, l !! r = Some m
    /\ (forall j v, l !! j = Some v -> m <= v)
    /\ (forall j v, (j < r)%nat -> l !! j = Some v -> m < v).

(** The grid axis [xs] is strictly increasing. *)
Definition increasing (xs : list R) : Prop :=
  forall i j a b, (i < j)%nat -> xs !! i = Some a -> xs !! j = Some b -> a < b.

(** [r] is the index of a grid sample nearest to [x], the first of them. *)
Definition nearest_index (xs : list R) (x : R) (r : nat) : Prop :=
  first_argmin (map (fun xi => Rabs (xi - x)) xs) r.

(** The array [a] has [rows] rows of [cols] cells each. *)
Definition has_shape (a : array2) (rows cols : nat) : Prop :=
  length a = rows /\ Forall (fun row => length row = cols) a.

(** The shape of the attributes that the sampler reads: non-empty axes and
    two connection arrays with a row per [y] sample and a column per [x]
    sample. *)
Record wf_manifold (self : FractalKahlerManifold) : Prop := {
  wf_x : self.(Self.x) <> [];
  wf_y : self.(Self.y) <> [];
  wf_Gamma_x :
    has_shape (Gamma_x_xx self.(Self.Gamma))
      (length self.(Self.y)) (length self.(Self.x));
  wf_Gamma_y :
    has_shape (Gamma_y_yy self.(Self.Gamma))
      (length self.(Self.y)) (length self.(Self.x))
}.

(** Every cell of the two connection arrays is zero. *)
Definition flat_connection (self : FractalKahlerManifold) : Prop :=
  (forall i j row v,
      Gamma_x_xx self.(Self.Gamma) !! i = Some row -> row !! j = Some v -> v = 0)
  /\ (forall i j row v,
      Gamma_y_yy self.(Self.Gamma) !! i = Some row -> row !! j = Some v -> v = 0).

(** ** The transport integrator *)

(** The [i]-th of the [n] parameter values, the [i]-th step and the
    velocity estimate of the path at the [i]-th sample: a forward difference
    at the first sample, a centered one elsewhere. *)
Definition tsample (n i : nat) : R := 0 + INR i * ((1 - 0) / INR (n - 1)).

Definition tstep (n i : nat) : R := tsample n (i + 1) - tsample n i.

Definition velocity (curve : R -> R * R) (n i : nat) : R * R :=
  if (i =? 0)%nat then
    ((fst (curve (tsample n 1)) - fst (curve (tsample n 0))) / tstep n i,
     (snd (curve (tsample n 1)) - snd (curve (tsample n 0))) / tstep n i)
  else
    ((fst (curve (tsample n (i + 1))) - fst (curve (tsample n (i - 1))))
       / (2 * tstep n i),
     (snd (curve (tsample n (i + 1))) - snd (curve (tsample n (i - 1))))
       / (2 * tstep n i)).

(** Sample [i + 1] of the trajectory is the Euler step from sample [i]. *)
Definition euler_rel (self : FractalKahlerManifold) (curve : R -> R * R)
    (n : nat) (vx vy : list R) (i : nat) : Prop :=
  exists vxi vyi Gamma,
    vx !! i = Some vxi /\ vy !! i = Some vyi
    /\ get_christoffel self (fst (curve (tsample n i))) (snd (curve (tsample n i)))
       = Ok Gamma
    /\ vx !! (i + 1)%nat
       = Some (vxi + - Gamma_x_xx Gamma * vxi * fst (velocity curve n i) * tstep n i)
    /\ vy !! (i + 1)%nat
       = Some (vyi + - Gamma_y_yy Gamma * vyi * snd (velocity curve n i) * tstep n i).

(** What a transport with [n] samples returns. *)
Record transport_spec (self : FractalKahlerManifold) (curve : R -> R * R)
    (v0 : R * R) (n : nat) (vx vy : list R) (points : list (R * R)) : Prop := {
  ts_points : points = map curve (linspace_samples 0 1 n);
  ts_length_x : length vx = n;
  ts_length_y : length vy = n;
  ts_init_x : vx !! 0%nat = Some (fst v0);
  ts_init_y : vy !! 0%nat = Some (snd v0);
  ts_euler : forall i, (i + 1 < n)%nat -> euler_rel self curve n vx vy i
}.

(** The [i]-th of [n] uniformly spaced parameter values of [[0, 1]]. *)
Definition uniform_time (n i : nat) : R := INR i / INR (n - 1).

(** The estimate of the velocity of the path at sample [i], for the step
    [dt]: a forward difference at the first sample, a centered difference at
    the others. *)
Definition path_velocity (curve : R -> R * R) (n : nat) (dt : R) (i : nat)
  : R * R :=
  let p k := curve (uniform_time n k) in
  if (i =? 0)%nat then
    ((fst (p 1%nat) - fst (p 0%nat)) / dt, (snd (p 1%nat) - snd (p 0%nat)) / dt)
  else
    ((fst (p (i + 1)%nat) - fst (p (i - 1)%nat)) / (2 * dt),
     (snd (p (i + 1)%nat) - snd (p (i - 1)%nat)) / (2 * dt)).

(** ** The holonomy extractor *)

(** The 2D cross product of two vectors. *)
Definition cross2 (u v : R * R) : R := fst u * snd v - snd u * fst v.

(** The cosine argument after the clip, the unsigned angle and the signed
    angle between the initial vector [v0] and the final vector [vf]. *)
Definition clipped_cosine (v0 vf : R * R) : R :=
  np_clip (np_dot v0 vf / (np_linalg_norm v0 * np_linalg_norm vf)) (-1) 1.

Definition unsigned_angle (v0 vf : R * R) : R := acos (clipped_cosine v0 vf).

Definition signed_angle (v0 vf : R * R) : R :=
  if Rlt_dec (cross2 v0 vf) 0 then - unsigned_angle v0 vf else unsigned_angle v0 vf.

(** The rotation matrix of the angle [a]. *)
Definition rotation_matrix (a : R) : mat2 R :=
  ((cos a, - sin a), (sin a, cos a)).

(** The last sample of a trajectory. *)
Definition final_vector (vx vy : list R) : option (R * R) :=
  match vx !! (length vx - 1)%nat, vy !! (length vy - 1)%nat with
  | Some a, Some b => Some (a, b)
  | _, _ => None
  end.

(** The angle of a rotation matrix, from its first column. *)
Definition angle_of_rotation (m : mat2 R) : R :=
  atan2 (fst (snd m)) (fst (fst m)).

(** Transpose, product, identity and determinant of 2x2 matrices. *)
Definition mat2_transpose {A : Type} (m : mat2 A) : mat2 A :=
  ((fst (fst m), fst (snd m)), (snd (fst m), snd (snd m))).

Definition mat2_mul (m n : mat2 R) : mat2 R :=
  ((fst (fst m) * fst (fst n) + snd (fst m) * fst (snd n),
    fst (fst m) * snd (fst n) + snd (fst m) * snd (snd n)),
   (fst (snd m) * fst (fst n) + snd (snd m) * fst (snd n),
    fst (snd m) * snd (fst n) + snd (snd m) * snd (snd n))).

Definition mat2_identity : mat2 R := ((1, 0), (0, 1)).

Definition mat2_det (m : mat2 R) : R :=
  fst (fst m) * snd (snd m) - snd (fst m) * fst (snd m).

(** Every entry of [m] is within [tol] of the entry of [n]. *)
Definition mat2_close (tol : R) (m n : mat2 R) : Prop :=
  Rabs (fst (fst m) - fst (fst n)) <= tol
  /\ Rabs (snd (fst m) - snd (fst n)) <= tol
  /\ Rabs (fst (snd m) - fst (snd n)) <= tol
  /\ Rabs (snd (snd m) - snd (snd n)) <= tol.

(** ** Two-dimensional arrays as tables, and the constructor *)

(** The array with [rows] rows and [cols] columns whose cell [(i, j)] is
    [F i j]. *)
Definition tabulate (rows cols : nat) (F : nat -> nat -> R) : array2 :=
  map (fun i => map (F i) (seq 0 cols)) (seq 0 rows).

(** The finite difference at index [i] of the [n] samples [f 0 .. f (n-1)]. *)
Definition grad_cell (f : nat -> R) (n : nat) (h : R) (i : nat) : R :=
  if (i =? 0)%nat then (f 1%nat - f 0%nat) / h
  else if (i =? n - 1)%nat then (f (n - 1)%nat - f (n - 2)%nat) / h
  else (f (i + 1)%nat - f (i - 1)%nat) / (2 * h).

(** The metric at cell [(i, j)] from the cells [Kc] of the potential:
    a quarter of the sum of the two second differences. *)
Definition metric_cell (Kc : nat -> nat -> R) (n : nat) (dx dy : R)
    (i j : nat) : R :=
  0.25 * (grad_cell (fun c => grad_cell (Kc i) n dx c) n dx j
          + grad_cell (fun r => grad_cell (fun k => Kc k j) n dy r) n dy i).

(** The two connection components at cell [(i, j)] from the cells [Gc] of
    the metric: the division is performed whatever the value of [Gc i j]. *)
Definition christoffel_x_cell (Gc : nat -> nat -> R) (n : nat) (dx : R)
    (i j : nat) : R :=
  0.5 * grad_cell (Gc i) n dx j / Gc i j.

Definition christoffel_y_cell (Gc : nat -> nat -> R) (n : nat) (dy : R)
    (i j : nat) : R :=
  0.5 * grad_cell (fun k => Gc k j) n dy i / Gc i j.

(** The spacing [x[1] - x[0]] of an axis. *)
Definition spacing (x : list R) : R := nth 1 x 0 - nth 0 x 0.

(** The axis of the grid: [n] samples of [[-2, 2]]. *)
Definition grid (n : nat) : list R := linspace_samples (-2) 2 n.

Section ConstructorCells.

Variable uniform : nat -> R.

(** The cells of the potential after the bands [levels], from the cells
    [F0]; [X] and [Y] are the cells of the mesh. *)
Definition potential_cells (scale : R) (X Y : nat -> nat -> R)
    (levels : list nat) (F0 : nat -> nat -> R) : nat -> nat -> R :=
  fold_left
    (fun F l i j =>
       F i j
       + scale * (1 / Rpower (IZR (2 ^ Z.of_nat l)) 1.2)
         * (sin (IZR (2 ^ Z.of_nat l) * X i j + uniform l)
            + cos (IZR (2 ^ Z.of_nat l) * Y i j + uniform l)))
    levels F0.

(** The cells of the potential and of the metric of the instance with [n]
    samples per axis. *)
Definition K_cells (n : nat) (level : Z) (scale : R) : nat -> nat -> R :=
  potential_cells scale (fun _ j => nth j (grid n) 0) (fun i _ => nth i (grid n) 0)
    (seq 0 (Z.to_nat level)) (fun _ _ => 0).

Definition g_cells (n : nat) (level : Z) (scale : R) : nat -> nat -> R :=
  metric_cell (K_cells n level scale) n (spacing (grid n)) (spacing (grid n)).

(** The instance that the constructor builds for [size >= 2], in closed
    form. *)
Definition built (size level : Z) (scale : R) : FractalKahlerManifold :=
  let n := Z.to_nat size in
  Self.mk size level scale (grid n) (grid n)
    (tabulate n n (fun _ j => nth j (grid n) 0))
    (tabulate n n (fun i _ => nth i (grid n) 0))
    (tabulate n n (K_cells n level scale))
    (tabulate n n (g_cells n level scale))
    (mkGamma
       (tabulate n n (christoffel_x_cell (g_cells n level scale) n (spacing (grid n))))
       (tabulate n n (christoffel_y_cell (g_cells n level scale) n (spacing (grid n))))).

End ConstructorCells.

(** ** Instances *)

(** An instance on the 3x3 grid: the potential [x^2 + y^2], whose metric is
    [1/2] at every cell and whose connection vanishes. *)
Definition sample_manifold : FractalKahlerManifold :=
  Self.mk 3 0 0
    [-2; 0; 2] [-2; 0; 2]
    [[-2; 0; 2]; [-2; 0; 2]; [-2; 0; 2]]
    [[-2; -2; -2]; [0; 0; 0]; [2; 2; 2]]
    [[8; 4; 8]; [4; 0; 4]; [8; 4; 8]]
    [[0.5; 0.5; 0.5]; [0.5; 0.5; 0.5]; [0.5; 0.5; 0.5]]
    (mkGamma [[0; 0; 0]; [0; 0; 0]; [0; 0; 0]] [[0; 0; 0]; [0; 0; 0]; [0; 0; 0]]).

(** The state of an instance on the 3x3 grid whose potential and metric
    vanish, before its connection is assigned. *)
Definition zero_metric_manifold : FractalKahlerManifold :=
  Self.mk 3 3 0
    [-2; 0; 2] [-2; 0; 2]
    [[-2; 0; 2]; [-2; 0; 2]; [-2; 0; 2]]
    [[-2; -2; -2]; [0; 0; 0]; [2; 2; 2]]
    [[0; 0; 0]; [0; 0; 0]; [0; 0; 0]]
    [[0; 0; 0]; [0; 0; 0]; [0; 0; 0]]
    (mkGamma [] []).

(** The sample manifold with its connection overwritten by [1] at every
    cell. *)
Definition unit_connection_manifold : FractalKahlerManifold :=
  Self.set_Gamma sample_manifold
    (mkGamma [[1; 1; 1]; [1; 1; 1]; [1; 1; 1]] [[1; 1; 1]; [1; 1; 1]; [1; 1; 1]]).

(** ** The composition of three loops *)

Section Depth3Run.

Variable ComplexKahlerManifold : Type.
Variable new_ComplexKahlerManifold :
  Z -> Z -> R -> result ComplexKahlerManifold.
Variable compute_holonomy_complex :
  ComplexKahlerManifold -> (R -> C) -> C * C -> Z ->
  result (C * mat2 C * (list C * list C) * list C).

(** The calls of one run that returns: the manifold, and for each loop the
    initial vector, the phase factor, the matrix and the last transported
    vector.  The initial vector of the first loop is [(1, 1)]; that of each
    later loop is the last transported vector of the loop before. *)
Definition depth3_run (ckm : ComplexKahlerManifold)
    (phase1 phase2 phase3 : C) (M1 M2 M3 : mat2 C)
    (v1 v2 v3 : list C * list C) (pts1 pts2 pts3 : list C)
    (end1 end2 : C * C) : Prop :=
  new_ComplexKahlerManifold 300 5 0.3 = Ok ckm
  /\ compute_holonomy_complex ckm loop1 (RtoC 1, RtoC 1) 300
     = Ok (phase1, M1, v1, pts1)
  /\ getitem (fst v1) (-1) = Ok (fst end1)
  /\ getitem (snd v1) (-1) = Ok (snd end1)
  /\ compute_holonomy_complex ckm loop2 end1 300 = Ok (phase2, M2, v2, pts2)
  /\ getitem (fst v2) (-1) = Ok (fst end2)
  /\ getitem (snd v2) (-1) = Ok (snd end2)
  /\ compute_holonomy_complex ckm loop3 end2 300 = Ok (phase3, M3, v3, pts3).

End Depth3Run.

(** The dictionary that such a run returns. *)
Definition depth3_results (phase1 phase2 phase3 : C) (M1 M2 M3 : mat2 C)
  : gmap string LoopResult :=
  <["total" :=
      mkLoopResult (Cmult (Cmult phase1 phase2) phase3)
        (np_degrees (np_angle (Cmult (Cmult phase1 phase2) phase3)))
        (matmul (matmul M3 M2) M1)]>
    (<["loop3" := mkLoopResult phase3 (np_degrees (np_angle phase3)) M3]>
       (<["loop2" := mkLoopResult phase2 (np_degrees (np_angle phase2)) M2]>
          (<["loop1" := mkLoopResult phase1 (np_degrees (np_angle phase1)) M1]>
             empty))).

(** A stand-in for the method [compute_holonomy_complex] of the class
    [ComplexKahlerManifold], which is not among the sources: every loop has
    the unit phase factor [i] (a quarter turn) and the unitary matrix
    [diag(i, -i)], and leaves the vector as it is. *)
Definition quarter_turn_holonomy (_ : unit) (_ : R -> C) (v : C * C) (_ : Z)
  : result (C * mat2 C * (list C * list C) * list C) :=
  Ok ((0, 1), (((0, 1), (0, 0)), ((0, 0), (0, -1))), ([fst v], [snd v]), []).

(** ** Further vocabulary *)

(** The matrix [m] applied to the vector [v]. *)
Definition mat2_apply (m : mat2 R) (v : R * R) : R * R :=
  (fst (fst m) * fst v + snd (fst m) * snd v,
   fst (snd m) * fst v + snd (snd m) * snd v).

(** The weight [1.0 / (freq ** 1.2)] of the band [l], with [freq = 2 ** l]. *)
Definition band_weight (l : nat) : R := 1 / Rpower (IZR (2 ^ Z.of_nat l)) 1.2.

(** The potential at the point [(x, y)] after the first [levels] bands: the
    sum, over the bands [l], of
    [scale * weight * (sin(freq * x + phase) + cos(freq * y + phase))]. *)
Fixpoint potential_sum (uniform : nat -> R) (scale : R) (levels : nat)
    (x y : R) : R :=
  match levels with
  | O => 0
  | S l =>
      potential_sum uniform scale l x y
      + scale * band_weight l
        * (sin (IZR (2 ^ Z.of_nat l) * x + uniform l)
           + cos (IZR (2 ^ Z.of_nat l) * y + uniform l))
  end.

(** The determinant of a 2x2 complex matrix. *)
Definition Cdet (m : mat2 C) : C :=
  Cplus (Cmult (fst (fst m)) (snd (snd m)))
        (Cmult (RtoC (-1)) (Cmult (snd (fst m)) (fst (snd m)))).

(** The four keys of the dictionary that the driver returns. *)
Definition depth3_keys : list string := ["loop1"; "loop2"; "loop3"; "total"].

(** The demonstration of the module [fractal_kahler_manifold] (its
    [__main__] block), up to the number that it prints: the holonomy angle
    in degrees of the vector [(1, 0)] around [circle_loop], with 200 steps,
    on the instance of size 150 with 4 bands of amplitude 0.2. *)
Definition __main__ (uniform : nat -> R) : result R :=
  let* fm := __init__ uniform 150 4 0.2 in
  let init_v := (1, 0) in
  let* '(angle, rot, (vx, vy), pts) := compute_holonomy fm circle_loop init_v 200 in
  Ok (np_degrees angle).

(** ** Binary64 *)

(** The function [f] returns NaN at NaN, as IEEE 754 and the C standard
    require of [arccos], [cos] and [sin]. *)
Definition propagates_nan (f : float -> float) : Prop := f nan = nan.

(** ** Tactics *)

(** Evaluates the array structure of a goal [Ok a = Ok b], and closes the
    equations between the cells by linear arithmetic. *)
Ltac eval_arrays :=
  cbv - [Rplus Rminus Rmult Rdiv Rinv Ropp IZR];
  repeat first
    [ reflexivity | lra | apply (f_equal Ok)
    | apply (f_equal2 cons) | apply (f_equal2 mkGamma) ].

(** Decides the comparisons of real numbers that a goal branches on, from
    the linear facts in the context. *)
Ltac case_R :=
  repeat match goal with
         | |- context [Rlt_dec ?a ?b] => destruct (Rlt_dec a b); try lra
         | |- context [Rle_dec ?a ?b] => destruct (Rle_dec a b); try lra
         end.

(** * Properties *)

(** ** The error monad and Python indexing *)

Lemma py_index_nat (len i : nat) :
  (i < len)%nat -> py_index len (Z.of_nat i) = Some i.
Proof.
  intros Hi. unfold py_index.
  destruct (Z.ltb_spec (Z.of_nat i) 0); [lia|].
  destruct (Z.leb_spec 0 (Z.of_nat i)); [|lia].
  destruct (Z.ltb_spec (Z.of_nat i) (Z.of_nat len)); [|lia].
  simpl. now rewrite Nat2Z.id.
Qed.

Lemma py_index_last (len : nat) :
  (0 < len)%nat -> py_index len (-1) = Some (len - 1)%nat.
Proof.
  intros Hlen. unfold py_index. simpl.
  destruct (Z.leb_spec 0 (-1 + Z.of_nat len)); [|lia].
  destruct (Z.ltb_spec (-1 + Z.of_nat len) (Z.of_nat len)); [|lia].
  simpl. f_equal. lia.
Qed.

Lemma py_index_out (len : nat) (i : Z) :
  (Z.of_nat len <= i)%Z -> py_index len i = None.
Proof.
  intros Hi. unfold py_index.
  destruct (Z.ltb_spec i 0); [lia|].
  destruct (Z.ltb_spec i (Z.of_nat len)); [lia|].
  now rewrite andb_false_r.
Qed.

Lemma getitem_lookup {A : Type} (l : list A) (i : nat) (a : A) :
  l !! i = Some a -> getitem l (Z.of_nat i) = Ok a.
Proof.
  intros Hl. unfold getitem.
  rewrite py_index_nat by (eapply lookup_lt_Some; eauto).
  now rewrite Hl.
Qed.

Lemma getitem_last {A : Type} (l : list A) (a : A) :
  l !! (length l - 1)%nat = Some a -> getitem l (-1) = Ok a.
Proof.
  intros Hl. unfold getitem.
  assert (length l - 1 < length l)%nat by (eapply lookup_lt_Some; eauto).
  rewrite py_index_last by lia. now rewrite Hl.
Qed.

Lemma getitem_out {A : Type} (l : list A) (i : Z) :
  (Z.of_nat (length l) <= i)%Z -> getitem l i = Raise IndexError.
Proof. intros Hi. unfold getitem. now rewrite py_index_out. Qed.

Lemma setitem_insert {A : Type} (l : list A) (i : nat) (a : A) :
  (i < length l)%nat -> setitem l (Z.of_nat i) a = Ok (<[i := a]> l).
Proof. intros Hi. unfold setitem. now rewrite py_index_nat. Qed.

Lemma setitem_0 {A : Type} (l : list A) (a : A) :
  (0 < length l)%nat -> setitem l 0 a = Ok (<[0%nat := a]> l).
Proof. apply (setitem_insert l 0%nat). Qed.

Lemma setitem_out {A : Type} (l : list A) (i : Z) (a : A) :
  (Z.of_nat (length l) <= i)%Z -> setitem l i a = Raise IndexError.
Proof. intros Hi. unfold setitem. now rewrite py_index_out. Qed.

(** A loop whose body keeps an invariant returns, in a state that
    satisfies it. *)
Lemma for_loop_invariant {St : Type} (Inv : Z -> St -> Prop)
    (body : Z -> St -> result St) (n : nat) :
  forall (start : Z) (s : St),
    Inv start s ->
    (forall i s0, (start <= i < start + Z.of_nat n)%Z -> Inv i s0 ->
       exists s1, body i s0 = Ok s1 /\ Inv (i + 1)%Z s1) ->
    exists s', for_loop n start body s = Ok s' /\ Inv (start + Z.of_nat n)%Z s'.
Proof.
  induction n as [|n IH]; intros start s Hinv Hbody.
  - exists s. split; [reflexivity|]. now replace (start + Z.of_nat 0)%Z with start by lia.
  - destruct (Hbody start s) as (s1 & Hs1 & Hinv1); [lia|assumption|].
    destruct (IH (start + 1)%Z s1 Hinv1) as (s' & Hs' & Hinv').
    { intros i s0 Hi. apply Hbody. lia. }
    exists s'. split.
    + simpl. rewrite Hs1. simpl. exact Hs'.
    + now replace (start + Z.of_nat (S n))%Z with (start + 1 + Z.of_nat n)%Z by lia.
Qed.

(** ** [np.linspace] *)

Lemma linspace_samples_length (start stop : R) (n : nat) :
  length (linspace_samples start stop n) = n.
Proof. unfold linspace_samples. now rewrite length_map, length_seq. Qed.

Lemma linspace_samples_lookup (start stop : R) (n i : nat) :
  (i < n)%nat ->
  linspace_samples start stop n !! i
  = Some (start + INR i * ((stop - start) / INR (n - 1))).
Proof.
  intros Hi. unfold linspace_samples.
  rewrite list_lookup_fmap, lookup_seq_lt by lia. reflexivity.
Qed.

Lemma np_linspace_samples (start stop : R) (num : Z) :
  (0 <= num)%Z ->
  np_linspace start stop num = Ok (linspace_samples start stop (Z.to_nat num)).
Proof.
  intros Hnum. unfold np_linspace.
  destruct (Z.ltb_spec num 0); [lia|]. f_equal.
  set (n := Z.to_nat num).
  apply list_eq. intros i.
  destruct (Nat.ltb_spec 0 (n - 1)) as [Hdiv|Hdiv].
  - destruct (Nat.ltb_spec 1 n); [|lia].
    destruct (decide (i = n - 1)%nat) as [->|Hne].
    + rewrite list_lookup_insert_eq
        by (rewrite !length_map, length_seq; lia).
      rewrite linspace_samples_lookup by lia. f_equal.
      assert (INR (n - 1) <> 0) by (apply not_0_INR; lia).
      field. assumption.
    + rewrite list_lookup_insert_ne by congruence.
      unfold linspace_samples. rewrite !list_lookup_fmap.
      destruct (seq 0 n !! i); simpl; [|reflexivity]. f_equal. ring.
  - destruct (Nat.ltb_spec 1 n); [lia|].
    unfold linspace_samples. rewrite !list_lookup_fmap.
    destruct (seq 0 n !! i) as [k|] eqn:Hk; simpl; [|reflexivity].
    apply lookup_seq in Hk. simpl in Hk. destruct Hk as [-> Hk].
    assert (i = 0)%nat as -> by lia. simpl. f_equal. ring.
Qed.

(** ** [np.argmin] and the grid sampler *)

Lemma argmin_from_first (l : list R) :
  forall (pre : list R) (best : R) (ibest : nat),
    pre !! ibest = Some best ->
    (forall j v, pre !! j = Some v -> best <= v) ->
    (forall j v, (j < ibest)%nat -> pre !! j = Some v -> best < v) ->
    first_argmin (pre ++ l) (argmin_from best ibest (length pre) l).
Proof.
  induction l as [|v l IH]; intros pre best ibest Hbest Hmin Hfirst.
  - simpl. rewrite app_nil_r. exists best. auto.
  - simpl. replace (pre ++ v :: l) with ((pre ++ [v]) ++ l)
      by (now rewrite <- app_assoc).
    replace (S (length pre)) with (length (pre ++ [v]))
      by (rewrite length_app; simpl; lia).
    destruct (Rlt_dec v best) as [Hlt|Hge].
    + apply IH.
      * rewrite lookup_app_r by lia. now rewrite Nat.sub_diag.
      * intros j w Hj. apply lookup_app_Some in Hj.
        destruct Hj as [Hj|[_ Hj]].
        -- specialize (Hmin _ _ Hj). lra.
        -- apply list_lookup_singleton_Some in Hj. destruct Hj as [_ <-]. lra.
      * intros j w Hlen Hj. rewrite lookup_app_l in Hj by lia.
        specialize (Hmin _ _ Hj). lra.
    + apply IH.
      * apply lookup_app_l_Some. exact Hbest.
      * intros j w Hj. apply lookup_app_Some in Hj.
        destruct Hj as [Hj|[_ Hj]].
        -- eauto.
        -- apply list_lookup_singleton_Some in Hj. destruct Hj as [_ <-]. lra.
      * intros j w Hlt Hj. apply lookup_lt_Some in Hbest.
        rewrite lookup_app_l in Hj by lia. eauto.
Qed.

Lemma np_argmin_first (l : list R) :
  l <> [] -> exists r, np_argmin l = Ok r /\ first_argmin l r.
Proof.
  destruct l as [|v l]; [congruence|]. intros _.
  exists (argmin_from v 0 1 l). split; [reflexivity|].
  apply (argmin_from_first l [v] v 0%nat).
  - reflexivity.
  - intros j w Hj. apply list_lookup_singleton_Some in Hj.
    destruct Hj as [_ <-]. lra.
  - intros j w Hj. lia.
Qed.

(** [np.argmin] on the distances to the axis [-2, 0, 2]: inside the grid,
    at equal distance from two samples (the first one wins), and beyond the
    last sample. *)
Example np_argmin_inside :
  np_argmin (map (fun xi => Rabs (xi - 0.7)) [-2; 0; 2]) = Ok 1%nat.
Proof.
  cbn [map np_argmin argmin_from]. unfold Rabs.
  repeat (destruct (Rcase_abs _); try lra). all: case_R; reflexivity.
Qed.

Example np_argmin_tie :
  np_argmin (map (fun xi => Rabs (xi - 1)) [-2; 0; 2]) = Ok 1%nat.
Proof.
  cbn [map np_argmin argmin_from]. unfold Rabs.
  repeat (destruct (Rcase_abs _); try lra). all: case_R; reflexivity.
Qed.

Example np_argmin_outside :
  np_argmin (map (fun xi => Rabs (xi - 5)) [-2; 0; 2]) = Ok 2%nat.
Proof.
  cbn [map np_argmin argmin_from]. unfold Rabs.
  repeat (destruct (Rcase_abs _); try lra). all: case_R; reflexivity.
Qed.

Lemma first_argmin_lt (l : list R) (r : nat) :
  first_argmin l r -> (r < length l)%nat.
Proof. intros (m & Hm & _). eapply lookup_lt_Some; eauto. Qed.

Lemma nearest_index_nearest (xs : list R) (x : R) (r : nat) :
  nearest_index xs x r ->
  exists xr, xs !! r = Some xr
    /\ forall j xj, xs !! j = Some xj -> Rabs (xr - x) <= Rabs (xj - x).
Proof.
  intros (m & Hm & Hmin & _).
  rewrite list_lookup_fmap in Hm.
  destruct (xs !! r) as [xr|] eqn:Hr; [|discriminate].
  simpl in Hm. injection Hm as <-.
  exists xr. split; [reflexivity|].
  intros j xj Hj. apply (Hmin j).
  rewrite list_lookup_fmap, Hj. reflexivity.
Qed.

(** Below the first sample the nearest index is the first one. *)
Lemma nearest_index_clamp_low (xs : list R) (x x0 : R) (r : nat) :
  increasing xs -> xs !! 0%nat = Some x0 -> x <= x0 ->
  nearest_index xs x r -> r = 0%nat.
Proof.
  intros Hinc H0 Hx (m & Hm & _ & Hfirst).
  destruct r as [|r]; [reflexivity|exfalso].
  rewrite list_lookup_fmap in Hm.
  destruct (xs !! S r) as [xr|] eqn:Hr; [|discriminate].
  simpl in Hm. injection Hm as <-.
  assert (x0 < xr) by (eapply (Hinc 0%nat (S r)); eauto; lia).
  assert (Hlt : Rabs (xr - x) < Rabs (x0 - x)).
  { apply (Hfirst 0%nat); [lia|]. rewrite list_lookup_fmap, H0. reflexivity. }
  rewrite !Rabs_pos_eq in Hlt by lra. lra.
Qed.

(** Above the last sample the nearest index is the last one. *)
Lemma nearest_index_clamp_high (xs : list R) (x xn : R) (r : nat) :
  increasing xs -> xs !! (length xs - 1)%nat = Some xn -> xn <= x ->
  nearest_index xs x r -> r = (length xs - 1)%nat.
Proof.
  intros Hinc Hn Hx (m & Hm & Hmin & _).
  rewrite list_lookup_fmap in Hm.
  destruct (xs !! r) as [xr|] eqn:Hr; [|discriminate].
  simpl in Hm. injection Hm as <-.
  assert (r < length xs)%nat by (eapply lookup_lt_Some; eauto).
  destruct (decide (r = length xs - 1)%nat) as [|Hne]; [assumption|exfalso].
  assert (xr < xn) by (eapply (Hinc r (length xs - 1)%nat); eauto; lia).
  assert (Hle : Rabs (xr - x) <= Rabs (xn - x)).
  { apply (Hmin (length xs - 1)%nat). rewrite list_lookup_fmap, Hn. reflexivity. }
  rewrite !Rabs_left1 in Hle by lra. lra.
Qed.

Lemma has_shape_lookup (a : array2) (rows cols i j : nat) :
  has_shape a rows cols -> (i < rows)%nat -> (j < cols)%nat ->
  exists row v, a !! i = Some row /\ row !! j = Some v.
Proof.
  intros [Hlen Hall] Hi Hj.
  destruct (lookup_lt_is_Some_2 a i) as [row Hrow]; [lia|].
  assert (length row = cols) as Hrowlen.
  { rewrite Forall_forall in Hall. apply Hall.
    eapply list_elem_of_lookup_2. exact Hrow. }
  destruct (lookup_lt_is_Some_2 row j) as [v Hv]; [lia|].
  eauto.
Qed.

Lemma getitem2_lookup {A : Type} (a : list (list A)) (i j : nat) row v :
  a !! i = Some row -> row !! j = Some v ->
  getitem2 a (Z.of_nat i) (Z.of_nat j) = Ok v.
Proof.
  intros Hi Hj. unfold getitem2.
  rewrite (getitem_lookup _ _ _ Hi). simpl. now apply getitem_lookup.
Qed.

(** On a well-shaped manifold the sampler returns the two connection
    values stored at the nearest index of each axis. *)
Lemma get_christoffel_nearest (self : FractalKahlerManifold) (x y : R) :
  wf_manifold self ->
  exists ix iy rowx rowy gx gy,
    np_argmin (map (fun xi => Rabs (xi - x)) self.(Self.x)) = Ok ix
    /\ np_argmin (map (fun yi => Rabs (yi - y)) self.(Self.y)) = Ok iy
    /\ nearest_index self.(Self.x) x ix
    /\ nearest_index self.(Self.y) y iy
    /\ Gamma_x_xx self.(Self.Gamma) !! iy = Some rowx /\ rowx !! ix = Some gx
    /\ Gamma_y_yy self.(Self.Gamma) !! iy = Some rowy /\ rowy !! ix = Some gy
    /\ get_christoffel self x y = Ok (mkGamma gx gy).
Proof.
  intros [Hx Hy HGx HGy].
  destruct (np_argmin_first (map (fun xi => Rabs (xi - x)) self.(Self.x)))
    as (ix & Hix & Hfx).
  { destruct (Self.x self); [congruence|discriminate]. }
  destruct (np_argmin_first (map (fun yi => Rabs (yi - y)) self.(Self.y)))
    as (iy & Hiy & Hfy).
  { destruct (Self.y self); [congruence|discriminate]. }
  pose proof (first_argmin_lt _ _ Hfx) as Hltx. rewrite length_map in Hltx.
  pose proof (first_argmin_lt _ _ Hfy) as Hlty. rewrite length_map in Hlty.
  destruct (has_shape_lookup _ _ _ iy ix HGx Hlty Hltx) as (rowx & gx & Hrx & Hgx).
  destruct (has_shape_lookup _ _ _ iy ix HGy Hlty Hltx) as (rowy & gy & Hry & Hgy).
  exists ix, iy, rowx, rowy, gx, gy.
  repeat split; try assumption.
  unfold get_christoffel. rewrite Hix, Hiy. simpl.
  rewrite (getitem2_lookup _ _ _ _ _ Hrx Hgx). simpl.
  rewrite (getitem2_lookup _ _ _ _ _ Hry Hgy). reflexivity.
Qed.

(** ** The transport integrator *)

Lemma tsample_lookup (n i : nat) :
  (i < n)%nat -> linspace_samples 0 1 n !! i = Some (tsample n i).
Proof. intros Hi. now rewrite linspace_samples_lookup. Qed.

Lemma points_lookup (curve : R -> R * R) (n i : nat) :
  (i < n)%nat ->
  map curve (linspace_samples 0 1 n) !! i = Some (curve (tsample n i)).
Proof. intros Hi. now rewrite list_lookup_fmap, tsample_lookup. Qed.

Lemma euler_rel_insert self curve n vx vy (i k : nat) (a b : R) :
  (i + 1 < k)%nat ->
  euler_rel self curve n vx vy i ->
  euler_rel self curve n (<[k := a]> vx) (<[k := b]> vy) i.
Proof.
  intros Hik (vxi & vyi & Gamma & Hx & Hy & HG & Hx1 & Hy1).
  exists vxi, vyi, Gamma.
  rewrite !list_lookup_insert_ne by lia. auto.
Qed.

(** One pass of the loop: it returns, and extends the computed prefix of
    the trajectory by one Euler step. *)
Lemma transport_step_ok self curve (n i : nat) (vx vy : list R) :
  wf_manifold self ->
  (i + 1 < n)%nat -> length vx = n -> length vy = n ->
  exists vx' vy',
    transport_step self (linspace_samples 0 1 n)
      (map curve (linspace_samples 0 1 n)) (Z.of_nat i) (vx, vy) = Ok (vx', vy')
    /\ length vx' = n /\ length vy' = n
    /\ vx' !! 0%nat = vx !! 0%nat /\ vy' !! 0%nat = vy !! 0%nat
    /\ (forall j, (j + 1 < i + 1)%nat ->
          euler_rel self curve n vx vy j -> euler_rel self curve n vx' vy' j)
    /\ euler_rel self curve n vx' vy' i.
Proof.
  intros Hwf Hi Hlx Hly.
  destruct (lookup_lt_is_Some_2 vx i) as [vxi Hvxi]; [lia|].
  destruct (lookup_lt_is_Some_2 vy i) as [vyi Hvyi]; [lia|].
  destruct (curve (tsample n i)) as [x y] eqn:Hp.
  destruct (get_christoffel_nearest self x y Hwf)
    as (ix & iy & rowx & rowy & gx & gy & _ & _ & _ & _ & _ & _ & _ & _ & HG).
  set (vel := velocity curve n i).
  exists (<[(i + 1)%nat := vxi + - gx * vxi * fst vel * tstep n i]> vx),
         (<[(i + 1)%nat := vyi + - gy * vyi * snd vel * tstep n i]> vy).
  split; [|repeat split].
  - unfold transport_step.
    replace (Z.of_nat i + 1)%Z with (Z.of_nat (i + 1)) by lia.
    rewrite (getitem_lookup _ _ _ (tsample_lookup n (i + 1) ltac:(lia))).
    cbn [bind].
    rewrite (getitem_lookup _ _ _ (tsample_lookup n i ltac:(lia))).
    cbn [bind].
    rewrite (getitem_lookup _ _ _ (points_lookup curve n i ltac:(lia))).
    cbn [bind]. rewrite Hp.
    rewrite (getitem_lookup _ _ _ (points_lookup curve n (i + 1) ltac:(lia))).
    assert (Hvel :
      (if (Z.of_nat i =? 0)%Z
       then
         let* p1 := Ok (curve (tsample n (i + 1))) in
         Ok ((fst p1 - x) / (tsample n (i + 1) - tsample n i),
             (snd p1 - y) / (tsample n (i + 1) - tsample n i))
       else
         let* p1 := Ok (curve (tsample n (i + 1))) in
         let* p0 := getitem (map curve (linspace_samples 0 1 n)) (Z.of_nat i - 1) in
         Ok ((fst p1 - fst p0) / (2 * (tsample n (i + 1) - tsample n i)),
             (snd p1 - snd p0) / (2 * (tsample n (i + 1) - tsample n i))))
      = Ok vel).
    { unfold vel, velocity, tstep. destruct i as [|i].
      - simpl (Z.of_nat 0 =? 0)%Z. cbn [bind Nat.eqb].
        rewrite Hp. reflexivity.
      - replace (Z.of_nat (S i) =? 0)%Z with false by (symmetry; apply Z.eqb_neq; lia).
        replace (Z.of_nat (S i) - 1)%Z with (Z.of_nat (S i - 1)) by lia.
        rewrite (getitem_lookup _ _ _ (points_lookup curve n (S i - 1) ltac:(lia))).
        cbn [bind Nat.eqb]. reflexivity. }
    rewrite Hvel. cbn [bind]. destruct vel as [dxdt dydt].
    rewrite HG. cbn [bind Gamma_x_xx Gamma_y_yy].
    rewrite (getitem_lookup _ _ _ Hvxi). cbn [bind].
    rewrite (getitem_lookup _ _ _ Hvyi). cbn [bind].
    rewrite setitem_insert by lia. cbn [bind].
    rewrite setitem_insert by lia. cbn [bind fst snd].
    reflexivity.
  - now rewrite length_insert.
  - now rewrite length_insert.
  - rewrite list_lookup_insert_ne by lia. reflexivity.
  - rewrite list_lookup_insert_ne by lia. reflexivity.
  - intros j Hj Hrel. apply euler_rel_insert; [lia|assumption].
  - exists vxi, vyi, (mkGamma gx gy).
    rewrite Hp. cbn [fst snd Gamma_x_xx Gamma_y_yy].
    rewrite !list_lookup_insert_eq by lia.
    rewrite !list_lookup_insert_ne by lia. auto.
Qed.

(** The integrator returns for every step count [steps >= 1], and its
    result is the Euler trajectory. *)
Lemma parallel_transport_returns self curve v0 (steps : Z) :
  wf_manifold self -> (1 <= steps)%Z ->
  exists vx vy points,
    parallel_transport self curve v0 steps = Ok ((vx, vy), points)
    /\ transport_spec self curve v0 (Z.to_nat steps) vx vy points.
Proof.
  intros Hwf Hsteps. set (n := Z.to_nat steps).
  assert (Hn : (1 <= n)%nat) by lia.
  set (vx0 := <[0%nat := fst v0]> (replicate n 0)).
  set (vy0 := <[0%nat := snd v0]> (replicate n 0)).
  pose (Inv := fun (k : Z) (s : list R * list R) =>
    length (fst s) = n /\ length (snd s) = n
    /\ fst s !! 0%nat = Some (fst v0) /\ snd s !! 0%nat = Some (snd v0)
    /\ forall j, (Z.of_nat j < k)%Z -> euler_rel self curve n (fst s) (snd s) j).
  destruct (for_loop_invariant Inv
              (transport_step self (linspace_samples 0 1 n)
                 (map curve (linspace_samples 0 1 n)))
              (n - 1) 0%Z (vx0, vy0))
    as ([vx vy] & Hloop & Hlx & Hly & Hix & Hiy & Hrel).
  { unfold Inv, vx0, vy0. cbn [fst snd].
    rewrite !length_insert, !length_replicate.
    rewrite !list_lookup_insert_eq by (rewrite length_replicate; lia).
    repeat split. intros j Hj. lia. }
  { intros k [sx sy] Hk (Hlx & Hly & Hix & Hiy & Hrel). cbn [fst snd] in *.
    rewrite <- (Z2Nat.id k) by lia.
    destruct (transport_step_ok self curve n (Z.to_nat k) sx sy Hwf)
      as (sx' & sy' & Hstep & Hlx' & Hly' & Hix' & Hiy' & Hold & Hnew);
      [lia|assumption|assumption|].
    exists (sx', sy'). split; [exact Hstep|].
    unfold Inv. cbn [fst snd]. repeat split; try congruence.
    intros j Hj.
    destruct (decide (j = Z.to_nat k)) as [->|Hne]; [exact Hnew|].
    apply Hold; [lia|]. apply Hrel. lia. }
  exists vx, vy, (map curve (linspace_samples 0 1 n)). split.
  - unfold parallel_transport.
    rewrite np_linspace_samples by lia. cbn [bind].
    unfold np_zeros. destruct (Z.ltb_spec steps 0); [lia|]. cbn [bind].
    fold n.
    rewrite !setitem_0 by (rewrite length_replicate; lia).
    cbn [bind].
    unfold for_range. replace (Z.to_nat (steps - 1)) with (n - 1)%nat by lia.
    fold vx0 vy0. rewrite Hloop. reflexivity.
  - cbn [fst snd] in *. constructor; try assumption; try reflexivity.
    intros i Hi. apply Hrel. lia.
Qed.

(** Three samples along the segment from [(0, 0)] to [(1, 0)] with the
    connection [1]: the step is [0.5], the velocity is [(1, 0)] at both
    steps, so the [x] component is halved twice and the [y] component is
    kept. *)
Example straight_line_transport :
  parallel_transport unit_connection_manifold (fun t => (t, 0)) (1, 1) 3
  = Ok (([1; 0.5; 0.25], [1; 1; 1]), [(0, 0); (0.5, 0); (1, 0)]).
Proof.
  cbv - [Rplus Rminus Rmult Rdiv Rinv Ropp IZR Rlt_dec Rabs].
  unfold Rabs.
  repeat (destruct (Rcase_abs _); try lra).
  all: case_R.
  all: repeat first
         [ reflexivity | lra | apply (f_equal Ok)
         | apply (f_equal2 pair) | apply (f_equal2 cons) ].
Qed.

(** ** Two-dimensional arrays as tables *)

Lemma map_seq_ext {A : Type} (f h : nat -> A) (n : nat) :
  (forall i, (i < n)%nat -> f i = h i) -> map f (seq 0 n) = map h (seq 0 n).
Proof.
  intros Hfh. apply map_ext_in. intros i Hi. apply in_seq in Hi. apply Hfh. lia.
Qed.

Lemma tabulate_ext (rows cols : nat) (F G : nat -> nat -> R) :
  (forall i j, (i < rows)%nat -> (j < cols)%nat -> F i j = G i j) ->
  tabulate rows cols F = tabulate rows cols G.
Proof.
  intros HFG. unfold tabulate. apply map_seq_ext. intros i Hi.
  apply map_seq_ext. intros j Hj. now apply HFG.
Qed.

Lemma tabulate_lookup (rows cols : nat) (F : nat -> nat -> R) (i : nat) :
  (i < rows)%nat -> tabulate rows cols F !! i = Some (map (F i) (seq 0 cols)).
Proof.
  intros Hi. unfold tabulate.
  rewrite list_lookup_fmap, lookup_seq_lt by lia. reflexivity.
Qed.

Lemma tabulate_cell (rows cols : nat) (F : nat -> nat -> R) (i j : nat) row :
  (j < cols)%nat -> tabulate rows cols F !! i = Some row -> row !! j = Some (F i j).
Proof.
  intros Hj Hrow.
  assert (i < rows)%nat as Hi.
  { apply lookup_lt_Some in Hrow. unfold tabulate in Hrow.
    now rewrite length_map, length_seq in Hrow. }
  rewrite tabulate_lookup in Hrow by assumption. injection Hrow as <-.
  rewrite list_lookup_fmap, lookup_seq_lt by lia. reflexivity.
Qed.

Lemma tabulate_length (rows cols : nat) (F : nat -> nat -> R) :
  length (tabulate rows cols F) = rows.
Proof. unfold tabulate. now rewrite length_map, length_seq. Qed.

Lemma has_shape_tabulate (rows cols : nat) (F : nat -> nat -> R) :
  has_shape (tabulate rows cols F) rows cols.
Proof.
  split; [apply tabulate_length|].
  apply Forall_forall. intros row Hrow.
  apply list_elem_of_In, in_map_iff in Hrow. destruct Hrow as (i & <- & _).
  now rewrite length_map, length_seq.
Qed.

Lemma map_nth_seq {A B : Type} (f : A -> B) (l : list A) (d : A) :
  map f l = map (fun i => f (nth i l d)) (seq 0 (length l)).
Proof.
  induction l as [|a l IH]; [reflexivity|].
  simpl. f_equal. rewrite <- seq_shift, map_map. exact IH.
Qed.

Lemma nth_map_seq {A : Type} (f : nat -> A) (n k : nat) (d : A) :
  (k < n)%nat -> nth k (map f (seq 0 n)) d = f k.
Proof.
  intros Hk. rewrite (nth_indep _ d (f 0%nat)) by (now rewrite length_map, length_seq).
  rewrite (map_nth f (seq 0 n) 0%nat k), seq_nth by lia. reflexivity.
Qed.

Lemma zip_with_map {A B C D : Type} (f : B -> C -> D) (a : A -> B) (b : A -> C)
    (l : list A) :
  zip_with f (map a l) (map b l) = map (fun i => f (a i) (b i)) l.
Proof. induction l as [|x l IH]; simpl; [reflexivity|now rewrite IH]. Qed.

Lemma map2d_tabulate (f : R -> R) (rows cols : nat) (F : nat -> nat -> R) :
  map2d f (tabulate rows cols F) = tabulate rows cols (fun i j => f (F i j)).
Proof.
  unfold map2d, tabulate. rewrite map_map.
  apply map_ext. intros i. now rewrite map_map.
Qed.

Lemma zip2d_tabulate (f : R -> R -> R) (rows cols : nat) (F G : nat -> nat -> R) :
  zip2d f (tabulate rows cols F) (tabulate rows cols G)
  = tabulate rows cols (fun i j => f (F i j) (G i j)).
Proof.
  unfold zip2d, tabulate. rewrite zip_with_map.
  apply map_ext. intros i. now rewrite zip_with_map.
Qed.

Lemma np_meshgrid_tabulate (x y : list R) :
  np_meshgrid x y
  = (tabulate (length y) (length x) (fun _ j => nth j x 0),
     tabulate (length y) (length x) (fun i _ => nth i y 0)).
Proof.
  unfold np_meshgrid, tabulate. f_equal.
  - rewrite (map_nth_seq (fun _ => x) y 0). apply map_ext. intros _.
    rewrite <- (map_nth_seq (fun v => v) x 0). now rewrite map_id.
  - rewrite (map_nth_seq _ y 0). apply map_ext. intros i.
    apply (map_nth_seq (fun _ => nth i y 0) x 0).
Qed.

Lemma np_zeros_like_tabulate (rows cols : nat) (F : nat -> nat -> R) :
  np_zeros_like (tabulate rows cols F) = tabulate rows cols (fun _ _ => 0).
Proof. apply (map2d_tabulate (fun _ => 0)). Qed.

(** ** [np.gradient] on tables *)

Lemma gradient_values_row (f : nat -> R) (n : nat) (h : R) :
  (2 <= n)%nat ->
  gradient_values Rminus Rdiv 0 (map f (seq 0 n)) h = map (grad_cell f n h) (seq 0 n).
Proof.
  intros Hn. unfold gradient_values. rewrite length_map, length_seq.
  apply map_seq_ext. intros i Hi. unfold grad_cell.
  destruct (i =? 0)%nat eqn:E0; [|destruct (i =? n - 1)%nat eqn:En].
  - rewrite !nth_map_seq by lia. reflexivity.
  - rewrite !nth_map_seq by lia. reflexivity.
  - apply Nat.eqb_neq in E0, En. rewrite !nth_map_seq by lia. reflexivity.
Qed.

Lemma mapM_ok {A B : Type} (f : A -> result B) (h : A -> B) (l : list A) :
  (forall a, In a l -> f a = Ok (h a)) -> mapM f l = Ok (map h l).
Proof.
  induction l as [|a l IH]; intros Hf; [reflexivity|].
  simpl. rewrite Hf by (now left). cbn [bind].
  rewrite IH by (intros b Hb; apply Hf; now right). reflexivity.
Qed.

Lemma np_gradient_axis1_tabulate (rows cols : nat) (F : nat -> nat -> R) (h : R) :
  (1 <= rows)%nat -> (2 <= cols)%nat ->
  np_gradient_axis1 (tabulate rows cols F) h
  = Ok (tabulate rows cols (fun i j => grad_cell (F i) cols h j)).
Proof.
  intros Hrows Hcols. unfold np_gradient_axis1.
  destruct (tabulate rows cols F) as [|r0 a0] eqn:Htab.
  { apply (f_equal length) in Htab. rewrite tabulate_length in Htab. simpl in Htab. lia. }
  rewrite <- Htab. clear Htab. unfold tabulate.
  rewrite (mapM_ok _ (fun row => gradient_values Rminus Rdiv 0 row h)).
  - f_equal. rewrite map_map. apply map_ext. intros i.
    now apply gradient_values_row.
  - intros row Hrow. apply in_map_iff in Hrow. destruct Hrow as (i & <- & _).
    unfold gradient_axis. rewrite length_map, length_seq.
    destruct (Nat.ltb_spec cols 2); [lia|reflexivity].
Qed.

Lemma np_gradient_axis0_tabulate (rows cols : nat) (F : nat -> nat -> R) (h : R) :
  (2 <= rows)%nat ->
  np_gradient_axis0 (tabulate rows cols F) h
  = Ok (tabulate rows cols (fun i j => grad_cell (fun k => F k j) rows h i)).
Proof.
  intros Hrows. unfold np_gradient_axis0, gradient_axis.
  rewrite tabulate_length. destruct (Nat.ltb_spec rows 2); [lia|]. f_equal.
  unfold gradient_values. rewrite tabulate_length.
  unfold tabulate at 4. apply map_seq_ext. intros i Hi.
  unfold tabulate, grad_cell.
  destruct (i =? 0)%nat eqn:E0; [|destruct (i =? rows - 1)%nat eqn:En].
  - rewrite !nth_map_seq by lia. now rewrite zip_with_map, map_map.
  - rewrite !nth_map_seq by lia. now rewrite zip_with_map, map_map.
  - apply Nat.eqb_neq in E0, En. rewrite !nth_map_seq by lia.
    now rewrite zip_with_map, map_map.
Qed.

(** ** The constructor *)

Lemma getitem_nth (l : list R) (i : nat) :
  (i < length l)%nat -> getitem l (Z.of_nat i) = Ok (nth i l 0).
Proof.
  intros Hi. destruct (lookup_lt_is_Some_2 l i Hi) as [v Hv].
  rewrite (getitem_lookup _ _ _ Hv). f_equal. symmetry.
  now apply nth_lookup_Some.
Qed.

Lemma grad_cell_zero (n : nat) (h : R) (i : nat) :
  grad_cell (fun _ => 0) n h i = 0.
Proof.
  unfold grad_cell.
  destruct (i =? 0)%nat; [|destruct (i =? n - 1)%nat]; unfold Rdiv; ring.
Qed.

Lemma compute_metric_tabulate (self : FractalKahlerManifold) (n : nat)
    (Kc : nat -> nat -> R) :
  (2 <= n)%nat ->
  length self.(Self.x) = n -> length self.(Self.y) = n ->
  self.(Self.K) = tabulate n n Kc ->
  _compute_metric_from_potential self
  = Ok (tabulate n n
          (metric_cell Kc n (spacing self.(Self.x)) (spacing self.(Self.y)))).
Proof.
  intros Hn Hx Hy HK. unfold _compute_metric_from_potential.
  rewrite (getitem_nth _ 1), (getitem_nth _ 0) by lia. cbn [bind].
  rewrite (getitem_nth _ 1), (getitem_nth _ 0) by lia. cbn [bind].
  fold (spacing self.(Self.x)). fold (spacing self.(Self.y)).
  rewrite HK.
  rewrite np_gradient_axis1_tabulate by lia. cbn [bind].
  rewrite np_gradient_axis1_tabulate by lia. cbn [bind].
  rewrite np_gradient_axis0_tabulate by lia. cbn [bind].
  rewrite np_gradient_axis0_tabulate by lia. cbn [bind].
  rewrite zip2d_tabulate, map2d_tabulate. reflexivity.
Qed.

Lemma compute_christoffel_tabulate (self : FractalKahlerManifold) (n : nat)
    (Gc : nat -> nat -> R) :
  (2 <= n)%nat ->
  length self.(Self.x) = n -> length self.(Self.y) = n ->
  self.(Self.g) = tabulate n n Gc ->
  _compute_christoffel self
  = Ok (mkGamma
          (tabulate n n (christoffel_x_cell Gc n (spacing self.(Self.x))))
          (tabulate n n (christoffel_y_cell Gc n (spacing self.(Self.y))))).
Proof.
  intros Hn Hx Hy Hg. unfold _compute_christoffel.
  rewrite (getitem_nth _ 1), (getitem_nth _ 0) by lia. cbn [bind].
  rewrite (getitem_nth _ 1), (getitem_nth _ 0) by lia. cbn [bind].
  fold (spacing self.(Self.x)). fold (spacing self.(Self.y)).
  rewrite Hg.
  rewrite np_gradient_axis1_tabulate by lia. cbn [bind].
  rewrite np_gradient_axis0_tabulate by lia. cbn [bind].
  rewrite !map2d_tabulate, !zip2d_tabulate. reflexivity.
Qed.

(** With fewer than two samples on the [x] axis, reading [self.x[1]] is an
    [IndexError]. *)
Lemma compute_metric_small (self : FractalKahlerManifold) :
  (length self.(Self.x) < 2)%nat ->
  _compute_metric_from_potential self = Raise IndexError.
Proof.
  intros Hx. unfold _compute_metric_from_potential.
  rewrite (getitem_out _ 1) by lia. reflexivity.
Qed.

Lemma compute_christoffel_small (self : FractalKahlerManifold) :
  (length self.(Self.x) < 2)%nat ->
  _compute_christoffel self = Raise IndexError.
Proof.
  intros Hx. unfold _compute_christoffel.
  rewrite (getitem_out _ 1) by lia. reflexivity.
Qed.

Section Constructor.

Variable uniform : nat -> R.

Lemma potential_bands_tabulate (self : FractalKahlerManifold) (scale : R)
    (rows cols : nat) (X Y : nat -> nat -> R) (levels : list nat) :
  self.(Self.xx) = tabulate rows cols X ->
  self.(Self.yy) = tabulate rows cols Y ->
  forall F0,
    fold_left (fun K l => potential_band uniform self scale l K) levels
      (tabulate rows cols F0)
    = tabulate rows cols (potential_cells uniform scale X Y levels F0).
Proof.
  intros Hxx Hyy. induction levels as [|l levels IH]; intros F0; [reflexivity|].
  simpl. unfold potential_band at 2. rewrite Hxx, Hyy.
  rewrite !map2d_tabulate, !zip2d_tabulate, map2d_tabulate, zip2d_tabulate.
  apply IH.
Qed.

Lemma generate_potential_tabulate (self : FractalKahlerManifold)
    (level : Z) (scale : R) (rows cols : nat) (X Y : nat -> nat -> R) :
  self.(Self.xx) = tabulate rows cols X ->
  self.(Self.yy) = tabulate rows cols Y ->
  _generate_fractal_potential uniform self level scale
  = tabulate rows cols
      (potential_cells uniform scale X Y (seq 0 (Z.to_nat level)) (fun _ _ => 0)).
Proof.
  intros Hxx Hyy. unfold _generate_fractal_potential.
  rewrite Hxx, np_zeros_like_tabulate.
  now apply potential_bands_tabulate.
Qed.

Lemma potential_cells_scale0 (X Y : nat -> nat -> R) (levels : list nat) :
  forall F0 i j, F0 i j = 0 -> potential_cells uniform 0 X Y levels F0 i j = 0.
Proof.
  induction levels as [|l levels IH]; intros F0 i j HF0; [exact HF0|].
  simpl. apply IH. rewrite HF0. ring.
Qed.

Lemma init_returns (size level : Z) (scale : R) :
  (2 <= size)%Z -> __init__ uniform size level scale = Ok (built uniform size level scale).
Proof.
  intros Hsize. unfold __init__.
  rewrite np_linspace_samples by lia. cbn [bind].
  set (n := Z.to_nat size). fold (grid n).
  assert (Hlen : length (grid n) = n) by apply linspace_samples_length.
  rewrite np_meshgrid_tabulate, Hlen.
  set (self0 := Self.mk _ _ _ _ _ _ _ _ _ _).
  rewrite (generate_potential_tabulate self0 level scale n n
             (fun _ j => nth j (grid n) 0) (fun i _ => nth i (grid n) 0))
    by reflexivity.
  fold (K_cells uniform n level scale).
  rewrite (compute_metric_tabulate _ n (K_cells uniform n level scale))
    by (try reflexivity; try assumption; lia).
  cbn [bind].
  rewrite (compute_christoffel_tabulate _ n (g_cells uniform n level scale))
    by (try reflexivity; try assumption; lia).
  reflexivity.
Qed.

Lemma init_small (size level : Z) (scale : R) :
  (0 <= size < 2)%Z -> __init__ uniform size level scale = Raise IndexError.
Proof.
  intros Hsize. unfold __init__.
  rewrite np_linspace_samples by lia. cbn [bind].
  destruct (np_meshgrid _ _) as [xx yy].
  rewrite compute_metric_small; [reflexivity|].
  cbn. rewrite linspace_samples_length. lia.
Qed.

Lemma init_negative (size level : Z) (scale : R) :
  (size < 0)%Z -> __init__ uniform size level scale = Raise ValueError.
Proof.
  intros Hsize. unfold __init__, np_linspace.
  destruct (Z.ltb_spec size 0); [reflexivity|lia].
Qed.

End Constructor.

(** ** The holonomy extractor *)

(** The extractor returns for every step count [steps >= 1]: the signed
    angle between the initial vector and the last sample of the transported
    trajectory, and the rotation matrix of that angle. *)
Lemma compute_holonomy_returns self loop v0 (steps : Z) :
  wf_manifold self -> (1 <= steps)%Z ->
  exists vx vy points vf,
    parallel_transport self loop v0 steps = Ok ((vx, vy), points)
    /\ transport_spec self loop v0 (Z.to_nat steps) vx vy points
    /\ final_vector vx vy = Some vf
    /\ compute_holonomy self loop v0 steps
       = Ok (signed_angle v0 vf, rotation_matrix (signed_angle v0 vf),
             (vx, vy), points).
Proof.
  intros Hwf Hsteps.
  destruct (parallel_transport_returns self loop v0 steps Hwf Hsteps)
    as (vx & vy & points & Hpt & Hspec).
  pose proof (ts_length_x _ _ _ _ _ _ _ Hspec) as Hlx.
  pose proof (ts_length_y _ _ _ _ _ _ _ Hspec) as Hly.
  destruct (lookup_lt_is_Some_2 vx (length vx - 1)) as [vfx Hvfx]; [lia|].
  destruct (lookup_lt_is_Some_2 vy (length vy - 1)) as [vfy Hvfy]; [lia|].
  exists vx, vy, points, (vfx, vfy).
  split; [exact Hpt|]. split; [exact Hspec|]. split.
  - unfold final_vector. now rewrite Hvfx, Hvfy.
  - unfold compute_holonomy. rewrite Hpt. cbn [bind].
    rewrite (getitem_last _ _ Hvfx). cbn [bind].
    rewrite (getitem_last _ _ Hvfy). cbn [bind].
    unfold signed_angle, unsigned_angle, clipped_cosine, cross2, rotation_matrix.
    cbn [fst snd]. reflexivity.
Qed.

Lemma np_clip_bounds (a : R) : -1 <= np_clip a (-1) 1 <= 1.
Proof.
  unfold np_clip, Rmin, Rmax.
  destruct (Rle_dec a (-1)); destruct (Rle_dec _ 1); lra.
Qed.

Lemma np_clip_inside (a : R) : -1 <= a <= 1 -> np_clip a (-1) 1 = a.
Proof.
  intros Ha. unfold np_clip, Rmin, Rmax.
  destruct (Rle_dec a (-1)); destruct (Rle_dec _ 1); lra.
Qed.

(** ** The transport integrator, in the terms of the specification *)

Lemma tsample_uniform (n i : nat) : tsample n i = uniform_time n i.
Proof. unfold tsample, uniform_time, Rdiv. ring. Qed.

Lemma tstep_uniform (n i : nat) : (2 <= n)%nat -> tstep n i = 1 / INR (n - 1).
Proof.
  intros Hn. unfold tstep. rewrite !tsample_uniform. unfold uniform_time.
  rewrite plus_INR. simpl (INR 1).
  assert (INR (n - 1) <> 0) by (apply not_0_INR; lia).
  field. assumption.
Qed.

Lemma velocity_uniform (curve : R -> R * R) (n i : nat) :
  (2 <= n)%nat -> velocity curve n i = path_velocity curve n (1 / INR (n - 1)) i.
Proof.
  intros Hn. unfold velocity, path_velocity.
  rewrite !tsample_uniform, tstep_uniform by assumption. reflexivity.
Qed.

Lemma uniform_time_range (n i : nat) :
  (2 <= n)%nat -> (i < n)%nat -> 0 <= uniform_time n i <= 1.
Proof.
  intros Hn Hi. unfold uniform_time.
  assert (0 < INR (n - 1)) by (apply lt_0_INR; lia).
  assert (0 <= INR i) by apply pos_INR.
  assert (INR i <= INR (n - 1)) by (apply le_INR; lia).
  split.
  - apply Rmult_le_pos; [assumption|]. left. now apply Rinv_0_lt_compat.
  - apply (Rmult_le_reg_r (INR (n - 1))); [assumption|].
    unfold Rdiv. rewrite Rmult_assoc, Rinv_l by lra. lra.
Qed.

(** Claim C3.  For every curve, initial vector and step count [N >= 2],
    [parallel_transport] returns [N] path points and a trajectory of [N]
    vectors.  The points are the curve at the [N] uniformly spaced
    parameter values [i / (N - 1)] of [[0, 1]].  The trajectory starts at the
    initial vector, and each next sample is the forward Euler step
    [v + dt * (- Gamma_x_xx * vx * dx/dt, - Gamma_y_yy * vy * dy/dt)] with
    [dt = 1 / (N - 1)], the connection sampled at the current point, and the
    velocity estimated by a forward difference at the first sample and a
    centered difference at every interior sample. *)
Theorem parallel_transport_forward_euler self curve v0 (steps : Z) :
  wf_manifold self -> (2 <= steps)%Z ->
  let N := Z.to_nat steps in
  let dt := 1 / INR (N - 1) in
  exists vx vy points,
    parallel_transport self curve v0 steps = Ok ((vx, vy), points)
    /\ length points = N /\ length vx = N /\ length vy = N
    /\ (forall i, (i < N)%nat ->
          points !! i = Some (curve (uniform_time N i))
          /\ 0 <= uniform_time N i <= 1
          /\ ((i + 1 < N)%nat -> uniform_time N (i + 1) - uniform_time N i = dt))
    /\ vx !! 0%nat = Some (fst v0) /\ vy !! 0%nat = Some (snd v0)
    /\ (forall i, (i + 1 < N)%nat ->
          exists vxi vyi Gamma,
            vx !! i = Some vxi /\ vy !! i = Some vyi
            /\ get_christoffel self (fst (curve (uniform_time N i)))
                 (snd (curve (uniform_time N i))) = Ok Gamma
            /\ vx !! (i + 1)%nat
               = Some (vxi + dt * (- Gamma_x_xx Gamma * vxi
                                   * fst (path_velocity curve N dt i)))
            /\ vy !! (i + 1)%nat
               = Some (vyi + dt * (- Gamma_y_yy Gamma * vyi
                                   * snd (path_velocity curve N dt i)))).
Proof.
  intros Hwf Hsteps N dt.
  destruct (parallel_transport_returns self curve v0 steps Hwf)
    as (vx & vy & points & Hpt & [Hpts Hlx Hly Hix Hiy Heuler]); [lia|].
  fold N in Hpts, Hlx, Hly, Heuler.
  assert (HN : (2 <= N)%nat) by (unfold N; lia).
  exists vx, vy, points.
  split; [exact Hpt|].
  split; [rewrite Hpts, length_map; apply linspace_samples_length|].
  split; [exact Hlx|]. split; [exact Hly|].
  split; [|split; [exact Hix|split; [exact Hiy|]]].
  - intros i Hi. split; [|split].
    + rewrite Hpts, points_lookup by assumption. now rewrite tsample_uniform.
    + now apply uniform_time_range.
    + intros Hi1. rewrite <- !tsample_uniform. now apply tstep_uniform.
  - intros i Hi.
    destruct (Heuler i Hi) as (vxi & vyi & Gamma & Hx & Hy & HG & Hx1 & Hy1).
    exists vxi, vyi, Gamma.
    rewrite tsample_uniform in HG.
    rewrite velocity_uniform, tstep_uniform in Hx1, Hy1 by assumption.
    fold dt in Hx1, Hy1.
    split; [exact Hx|]. split; [exact Hy|]. split; [exact HG|]. split.
    + rewrite Hx1. f_equal. ring.
    + rewrite Hy1. f_equal. ring.
Qed.

(** ** Homogeneity of the transport *)

(** Two transports along the same curve, the second from the initial vector
    of the first scaled by [c]: the second trajectory is the first one
    scaled by [c]. *)
Lemma transport_spec_scale self curve (v0 w0 : R * R) (c : R) (n : nat)
    (vx vy wx wy : list R) (points points' : list (R * R)) :
  transport_spec self curve v0 n vx vy points ->
  transport_spec self curve w0 n wx wy points' ->
  fst w0 = c * fst v0 -> snd w0 = c * snd v0 ->
  wx = map (Rmult c) vx /\ wy = map (Rmult c) vy /\ points' = points.
Proof.
  intros [Hp Hlx Hly Hix Hiy He] [Hp' Hlx' Hly' Hix' Hiy' He'] Hc1 Hc2.
  assert (Hall : forall i, (i < n)%nat ->
            exists a b, vx !! i = Some a /\ vy !! i = Some b
              /\ wx !! i = Some (c * a) /\ wy !! i = Some (c * b)).
  { induction i as [|i IH]; intros Hi.
    - exists (fst v0), (snd v0). rewrite Hix, Hiy, Hix', Hiy', Hc1, Hc2. auto.
    - destruct IH as (a & b & Ha & Hb & Hwa & Hwb); [lia|].
      destruct (He i) as (vxi & vyi & G & Hx & Hy & HG & Hx1 & Hy1); [lia|].
      destruct (He' i) as (wxi & wyi & G' & Hx' & Hy' & HG' & Hx1' & Hy1'); [lia|].
      rewrite HG in HG'. injection HG' as <-.
      rewrite Ha in Hx. injection Hx as <-.
      rewrite Hb in Hy. injection Hy as <-.
      rewrite Hwa in Hx'. injection Hx' as <-.
      rewrite Hwb in Hy'. injection Hy' as <-.
      replace (S i) with (i + 1)%nat by lia.
      eexists _, _. split; [exact Hx1|]. split; [exact Hy1|].
      rewrite Hx1', Hy1'. split; f_equal; ring. }
  split; [|split].
  - apply list_eq. intros i. rewrite list_lookup_fmap.
    destruct (Nat.lt_ge_cases i n) as [Hi|Hi].
    + destruct (Hall i Hi) as (a & b & Ha & _ & Hwa & _). now rewrite Ha, Hwa.
    + rewrite !lookup_ge_None_2 by lia. reflexivity.
  - apply list_eq. intros i. rewrite list_lookup_fmap.
    destruct (Nat.lt_ge_cases i n) as [Hi|Hi].
    + destruct (Hall i Hi) as (a & b & _ & Hb & _ & Hwb). now rewrite Hb, Hwb.
    + rewrite !lookup_ge_None_2 by lia. reflexivity.
  - congruence.
Qed.

Lemma map_mult_zero (l : list R) : map (Rmult 0) l = replicate (length l) 0.
Proof.
  induction l as [|a l IH]; [reflexivity|].
  simpl. rewrite IH. f_equal. ring.
Qed.

(** Claim C9, amended.  Over the real numbers, that is for a connection of
    finite numbers and in exact arithmetic, [parallel_transport] is
    homogeneous in the initial vector: for every curve, step count
    [N >= 2] and scalar [c], the transport of [(c * vx0, c * vy0)] returns
    the trajectory of [(vx0, vy0)] scaled by [c] in each component, along
    the same path points; and the transport of the zero vector returns the
    trajectory that is zero at every sample. *)
Theorem parallel_transport_homogeneous self curve (vx0 vy0 c : R) (steps : Z) :
  wf_manifold self -> (2 <= steps)%Z ->
  exists vx vy points,
    parallel_transport self curve (vx0, vy0) steps = Ok ((vx, vy), points)
    /\ parallel_transport self curve (c * vx0, c * vy0) steps
       = Ok ((map (Rmult c) vx, map (Rmult c) vy), points)
    /\ parallel_transport self curve (0, 0) steps
       = Ok ((replicate (Z.to_nat steps) 0, replicate (Z.to_nat steps) 0), points).
Proof.
  intros Hwf Hsteps.
  destruct (parallel_transport_returns self curve (vx0, vy0) steps Hwf)
    as (vx & vy & points & Hpt & Hspec); [lia|].
  destruct (parallel_transport_returns self curve (c * vx0, c * vy0) steps Hwf)
    as (wx & wy & points' & Hpt' & Hspec'); [lia|].
  destruct (parallel_transport_returns self curve (0, 0) steps Hwf)
    as (zx & zy & points'' & Hpt'' & Hspec''); [lia|].
  destruct (transport_spec_scale _ _ _ _ c _ _ _ _ _ _ _ Hspec Hspec')
    as (-> & -> & ->); [reflexivity|reflexivity|].
  destruct (transport_spec_scale _ _ _ _ 0 _ _ _ _ _ _ _ Hspec Hspec'')
    as (-> & -> & ->); [simpl; ring|simpl; ring|].
  exists vx, vy, points. split; [exact Hpt|]. split; [exact Hpt'|].
  rewrite Hpt''. rewrite !map_mult_zero.
  now rewrite (ts_length_x _ _ _ _ _ _ _ Hspec), (ts_length_y _ _ _ _ _ _ _ Hspec).
Qed.

(** ** The grid sampler *)

(** Claim C8.  For every continuous coordinate [(x, y)], [get_christoffel]
    returns the two connection values stored at one grid cell [(iy, ix)],
    with no interpolation.  The index of each axis is the [argmin] of the
    absolute differences to the samples of that axis alone, so the sample it
    selects is a nearest one.  A coordinate at or beyond an end of an
    increasing axis is not rejected: it selects the index of that end. *)
Theorem get_christoffel_nearest_neighbour self (x y : R) :
  wf_manifold self ->
  increasing self.(Self.x) -> increasing self.(Self.y) ->
  exists ix iy rowx rowy gx gy xn yn,
    get_christoffel self x y = Ok (mkGamma gx gy)
    /\ Gamma_x_xx self.(Self.Gamma) !! iy = Some rowx /\ rowx !! ix = Some gx
    /\ Gamma_y_yy self.(Self.Gamma) !! iy = Some rowy /\ rowy !! ix = Some gy
    /\ np_argmin (map (fun xi => Rabs (xi - x)) self.(Self.x)) = Ok ix
    /\ np_argmin (map (fun yi => Rabs (yi - y)) self.(Self.y)) = Ok iy
    /\ self.(Self.x) !! ix = Some xn /\ self.(Self.y) !! iy = Some yn
    /\ (forall j xj, self.(Self.x) !! j = Some xj -> Rabs (xn - x) <= Rabs (xj - x))
    /\ (forall j yj, self.(Self.y) !! j = Some yj -> Rabs (yn - y) <= Rabs (yj - y))
    /\ (forall x0, self.(Self.x) !! 0%nat = Some x0 -> x <= x0 -> ix = 0%nat)
    /\ (forall x1, self.(Self.x) !! (length self.(Self.x) - 1)%nat = Some x1 ->
          x1 <= x -> ix = (length self.(Self.x) - 1)%nat)
    /\ (forall y0, self.(Self.y) !! 0%nat = Some y0 -> y <= y0 -> iy = 0%nat)
    /\ (forall y1, self.(Self.y) !! (length self.(Self.y) - 1)%nat = Some y1 ->
          y1 <= y -> iy = (length self.(Self.y) - 1)%nat).
Proof.
  intros Hwf Hincx Hincy.
  destruct (get_christoffel_nearest self x y Hwf)
    as (ix & iy & rowx & rowy & gx & gy
        & Hax & Hay & Hnx & Hny & Hrx & Hgx & Hry & Hgy & HG).
  destruct (nearest_index_nearest _ _ _ Hnx) as (xn & Hxn & Hxmin).
  destruct (nearest_index_nearest _ _ _ Hny) as (yn & Hyn & Hymin).
  exists ix, iy, rowx, rowy, gx, gy, xn, yn.
  repeat (split; [assumption|]).
  split; [|split; [|split]].
  - intros x0 H0 Hle. exact (nearest_index_clamp_low _ x x0 ix Hincx H0 Hle Hnx).
  - intros x1 H1 Hle. exact (nearest_index_clamp_high _ x x1 ix Hincx H1 Hle Hnx).
  - intros y0 H0 Hle. exact (nearest_index_clamp_low _ y y0 iy Hincy H0 Hle Hny).
  - intros y1 H1 Hle. exact (nearest_index_clamp_high _ y y1 iy Hincy H1 Hle Hny).
Qed.

(** ** Instances *)

Lemma linspace_increasing (a b : R) (n : nat) :
  a < b -> (2 <= n)%nat -> increasing (linspace_samples a b n).
Proof.
  intros Hab Hn i j u v Hij Hi Hj.
  assert (j < n)%nat as Hjn.
  { apply lookup_lt_Some in Hj. now rewrite linspace_samples_length in Hj. }
  rewrite linspace_samples_lookup in Hi, Hj by lia.
  injection Hi as <-. injection Hj as <-.
  assert (0 < (b - a) / INR (n - 1)).
  { apply Rdiv_lt_0_compat; [lra|]. apply lt_0_INR. lia. }
  assert (INR i < INR j) by (apply lt_INR; lia).
  nra.
Qed.

(** The instance that the constructor builds is well shaped, and its axes
    are increasing. *)
Lemma built_wf (uniform : nat -> R) (size level : Z) (scale : R) :
  (2 <= size)%Z ->
  wf_manifold (built uniform size level scale)
  /\ increasing (built uniform size level scale).(Self.x)
  /\ increasing (built uniform size level scale).(Self.y).
Proof.
  intros Hsize. unfold built. cbn [Self.x Self.y].
  assert (Hlen : length (grid (Z.to_nat size)) = Z.to_nat size)
    by apply linspace_samples_length.
  split; [|split].
  - constructor; cbn [Self.x Self.y Self.Gamma Gamma_x_xx Gamma_y_yy].
    + intros E. rewrite E in Hlen. simpl in Hlen. lia.
    + intros E. rewrite E in Hlen. simpl in Hlen. lia.
    + rewrite Hlen. apply has_shape_tabulate.
    + rewrite Hlen. apply has_shape_tabulate.
  - apply linspace_increasing; [lra|lia].
  - apply linspace_increasing; [lra|lia].
Qed.

(** Every instance that the constructor returns is well shaped, with
    increasing axes. *)
Lemma init_wf (uniform : nat -> R) (size level : Z) (scale : R) self :
  __init__ uniform size level scale = Ok self ->
  wf_manifold self /\ increasing self.(Self.x) /\ increasing self.(Self.y).
Proof.
  intros Hinit.
  destruct (Z.lt_ge_cases size 0) as [Hneg|Hpos].
  { rewrite init_negative in Hinit by assumption. discriminate. }
  destruct (Z.lt_ge_cases size 2) as [Hsmall|Hbig].
  { rewrite init_small in Hinit by lia. discriminate. }
  rewrite init_returns in Hinit by assumption. injection Hinit as <-.
  now apply built_wf.
Qed.

Example sample_manifold_axes :
  np_linspace (-2) 2 3 = Ok sample_manifold.(Self.x)
  /\ np_meshgrid sample_manifold.(Self.x) sample_manifold.(Self.y)
     = (sample_manifold.(Self.xx), sample_manifold.(Self.yy)).
Proof.
  split; [|reflexivity].
  eval_arrays.
Qed.

Example sample_manifold_metric :
  _compute_metric_from_potential sample_manifold = Ok sample_manifold.(Self.g).
Proof. eval_arrays. Qed.

Example sample_manifold_connection :
  _compute_christoffel sample_manifold = Ok sample_manifold.(Self.Gamma).
Proof. eval_arrays. Qed.

Lemma sample_manifold_wf : wf_manifold sample_manifold.
Proof.
  constructor; cbn; try discriminate.
  - split; [reflexivity|]. repeat constructor.
  - split; [reflexivity|]. repeat constructor.
Qed.

Lemma sample_axis_increasing : increasing [-2; 0; 2].
Proof.
  intros i j a b Hij Hi Hj.
  destruct i as [|[|[|i]]]; destruct j as [|[|[|j]]];
    simpl in Hi, Hj; try discriminate; try lia;
    injection Hi as <-; injection Hj as <-; lra.
Qed.

(** ** Angles *)

Lemma quotient_tan (r a : R) :
  0 < r -> cos a <> 0 -> r * sin a / (r * cos a) = tan a.
Proof. intros Hr Hc. unfold tan. field. lra. Qed.

Lemma tan_shift (a : R) : cos a <> 0 -> tan (a + PI) = tan a.
Proof.
  intros Hc. unfold tan. rewrite neg_sin, neg_cos. field. assumption.
Qed.

(** [atan2] recovers the angle of a point given in polar form. *)
Lemma atan2_polar (r a : R) :
  0 < r -> - PI < a <= PI -> atan2 (r * sin a) (r * cos a) = a.
Proof.
  intros Hr [Hlo Hhi]. pose proof PI_RGT_0 as Hpi.
  destruct (Rtotal_order a (- (PI / 2))) as [Ha|[Ha|Ha]].
  - (* -pi < a < -pi/2 *)
    assert (Hc : cos a < 0).
    { rewrite <- cos_neg. apply cos_lt_0; lra. }
    assert (Hs : sin a < 0) by (apply sin_lt_0_var; lra).
    assert (r * cos a < 0) by nra. assert (r * sin a < 0) by nra.
    unfold atan2. case_R.
    rewrite quotient_tan by lra. rewrite <- tan_shift by lra.
    rewrite atan_tan by lra. ring.
  - (* a = -pi/2 *)
    subst a. rewrite cos_neg, sin_neg, cos_PI2, sin_PI2.
    unfold atan2. rewrite Rmult_0_r. case_R.
  - destruct (Rtotal_order a (PI / 2)) as [Hb|[Hb|Hb]].
    + (* -pi/2 < a < pi/2 *)
      assert (Hc : 0 < cos a) by (apply cos_gt_0; lra).
      assert (0 < r * cos a) by nra.
      unfold atan2. case_R.
      rewrite quotient_tan by lra. apply atan_tan. lra.
    + (* a = pi/2 *)
      subst a. rewrite cos_PI2, sin_PI2.
      unfold atan2. rewrite Rmult_0_r. case_R.
    + (* pi/2 < a <= pi *)
      assert (Hc : cos a < 0) by (apply cos_lt_0; lra).
      assert (Hs : 0 <= sin a) by (apply sin_ge_0; lra).
      assert (r * cos a < 0) by nra. assert (0 <= r * sin a) by nra.
      unfold atan2. case_R.
      rewrite quotient_tan by lra.
      assert (Hc' : cos (a - PI) <> 0).
      { replace a with ((a - PI) + PI) in Hc by ring. rewrite neg_cos in Hc. lra. }
      replace a with ((a - PI) + PI) at 1 by ring.
      rewrite tan_shift by assumption.
      rewrite atan_tan by lra. ring.
Qed.

Lemma angle_of_rotation_matrix (a : R) :
  - PI < a <= PI -> angle_of_rotation (rotation_matrix a) = a.
Proof.
  intros Ha. unfold angle_of_rotation, rotation_matrix. cbn [fst snd].
  rewrite <- (atan2_polar 1 a) at 3 by (lra || assumption).
  now rewrite !Rmult_1_l.
Qed.

(** ** The angle between two non-zero vectors *)

Lemma norm_pos (v : R * R) : v <> (0, 0) -> 0 < np_linalg_norm v.
Proof.
  intros Hv. unfold np_linalg_norm. apply sqrt_lt_R0.
  destruct v as [a b]. cbn [fst snd].
  destruct (Req_dec a 0) as [->|Ha]; [|nra].
  destruct (Req_dec b 0) as [->|Hb]; [congruence|nra].
Qed.

Lemma norm_sqr (v : R * R) :
  np_linalg_norm v * np_linalg_norm v = fst v * fst v + snd v * snd v.
Proof. unfold np_linalg_norm. apply sqrt_sqrt. nra. Qed.

(** Lagrange's identity, and the bounds on the cosine that follow. *)
Lemma dot_cross_norm (u v : R * R) :
  np_dot u v * np_dot u v + cross2 u v * cross2 u v
  = (np_linalg_norm u * np_linalg_norm v) * (np_linalg_norm u * np_linalg_norm v).
Proof.
  replace (np_linalg_norm u * np_linalg_norm v * (np_linalg_norm u * np_linalg_norm v))
    with ((np_linalg_norm u * np_linalg_norm u) * (np_linalg_norm v * np_linalg_norm v))
    by ring.
  rewrite !norm_sqr. unfold np_dot, cross2. ring.
Qed.

Lemma cosine_bounds (u v : R * R) :
  u <> (0, 0) -> v <> (0, 0) ->
  let c := np_dot u v / (np_linalg_norm u * np_linalg_norm v) in
  -1 <= c <= 1 /\ (cross2 u v <> 0 -> -1 < c < 1).
Proof.
  intros Hu Hv c.
  pose proof (norm_pos u Hu) as Hnu. pose proof (norm_pos v Hv) as Hnv.
  set (P := np_linalg_norm u * np_linalg_norm v) in *.
  assert (HP : 0 < P) by (unfold P; nra).
  pose proof (dot_cross_norm u v) as Hid. fold P in Hid.
  assert (Hc : c * P = np_dot u v) by (unfold c; field; lra).
  split.
  - split.
    + apply (Rmult_le_reg_r P); [assumption|]. rewrite Hc. nra.
    + apply (Rmult_le_reg_r P); [assumption|]. rewrite Hc. nra.
  - intros Hx. assert (0 < cross2 u v * cross2 u v) by nra. split.
    + apply (Rmult_lt_reg_r P); [assumption|]. rewrite Hc. nra.
    + apply (Rmult_lt_reg_r P); [assumption|]. rewrite Hc. nra.
Qed.

Lemma signed_angle_range (v0 vf : R * R) :
  v0 <> (0, 0) -> vf <> (0, 0) -> - PI < signed_angle v0 vf <= PI.
Proof.
  intros H0 Hf. pose proof PI_RGT_0 as Hpi.
  destruct (cosine_bounds v0 vf H0 Hf) as [Hc Hstrict].
  unfold signed_angle, unsigned_angle, clipped_cosine.
  rewrite np_clip_inside by exact Hc.
  destruct (Rlt_dec (cross2 v0 vf) 0) as [Hneg|Hpos].
  - destruct (acos_bound_lt _ (Hstrict ltac:(lra))). lra.
  - pose proof (acos_bound (np_dot v0 vf / (np_linalg_norm v0 * np_linalg_norm vf))).
    lra.
Qed.

(** Claim C4, amended.  Over the real numbers (in exact arithmetic, where
    nothing overflows), for valid inputs (a non-zero initial vector, a
    non-zero final vector, [steps >= 2]), the signed angle that
    [compute_holonomy] returns lies in [(-pi, pi]], and the angle read back
    from the returned rotation matrix with [atan2] is that same angle. *)
Theorem compute_holonomy_angle_roundtrip self loop v0 (steps : Z)
    (a : R) (rot : mat2 R) (vx vy : list R) (points : list (R * R)) (vf : R * R) :
  wf_manifold self -> (2 <= steps)%Z ->
  compute_holonomy self loop v0 steps = Ok (a, rot, (vx, vy), points) ->
  final_vector vx vy = Some vf ->
  v0 <> (0, 0) -> vf <> (0, 0) ->
  - PI < a <= PI /\ angle_of_rotation rot = a.
Proof.
  intros Hwf Hsteps Hch Hvf H0 Hf.
  destruct (compute_holonomy_returns self loop v0 steps Hwf)
    as (vx' & vy' & points' & vf' & _ & _ & Hvf' & Hch'); [lia|].
  rewrite Hch in Hch'. injection Hch' as -> -> -> -> ->.
  rewrite Hvf in Hvf'. injection Hvf' as <-.
  pose proof (signed_angle_range v0 vf H0 Hf) as Hrange.
  split; [exact Hrange|]. now apply angle_of_rotation_matrix.
Qed.

(** ** The rotation matrix *)

Lemma cos2_sin2 (a : R) : cos a * cos a + sin a * sin a = 1.
Proof. pose proof (sin2_cos2 a) as H. unfold Rsqr in H. lra. Qed.

Lemma rotation_matrix_orthogonal (a : R) :
  mat2_mul (mat2_transpose (rotation_matrix a)) (rotation_matrix a) = mat2_identity.
Proof.
  unfold mat2_mul, mat2_transpose, rotation_matrix, mat2_identity. cbn [fst snd].
  pose proof (cos2_sin2 a) as H.
  repeat apply (f_equal2 pair); lra.
Qed.

Lemma mat2_close_refl (tol : R) (m : mat2 R) : 0 <= tol -> mat2_close tol m m.
Proof.
  intros Htol. unfold mat2_close.
  rewrite !Rminus_diag, Rabs_R0. auto.
Qed.

(** ** A vanishing connection *)

Lemma flat_get_christoffel self (x y : R) :
  wf_manifold self -> flat_connection self ->
  get_christoffel self x y = Ok (mkGamma 0 0).
Proof.
  intros Hwf [Hfx Hfy].
  destruct (get_christoffel_nearest self x y Hwf)
    as (ix & iy & rowx & rowy & gx & gy
        & _ & _ & _ & _ & Hrx & Hgx & Hry & Hgy & HG).
  rewrite HG. f_equal. f_equal; eauto.
Qed.

(** With a vanishing connection the transported vector does not change. *)
Lemma flat_transport_constant self curve v0 (n : nat) vx vy points :
  wf_manifold self -> flat_connection self ->
  transport_spec self curve v0 n vx vy points ->
  vx = replicate n (fst v0) /\ vy = replicate n (snd v0).
Proof.
  intros Hwf Hflat [Hp Hlx Hly Hix Hiy He].
  assert (Hall : forall i, (i < n)%nat ->
            vx !! i = Some (fst v0) /\ vy !! i = Some (snd v0)).
  { induction i as [|i IH]; intros Hi; [auto|].
    destruct IH as [Ha Hb]; [lia|].
    destruct (He i) as (vxi & vyi & G & Hx & Hy & HG & Hx1 & Hy1); [lia|].
    rewrite flat_get_christoffel in HG by assumption. injection HG as <-.
    rewrite Ha in Hx. injection Hx as <-.
    rewrite Hb in Hy. injection Hy as <-.
    replace (S i) with (i + 1)%nat by lia.
    rewrite Hx1, Hy1. cbn [Gamma_x_xx Gamma_y_yy]. split; f_equal; ring. }
  split; apply list_eq; intros i;
    (destruct (Nat.lt_ge_cases i n) as [Hi|Hi];
     [ destruct (Hall i Hi) as [Ha Hb];
       rewrite lookup_replicate_2 by assumption; assumption
     | rewrite !lookup_ge_None_2 by (rewrite ?length_replicate; lia); reflexivity ]).
Qed.

(** With a vanishing connection the holonomy of a non-zero vector is
    trivial: the angle is zero and the matrix is the identity. *)
Lemma flat_holonomy_trivial self loop v0 (steps : Z) :
  wf_manifold self -> flat_connection self -> (1 <= steps)%Z ->
  v0 <> (0, 0) ->
  compute_holonomy self loop v0 steps
  = Ok (0, rotation_matrix 0,
        (replicate (Z.to_nat steps) (fst v0), replicate (Z.to_nat steps) (snd v0)),
        map loop (linspace_samples 0 1 (Z.to_nat steps))).
Proof.
  intros Hwf Hflat Hsteps H0.
  destruct (compute_holonomy_returns self loop v0 steps Hwf Hsteps)
    as (vx & vy & points & vf & _ & Hspec & Hvf & Hch).
  destruct (flat_transport_constant _ _ _ _ _ _ _ Hwf Hflat Hspec) as [-> ->].
  rewrite (ts_points _ _ _ _ _ _ _ Hspec) in Hch.
  assert (vf = v0) as ->.
  { unfold final_vector in Hvf. rewrite !length_replicate in Hvf.
    rewrite !lookup_replicate_2 in Hvf by lia.
    injection Hvf as <-. now destruct v0. }
  assert (Hangle : signed_angle v0 v0 = 0).
  { pose proof (norm_pos v0 H0) as Hn. pose proof (norm_sqr v0) as Hsq.
    unfold signed_angle, unsigned_angle, clipped_cosine.
    assert (np_dot v0 v0 / (np_linalg_norm v0 * np_linalg_norm v0) = 1) as ->.
    { unfold np_dot. rewrite <- Hsq. field. lra. }
    rewrite np_clip_inside by lra. rewrite acos_1.
    unfold cross2. case_R. }
  rewrite Hangle in Hch. exact Hch.
Qed.

Lemma sample_manifold_flat : flat_connection sample_manifold.
Proof.
  split; intros i j row v Hrow Hv; cbn in Hrow;
    destruct i as [|[|[|i]]]; simpl in Hrow; try discriminate;
    injection Hrow as <-;
    destruct j as [|[|[|j]]]; simpl in Hv; try discriminate;
    now injection Hv as <-.
Qed.

(** ** Instances of the theorems on the sample manifold

    The demonstration of the module transports [(1, 0)] around
    [circle_loop] in 200 steps. *)

Lemma unit_vector_nonzero : (1, 0) <> (0, 0).
Proof. intros E. injection E as E. lra. Qed.

(** Claim C3 on the demonstration input. *)
Lemma parallel_transport_forward_euler_witness :
  wf_manifold sample_manifold /\ (2 <= 200)%Z
  /\ exists vx vy points,
       parallel_transport sample_manifold circle_loop (1, 0) 200
       = Ok ((vx, vy), points)
       /\ length points = 200%nat /\ length vx = 200%nat /\ length vy = 200%nat
       /\ vx !! 0%nat = Some 1 /\ vy !! 0%nat = Some 0.
Proof.
  split; [exact sample_manifold_wf|]. split; [lia|].
  destruct (parallel_transport_forward_euler sample_manifold circle_loop (1, 0) 200
              sample_manifold_wf ltac:(lia))
    as (vx & vy & points & Hpt & Hlp & Hlx & Hly & _ & Hix & Hiy & _).
  exists vx, vy, points.
  replace (Z.to_nat 200) with 200%nat in * by lia. auto 10.
Defined.

(** Claim C9, amended, on the demonstration input, with the scalar [3]. *)
Lemma parallel_transport_homogeneous_witness :
  wf_manifold sample_manifold /\ (2 <= 200)%Z
  /\ exists vx vy points,
       parallel_transport sample_manifold circle_loop (1, 0) 200
       = Ok ((vx, vy), points)
       /\ parallel_transport sample_manifold circle_loop (3 * 1, 3 * 0) 200
          = Ok ((map (Rmult 3) vx, map (Rmult 3) vy), points).
Proof.
  split; [exact sample_manifold_wf|]. split; [lia|].
  destruct (parallel_transport_homogeneous sample_manifold circle_loop 1 0 3 200
              sample_manifold_wf ltac:(lia))
    as (vx & vy & points & Hpt & Hscaled & _).
  exists vx, vy, points. auto.
Defined.

(** Claim C8 at the coordinate [(5, -0.3)], to the right of the grid. *)
Lemma get_christoffel_nearest_neighbour_witness :
  wf_manifold sample_manifold
  /\ increasing sample_manifold.(Self.x) /\ increasing sample_manifold.(Self.y)
  /\ exists gx gy, get_christoffel sample_manifold 5 (-0.3) = Ok (mkGamma gx gy).
Proof.
  split; [exact sample_manifold_wf|].
  split; [exact sample_axis_increasing|]. split; [exact sample_axis_increasing|].
  destruct (get_christoffel_nearest_neighbour sample_manifold 5 (-0.3)
              sample_manifold_wf sample_axis_increasing sample_axis_increasing)
    as (ix & iy & rowx & rowy & gx & gy & xn & yn & HG & _).
  exists gx, gy. exact HG.
Defined.

(** ** Degenerate constructions: a vanishing amplitude *)

Lemma grad_cell_ext (f h : nat -> R) (n : nat) (d : R) (i : nat) :
  (forall k, f k = h k) -> grad_cell f n d i = grad_cell h n d i.
Proof. intros Hfh. unfold grad_cell. now rewrite !Hfh. Qed.

Lemma K_cells_scale0 (uniform : nat -> R) (n : nat) (level : Z) (i j : nat) :
  K_cells uniform n level 0 i j = 0.
Proof. unfold K_cells. now apply potential_cells_scale0. Qed.

Lemma g_cells_scale0 (uniform : nat -> R) (n : nat) (level : Z) (i j : nat) :
  g_cells uniform n level 0 i j = 0.
Proof.
  unfold g_cells, metric_cell.
  rewrite (grad_cell_ext _ (fun _ => 0)).
  2:{ intros c. rewrite (grad_cell_ext _ (fun _ => 0)).
      - apply grad_cell_zero.
      - intros k. apply K_cells_scale0. }
  rewrite (grad_cell_ext (fun r => grad_cell _ n _ r) (fun _ => 0)).
  2:{ intros r. rewrite (grad_cell_ext _ (fun _ => 0)).
      - apply grad_cell_zero.
      - intros k. apply K_cells_scale0. }
  rewrite !grad_cell_zero. lra.
Qed.

(** ** Step counts and sizes below two *)

Lemma parallel_transport_negative self curve v0 (steps : Z) :
  (steps < 0)%Z -> parallel_transport self curve v0 steps = Raise ValueError.
Proof.
  intros Hs. unfold parallel_transport, np_linspace.
  destruct (Z.ltb_spec steps 0); [reflexivity|lia].
Qed.

(** With no sample, the assignment [vx[0] = ...] is out of range. *)
Lemma parallel_transport_zero self curve v0 :
  parallel_transport self curve v0 0 = Raise IndexError.
Proof. reflexivity. Qed.

(** With one sample the loop body never runs: the trajectory is the initial
    vector alone, at the point [curve(0)]. *)
Lemma parallel_transport_one self curve v0 :
  parallel_transport self curve v0 1 = Ok (([fst v0], [snd v0]), [curve 0]).
Proof.
  cbv - [Rplus Rminus Rmult Rdiv Rinv Ropp IZR].
  replace (0 * (1 - 0) + 0) with 0 by ring. reflexivity.
Qed.

Lemma compute_holonomy_one self loop v0 :
  compute_holonomy self loop v0 1
  = Ok (signed_angle v0 v0, rotation_matrix (signed_angle v0 v0),
        ([fst v0], [snd v0]), [loop 0]).
Proof.
  unfold compute_holonomy. rewrite parallel_transport_one. destruct v0; reflexivity.
Qed.

(** Against claim C7: a call with [steps = 1] does not fail.  On the sample
    manifold, [parallel_transport] returns the one-sample trajectory, and
    [compute_holonomy] returns an angle and a matrix for it. *)
Lemma one_step_transport_returns :
  parallel_transport sample_manifold circle_loop (1, 0) 1
  = Ok (([1], [0]), [circle_loop 0])
  /\ compute_holonomy sample_manifold circle_loop (1, 0) 1
     = Ok (signed_angle (1, 0) (1, 0), rotation_matrix (signed_angle (1, 0) (1, 0)),
           ([1], [0]), [circle_loop 0]).
Proof.
  split.
  - apply (parallel_transport_one sample_manifold circle_loop (1, 0)).
  - apply (compute_holonomy_one sample_manifold circle_loop (1, 0)).
Qed.

(** Claim C7, amended.  The constructor with [size < 2] and the two
    transport calls with [steps < 1] fail, with the exception of the array
    operation that they run into: a [ValueError] for a negative count, an
    [IndexError] for the out-of-range index ([self.x[1]] for [size] 0 or 1,
    [vx[0]] for [steps = 0]).  A call with [steps = 1] does not fail:
    [parallel_transport] returns the initial vector as a one-sample
    trajectory, and [compute_holonomy] returns an angle and a matrix for
    it. *)
Theorem small_sizes_and_step_counts (uniform : nat -> R) (size level : Z)
    (scale : R) self curve v0 (steps : Z) :
  ((size < 0)%Z -> __init__ uniform size level scale = Raise ValueError)
  /\ ((0 <= size < 2)%Z -> __init__ uniform size level scale = Raise IndexError)
  /\ ((steps < 0)%Z ->
        parallel_transport self curve v0 steps = Raise ValueError
        /\ compute_holonomy self curve v0 steps = Raise ValueError)
  /\ (parallel_transport self curve v0 0 = Raise IndexError
      /\ compute_holonomy self curve v0 0 = Raise IndexError)
  /\ (parallel_transport self curve v0 1 = Ok (([fst v0], [snd v0]), [curve 0])
      /\ exists a rot,
           compute_holonomy self curve v0 1
           = Ok (a, rot, ([fst v0], [snd v0]), [curve 0])).
Proof.
  split; [apply init_negative|]. split; [apply init_small|].
  split; [|split].
  - intros Hs. split; [now apply parallel_transport_negative|].
    unfold compute_holonomy. now rewrite parallel_transport_negative.
  - split; reflexivity.
  - split; [apply parallel_transport_one|].
    eexists _, _. apply compute_holonomy_one.
Qed.

(** ** The polar form of a complex number *)

Lemma sqrt_one_plus_sqr_pos (t : R) : 0 < sqrt (1 + t²).
Proof. apply sqrt_lt_R0. pose proof (Rle_0_sqr t). lra. Qed.

Lemma norm_scaled (x y : R) :
  x <> 0 -> np_linalg_norm (x, y) = Rabs x * sqrt (1 + (y / x)²).
Proof.
  intros Hx. unfold np_linalg_norm. cbn [fst snd].
  pose proof (sqrt_one_plus_sqr_pos (y / x)) as Hs.
  apply sqrt_lem_1.
  - nra.
  - apply Rmult_le_pos; [apply Rabs_pos|lra].
  - replace (Rabs x * sqrt (1 + (y / x)²) * (Rabs x * sqrt (1 + (y / x)²)))
      with ((Rabs x * Rabs x) * (sqrt (1 + (y / x)²) * sqrt (1 + (y / x)²))) by ring.
    rewrite sqrt_sqrt by (pose proof (Rle_0_sqr (y / x)); lra).
    replace (Rabs x * Rabs x) with (x * x)
      by (unfold Rabs; destruct (Rcase_abs x); ring).
    unfold Rsqr. field. assumption.
Qed.

Lemma cos_shift_PI (b : R) : cos (b - PI) = - cos b.
Proof. rewrite cos_minus, cos_PI, sin_PI. ring. Qed.

Lemma sin_shift_PI (b : R) : sin (b - PI) = - sin b.
Proof. rewrite sin_minus, cos_PI, sin_PI. ring. Qed.

(** A non-zero complex number is its modulus times the unit vector of its
    angle, and the angle lies in [(-pi, pi]]. *)
Lemma polar_form (z : C) :
  z <> (0, 0) ->
  - PI < np_angle z <= PI
  /\ fst z = np_linalg_norm z * cos (np_angle z)
  /\ snd z = np_linalg_norm z * sin (np_angle z).
Proof.
  intros Hz. destruct z as [x y]. pose proof PI_RGT_0 as Hpi.
  unfold np_angle. cbn [fst snd].
  destruct (Rtotal_order x 0) as [Hx|[Hx|Hx]].
  - (* x < 0 *)
    pose proof (sqrt_one_plus_sqr_pos (y / x)) as Hs.
    pose proof (atan_bound (y / x)) as Hb.
    rewrite norm_scaled by lra. rewrite Rabs_left by assumption.
    unfold atan2. destruct (Rlt_dec 0 x); [lra|]. destruct (Rlt_dec x 0); [|lra].
    destruct (Rle_dec 0 y) as [Hy|Hy].
    + assert (atan (y / x) <= 0).
      { destruct (Req_dec y 0) as [->|Hy0].
        - unfold Rdiv. rewrite Rmult_0_l, atan_0. lra.
        - left. rewrite <- atan_0. apply atan_increasing.
          apply Ropp_lt_cancel. rewrite Ropp_0.
          replace (- (y / x)) with (y / - x) by (field; lra).
          apply Rdiv_lt_0_compat; lra. }
      split; [lra|].
      rewrite neg_cos, neg_sin, cos_atan, sin_atan. split; field; lra.
    + assert (0 < atan (y / x)).
      { rewrite <- atan_0. apply atan_increasing.
        replace (y / x) with (- y / - x) by (field; lra).
        apply Rdiv_lt_0_compat; lra. }
      split; [lra|].
      rewrite cos_shift_PI, sin_shift_PI, cos_atan, sin_atan. split; field; lra.
  - (* x = 0 *)
    subst x. assert (Hy : y <> 0) by (intros ->; congruence).
    unfold np_linalg_norm. cbn [fst snd].
    unfold atan2. destruct (Rlt_dec 0 0); [lra|].
    destruct (Rlt_dec 0 y) as [Hpos|Hneg].
    + split; [lra|]. rewrite cos_PI2, sin_PI2.
      replace (0 * 0 + y * y) with (y * y) by ring.
      rewrite sqrt_square by lra. split; ring.
    + destruct (Rlt_dec y 0); [|lra].
      split; [lra|]. rewrite cos_neg, sin_neg, cos_PI2, sin_PI2.
      replace (0 * 0 + y * y) with ((- y) * (- y)) by ring.
      rewrite sqrt_square by lra. split; ring.
  - (* 0 < x *)
    pose proof (sqrt_one_plus_sqr_pos (y / x)) as Hs.
    pose proof (atan_bound (y / x)) as Hb.
    rewrite norm_scaled by lra. rewrite Rabs_pos_eq by lra.
    unfold atan2. destruct (Rlt_dec 0 x); [|lra].
    split; [lra|].
    rewrite cos_atan, sin_atan. split; field; lra.
Qed.

(** The angle of a product of three non-zero complex numbers is the sum of
    their angles, up to a whole number of turns. *)
Lemma np_angle_product (p1 p2 p3 : C) :
  p1 <> (0, 0) -> p2 <> (0, 0) -> p3 <> (0, 0) ->
  let s := np_angle p1 + np_angle p2 + np_angle p3 in
  exists k : Z,
    (-1 <= k <= 1)%Z
    /\ np_angle (Cmult (Cmult p1 p2) p3) = s + 2 * IZR k * PI
    /\ (- PI < s <= PI -> k = 0%Z).
Proof.
  intros H1 H2 H3 s. pose proof PI_RGT_0 as Hpi.
  destruct (polar_form p1 H1) as (Ha1 & Hx1 & Hy1).
  destruct (polar_form p2 H2) as (Ha2 & Hx2 & Hy2).
  destruct (polar_form p3 H3) as (Ha3 & Hx3 & Hy3).
  pose proof (norm_pos p1 H1) as Hr1. pose proof (norm_pos p2 H2) as Hr2.
  pose proof (norm_pos p3 H3) as Hr3.
  set (r := np_linalg_norm p1 * np_linalg_norm p2 * np_linalg_norm p3).
  assert (Hr : 0 < r) by (unfold r; repeat apply Rmult_lt_0_compat; assumption).
  assert (Hprod : Cmult (Cmult p1 p2) p3 = (r * cos s, r * sin s)).
  { unfold Cmult. cbn [fst snd]. rewrite Hx1, Hy1, Hx2, Hy2, Hx3, Hy3.
    unfold s, r. repeat (rewrite cos_plus || rewrite sin_plus). f_equal; ring. }
  unfold np_angle at 1. rewrite Hprod. cbn [fst snd].
  destruct (Rlt_dec PI s) as [Hhi|Hhi]; [|destruct (Rle_dec s (- PI)) as [Hlo|Hlo]].
  - exists (-1)%Z. split; [lia|]. split; [|lra].
    replace (r * sin s) with (r * sin (s - 2 * PI))
      by (rewrite sin_minus, sin_2PI, cos_2PI; ring).
    replace (r * cos s) with (r * cos (s - 2 * PI))
      by (rewrite cos_minus, sin_2PI, cos_2PI; ring).
    rewrite atan2_polar by (unfold s in *; lra). simpl. ring.
  - exists 1%Z. split; [lia|]. split; [|lra].
    replace (r * sin s) with (r * sin (s + 2 * PI))
      by (rewrite sin_plus, sin_2PI, cos_2PI; ring).
    replace (r * cos s) with (r * cos (s + 2 * PI))
      by (rewrite cos_plus, sin_2PI, cos_2PI; ring).
    rewrite atan2_polar by (unfold s in *; lra). simpl. ring.
  - exists 0%Z. split; [lia|]. split; [|reflexivity].
    rewrite atan2_polar by lra. simpl. ring.
Qed.

Lemma np_degrees_turns (s : R) (k : Z) :
  np_degrees (s + 2 * IZR k * PI) = np_degrees s + 360 * IZR k.
Proof. unfold np_degrees. pose proof PI_RGT_0. field. lra. Qed.

Lemma np_degrees_half_turn (s : R) :
  -180 < np_degrees s <= 180 -> - PI < s <= PI.
Proof.
  unfold np_degrees. intros [Hlo Hhi]. pose proof PI_RGT_0 as Hpi.
  assert (Hd : 0 < 180 / PI) by (apply Rdiv_lt_0_compat; lra).
  assert (HdPI : 180 / PI * PI = 180) by (field; lra).
  split.
  - apply (Rmult_lt_reg_r (180 / PI)); [assumption|]. lra.
  - apply (Rmult_le_reg_r (180 / PI)); [assumption|]. lra.
Qed.

Lemma matmul_assoc (m n p : mat2 C) :
  matmul (matmul m n) p = matmul m (matmul n p).
Proof.
  destruct m as [[[a1 a2] [b1 b2]] [[c1 c2] [d1 d2]]].
  destruct n as [[[e1 e2] [f1 f2]] [[g1 g2] [h1 h2]]].
  destruct p as [[[i1 i2] [j1 j2]] [[k1 k2] [l1 l2]]].
  unfold matmul, Cplus, Cmult. cbn [fst snd].
  repeat apply (f_equal2 pair); ring.
Qed.

(** ** The composition of three loops *)

Section Depth3Properties.

Variable ComplexKahlerManifold : Type.
Variable new_ComplexKahlerManifold :
  Z -> Z -> R -> result ComplexKahlerManifold.
Variable compute_holonomy_complex :
  ComplexKahlerManifold -> (R -> C) -> C * C -> Z ->
  result (C * mat2 C * (list C * list C) * list C).

Lemma run_depth3_returns ckm phase1 phase2 phase3 M1 M2 M3
    v1 v2 v3 pts1 pts2 pts3 end1 end2 :
  depth3_run ComplexKahlerManifold new_ComplexKahlerManifold
    compute_holonomy_complex ckm phase1 phase2 phase3 M1 M2 M3 v1 v2 v3 pts1 pts2 pts3 end1 end2 ->
  run_depth3_simulation ComplexKahlerManifold new_ComplexKahlerManifold
    compute_holonomy_complex
  = Ok (depth3_results phase1 phase2 phase3 M1 M2 M3).
Proof.
  destruct v1 as [vz1 vzc1], v2 as [vz2 vzc2], v3 as [vz3 vzc3].
  destruct end1 as [z1 zc1], end2 as [z2 zc2].
  intros (Hnew & Hc1 & Hl1 & Hl1' & Hc2 & Hl2 & Hl2' & Hc3).
  cbn [fst snd] in *.
  unfold run_depth3_simulation.
  rewrite Hnew. cbn [bind]. rewrite Hc1. cbn [bind].
  rewrite Hl1. cbn [bind]. rewrite Hl1'. cbn [bind].
  rewrite Hc2. cbn [bind].
  rewrite Hl2. cbn [bind]. rewrite Hl2'. cbn [bind].
  rewrite Hc3. cbn [bind]. reflexivity.
Qed.

Lemma depth3_results_lookup phase1 phase2 phase3 M1 M2 M3 :
  let results := depth3_results phase1 phase2 phase3 M1 M2 M3 in
  results !! "loop1" = Some (mkLoopResult phase1 (np_degrees (np_angle phase1)) M1)
  /\ results !! "loop2" = Some (mkLoopResult phase2 (np_degrees (np_angle phase2)) M2)
  /\ results !! "loop3" = Some (mkLoopResult phase3 (np_degrees (np_angle phase3)) M3)
  /\ results !! "total"
     = Some (mkLoopResult (Cmult (Cmult phase1 phase2) phase3)
               (np_degrees (np_angle (Cmult (Cmult phase1 phase2) phase3)))
               (matmul (matmul M3 M2) M1)).
Proof.
  unfold depth3_results. cbv zeta.
  repeat split;
    repeat (rewrite lookup_insert_ne by discriminate);
    apply lookup_insert_eq.
Qed.

(** Claim C6, amended.  When the three loops are composed in sequence, each
    from the last transported vector of the loop before, the total phase
    factor is the product of the three phase factors and the total matrix
    is the reverse-order product [M3 * M2 * M1].  The total angle is the
    angle of the total phase factor: for non-zero phase factors it is the
    sum of the three per-loop angles brought back into [(-180, 180]] by a
    whole number [k] of turns, and it is that sum itself when the sum lies
    in [(-180, 180]]. *)
Theorem depth3_total_holonomy ckm phase1 phase2 phase3 M1 M2 M3
    v1 v2 v3 pts1 pts2 pts3 end1 end2 :
  depth3_run ComplexKahlerManifold new_ComplexKahlerManifold
    compute_holonomy_complex ckm phase1 phase2 phase3 M1 M2 M3 v1 v2 v3 pts1 pts2 pts3 end1 end2 ->
  phase1 <> (0, 0) -> phase2 <> (0, 0) -> phase3 <> (0, 0) ->
  exists results r1 r2 r3 total (k : Z),
    run_depth3_simulation ComplexKahlerManifold new_ComplexKahlerManifold
      compute_holonomy_complex = Ok results
    /\ results !! "loop1" = Some r1 /\ results !! "loop2" = Some r2
    /\ results !! "loop3" = Some r3 /\ results !! "total" = Some total
    /\ phase r1 = phase1 /\ phase r2 = phase2 /\ phase r3 = phase3
    /\ matrix r1 = M1 /\ matrix r2 = M2 /\ matrix r3 = M3
    /\ phase total = Cmult (Cmult phase1 phase2) phase3
    /\ matrix total = matmul (matmul M3 M2) M1
    /\ matrix total = matmul M3 (matmul M2 M1)
    /\ (-1 <= k <= 1)%Z
    /\ angle_degrees total
       = angle_degrees r1 + angle_degrees r2 + angle_degrees r3 + 360 * IZR k
    /\ (-180 < angle_degrees r1 + angle_degrees r2 + angle_degrees r3 <= 180 ->
        angle_degrees total
        = angle_degrees r1 + angle_degrees r2 + angle_degrees r3).
Proof.
  intros Hrun H1 H2 H3.
  destruct (depth3_results_lookup phase1 phase2 phase3 M1 M2 M3)
    as (Hl1 & Hl2 & Hl3 & Hlt).
  destruct (np_angle_product phase1 phase2 phase3 H1 H2 H3) as (k & Hk & Hangle & Hk0).
  assert (Hsum : np_degrees (np_angle phase1) + np_degrees (np_angle phase2)
                 + np_degrees (np_angle phase3)
                 = np_degrees (np_angle phase1 + np_angle phase2 + np_angle phase3)).
  { unfold np_degrees. ring. }
  eexists _, _, _, _, _, k.
  split; [exact (run_depth3_returns _ _ _ _ _ _ _ _ _ _ _ _ _ _ _ Hrun)|].
  split; [exact Hl1|]. split; [exact Hl2|]. split; [exact Hl3|].
  split; [exact Hlt|]. cbn [phase matrix angle_degrees].
  repeat (split; [reflexivity|]).
  split; [apply matmul_assoc|]. split; [exact Hk|]. split.
  - rewrite Hangle, np_degrees_turns, Hsum. reflexivity.
  - intros Hrange. rewrite Hsum in Hrange.
    rewrite Hangle, np_degrees_turns, Hsum.
    rewrite (Hk0 (np_degrees_half_turn _ Hrange)). simpl. ring.
Qed.

End Depth3Properties.

Lemma quarter_turn_run :
  depth3_run unit (fun _ _ _ => Ok tt) quarter_turn_holonomy tt
    (0, 1) (0, 1) (0, 1)
    (((0, 1), (0, 0)), ((0, 0), (0, -1)))
    (((0, 1), (0, 0)), ((0, 0), (0, -1)))
    (((0, 1), (0, 0)), ((0, 0), (0, -1)))
    ([RtoC 1], [RtoC 1]) ([RtoC 1], [RtoC 1]) ([RtoC 1], [RtoC 1])
    [] [] [] (RtoC 1, RtoC 1) (RtoC 1, RtoC 1).
Proof. repeat split. Qed.

Lemma i_nonzero : (0, 1) <> (0, 0).
Proof. intros E. injection E as E. lra. Qed.

Lemma np_angle_i : np_degrees (np_angle (0, 1)) = 90.
Proof.
  unfold np_angle, atan2. cbn [fst snd]. case_R.
  unfold np_degrees. pose proof PI_RGT_0. field. lra.
Qed.

Lemma np_angle_i_cubed :
  np_degrees (np_angle (Cmult (Cmult (0, 1) (0, 1)) (0, 1))) = -90.
Proof.
  unfold np_angle, atan2, Cmult. cbn [fst snd]. case_R.
  unfold np_degrees. pose proof PI_RGT_0. field. lra.
Qed.

(** Against claim C6: with three loops of a quarter turn each, the
    per-loop angles are 90, 90 and 90 degrees and the total angle that the
    driver returns is -90 degrees, not their sum 270. *)
Lemma depth3_total_angle_not_sum :
  exists results r1 r2 r3 total,
    run_depth3_simulation unit (fun _ _ _ => Ok tt) quarter_turn_holonomy
    = Ok results
    /\ results !! "loop1" = Some r1 /\ results !! "loop2" = Some r2
    /\ results !! "loop3" = Some r3 /\ results !! "total" = Some total
    /\ angle_degrees r1 = 90 /\ angle_degrees r2 = 90 /\ angle_degrees r3 = 90
    /\ angle_degrees total = -90
    /\ angle_degrees total
       <> angle_degrees r1 + angle_degrees r2 + angle_degrees r3.
Proof.
  destruct (depth3_results_lookup (0, 1) (0, 1) (0, 1)
              (((0, 1), (0, 0)), ((0, 0), (0, -1)))
              (((0, 1), (0, 0)), ((0, 0), (0, -1)))
              (((0, 1), (0, 0)), ((0, 0), (0, -1))))
    as (Hl1 & Hl2 & Hl3 & Hlt).
  eexists _, _, _, _, _.
  split; [exact (run_depth3_returns _ _ _ _ _ _ _ _ _ _ _ _ _ _ _ _ _ _ quarter_turn_run)|].
  split; [exact Hl1|]. split; [exact Hl2|]. split; [exact Hl3|].
  split; [exact Hlt|]. cbn [angle_degrees].
  rewrite np_angle_i, np_angle_i_cubed.
  repeat (split; [reflexivity|]). lra.
Qed.

(** Claim C6, amended, on three loops of a quarter turn each. *)
Lemma depth3_total_holonomy_witness :
  depth3_run unit (fun _ _ _ => Ok tt) quarter_turn_holonomy tt
    (0, 1) (0, 1) (0, 1)
    (((0, 1), (0, 0)), ((0, 0), (0, -1)))
    (((0, 1), (0, 0)), ((0, 0), (0, -1)))
    (((0, 1), (0, 0)), ((0, 0), (0, -1)))
    ([RtoC 1], [RtoC 1]) ([RtoC 1], [RtoC 1]) ([RtoC 1], [RtoC 1])
    [] [] [] (RtoC 1, RtoC 1) (RtoC 1, RtoC 1)
  /\ (0, 1) <> (0, 0)
  /\ exists results total,
       run_depth3_simulation unit (fun _ _ _ => Ok tt) quarter_turn_holonomy
       = Ok results
       /\ results !! "total" = Some total
       /\ phase total = Cmult (Cmult (0, 1) (0, 1)) (0, 1).
Proof.
  split; [exact quarter_turn_run|]. split; [exact i_nonzero|].
  destruct (depth3_total_holonomy unit (fun _ _ _ => Ok tt) quarter_turn_holonomy tt
              _ _ _ _ _ _ _ _ _ _ _ _ _ _ quarter_turn_run
              i_nonzero i_nonzero i_nonzero)
    as (results & r1 & r2 & r3 & total & k & Hrun & _ & _ & _ & Ht
        & _ & _ & _ & _ & _ & _ & Hp & _).
  exists results, total. auto.
Defined.

(** Claim C7, amended, at the sizes [-1] and [1] and the step counts [-1],
    [0] and [1]. *)
Lemma small_sizes_and_step_counts_witness :
  __init__ (fun _ => 0) (-1) 3 0.1 = Raise ValueError
  /\ __init__ (fun _ => 0) 1 3 0.1 = Raise IndexError
  /\ parallel_transport sample_manifold circle_loop (1, 0) (-1) = Raise ValueError
  /\ parallel_transport sample_manifold circle_loop (1, 0) 0 = Raise IndexError
  /\ compute_holonomy sample_manifold circle_loop (1, 0) 0 = Raise IndexError
  /\ parallel_transport sample_manifold circle_loop (1, 0) 1
     = Ok (([1], [0]), [circle_loop 0]).
Proof.
  destruct (small_sizes_and_step_counts (fun _ => 0) (-1) 3 0.1
              sample_manifold circle_loop (1, 0) (-1))
    as (Hneg & _ & Hsteps & [Hzero Hzero'] & [Hone _]).
  destruct (small_sizes_and_step_counts (fun _ => 0) 1 3 0.1
              sample_manifold circle_loop (1, 0) 1)
    as (_ & Hsmall & _).
  split; [apply Hneg; lia|]. split; [apply Hsmall; lia|].
  split; [apply Hsteps; lia|]. auto.
Defined.

(** * Further properties of [fractal_kahler_manifold.py] *)

(** ** The grid sampler at a grid sample *)

Lemma increasing_injective (xs : list R) (i j : nat) (a : R) :
  increasing xs -> xs !! i = Some a -> xs !! j = Some a -> i = j.
Proof.
  intros Hinc Hi Hj.
  destruct (Nat.lt_trichotomy i j) as [Hlt|[Heq|Hgt]]; [exfalso|assumption|exfalso].
  - pose proof (Hinc i j a a Hlt Hi Hj). lra.
  - pose proof (Hinc j i a a Hgt Hj Hi). lra.
Qed.

Lemma nearest_index_exact (xs : list R) (k r : nat) (xk : R) :
  increasing xs -> xs !! k = Some xk -> nearest_index xs xk r -> r = k.
Proof.
  intros Hinc Hk (m & Hm & Hmin & _).
  rewrite list_lookup_fmap in Hm.
  destruct (xs !! r) as [xr|] eqn:Hr; [|discriminate].
  simpl in Hm. injection Hm as <-.
  assert (Hle : Rabs (xr - xk) <= Rabs (xk - xk)).
  { apply (Hmin k). rewrite list_lookup_fmap, Hk. reflexivity. }
  rewrite Rminus_diag, Rabs_R0 in Hle.
  pose proof (Rabs_pos (xr - xk)) as Hpos.
  assert (Hz : xr - xk = 0).
  { destruct (Req_dec (xr - xk) 0) as [|Hne]; [assumption|].
    apply Rabs_pos_lt in Hne. lra. }
  assert (xr = xk) as -> by lra.
  exact (increasing_injective xs r k xk Hinc Hr Hk).
Qed.

(** Property X1.  At a coordinate that is itself a grid sample, [x = x[k]]
    and [y = y[l]] on increasing axes, [get_christoffel] returns the two
    connection values stored at the cell [(l, k)] of that sample. *)
Theorem get_christoffel_at_sample self (k l : nat) (xk yl : R) :
  wf_manifold self ->
  increasing self.(Self.x) -> increasing self.(Self.y) ->
  self.(Self.x) !! k = Some xk -> self.(Self.y) !! l = Some yl ->
  exists rowx rowy gx gy,
    Gamma_x_xx self.(Self.Gamma) !! l = Some rowx /\ rowx !! k = Some gx
    /\ Gamma_y_yy self.(Self.Gamma) !! l = Some rowy /\ rowy !! k = Some gy
    /\ get_christoffel self xk yl = Ok (mkGamma gx gy).
Proof.
  intros Hwf Hincx Hincy Hk Hl.
  destruct (get_christoffel_nearest self xk yl Hwf)
    as (ix & iy & rowx & rowy & gx & gy
        & _ & _ & Hnx & Hny & Hrx & Hgx & Hry & Hgy & HG).
  pose proof (nearest_index_exact _ _ _ _ Hincx Hk Hnx) as ->.
  pose proof (nearest_index_exact _ _ _ _ Hincy Hl Hny) as ->.
  exists rowx, rowy, gx, gy. auto.
Qed.

(** Property X1 at the centre [(0, 0)] of the sample manifold. *)
Lemma get_christoffel_at_sample_witness :
  wf_manifold sample_manifold
  /\ increasing sample_manifold.(Self.x) /\ increasing sample_manifold.(Self.y)
  /\ sample_manifold.(Self.x) !! 1%nat = Some 0
  /\ sample_manifold.(Self.y) !! 1%nat = Some 0
  /\ get_christoffel sample_manifold 0 0 = Ok (mkGamma 0 0).
Proof.
  split; [exact sample_manifold_wf|].
  split; [exact sample_axis_increasing|]. split; [exact sample_axis_increasing|].
  split; [reflexivity|]. split; [reflexivity|].
  destruct (get_christoffel_at_sample sample_manifold 1 1 0 0
              sample_manifold_wf sample_axis_increasing sample_axis_increasing
              eq_refl eq_refl)
    as (rowx & rowy & gx & gy & Hrx & Hgx & Hry & Hgy & HG).
  cbn in Hrx, Hry. injection Hrx as <-. injection Hry as <-.
  cbn in Hgx, Hgy. injection Hgx as <-. injection Hgy as <-.
  exact HG.
Defined.

(** ** The transport as a diagonal linear map *)

(** Two transports along the same curve, the components of the second
    initial vector being those of the first scaled by [cx] and by [cy]: each
    component of the second trajectory is that of the first, scaled. *)
Lemma transport_spec_scale_components self curve (v0 w0 : R * R) (cx cy : R)
    (n : nat) (vx vy wx wy : list R) (points points' : list (R * R)) :
  transport_spec self curve v0 n vx vy points ->
  transport_spec self curve w0 n wx wy points' ->
  fst w0 = cx * fst v0 -> snd w0 = cy * snd v0 ->
  wx = map (Rmult cx) vx /\ wy = map (Rmult cy) vy /\ points' = points.
Proof.
  intros [Hp Hlx Hly Hix Hiy He] [Hp' Hlx' Hly' Hix' Hiy' He'] Hc1 Hc2.
  assert (Hall : forall i, (i < n)%nat ->
            exists a b, vx !! i = Some a /\ vy !! i = Some b
              /\ wx !! i = Some (cx * a) /\ wy !! i = Some (cy * b)).
  { induction i as [|i IH]; intros Hi.
    - exists (fst v0), (snd v0). rewrite Hix, Hiy, Hix', Hiy', Hc1, Hc2. auto.
    - destruct IH as (a & b & Ha & Hb & Hwa & Hwb); [lia|].
      destruct (He i) as (vxi & vyi & G & Hx & Hy & HG & Hx1 & Hy1); [lia|].
      destruct (He' i) as (wxi & wyi & G' & Hx' & Hy' & HG' & Hx1' & Hy1'); [lia|].
      rewrite HG in HG'. injection HG' as <-.
      rewrite Ha in Hx. injection Hx as <-.
      rewrite Hb in Hy. injection Hy as <-.
      rewrite Hwa in Hx'. injection Hx' as <-.
      rewrite Hwb in Hy'. injection Hy' as <-.
      replace (S i) with (i + 1)%nat by lia.
      eexists _, _. split; [exact Hx1|]. split; [exact Hy1|].
      rewrite Hx1', Hy1'. split; f_equal; ring. }
  split; [|split].
  - apply list_eq. intros i. rewrite list_lookup_fmap.
    destruct (Nat.lt_ge_cases i n) as [Hi|Hi].
    + destruct (Hall i Hi) as (a & b & Ha & _ & Hwa & _). now rewrite Ha, Hwa.
    + rewrite !lookup_ge_None_2 by lia. reflexivity.
  - apply list_eq. intros i. rewrite list_lookup_fmap.
    destruct (Nat.lt_ge_cases i n) as [Hi|Hi].
    + destruct (Hall i Hi) as (a & b & _ & Hb & _ & Hwb). now rewrite Hb, Hwb.
    + rewrite !lookup_ge_None_2 by lia. reflexivity.
  - congruence.
Qed.

(** The trajectory from [(vx0, vy0)] is the trajectory from [(1, 1)] with
    its components scaled by [vx0] and by [vy0]. *)
Lemma parallel_transport_factors self curve (steps : Z) :
  wf_manifold self -> (1 <= steps)%Z ->
  exists fx fy points,
    transport_spec self curve (1, 1) (Z.to_nat steps) fx fy points
    /\ forall vx0 vy0,
         parallel_transport self curve (vx0, vy0) steps
         = Ok ((map (Rmult vx0) fx, map (Rmult vy0) fy), points).
Proof.
  intros Hwf Hsteps.
  destruct (parallel_transport_returns self curve (1, 1) steps Hwf Hsteps)
    as (fx & fy & points & _ & Hspec).
  exists fx, fy, points. split; [exact Hspec|]. intros vx0 vy0.
  destruct (parallel_transport_returns self curve (vx0, vy0) steps Hwf Hsteps)
    as (vx & vy & points' & Hpt & Hspec').
  destruct (transport_spec_scale_components _ _ _ _ vx0 vy0 _ _ _ _ _ _ _ Hspec Hspec')
    as (-> & -> & ->); [simpl; ring|simpl; ring|].
  exact Hpt.
Qed.

(** Property X2.  On a given manifold, curve and step count,
    [parallel_transport] acts on the initial vector as a diagonal linear
    map: there are two lists of factors, starting at 1 and independent of
    the initial vector, such that the trajectory from [(vx0, vy0)] is the
    first list scaled by [vx0] and the second scaled by [vy0].  So the two
    components never mix, and the trajectory of a sum of vectors is the sum
    of the trajectories. *)
Theorem parallel_transport_diagonal self curve (steps : Z) :
  wf_manifold self -> (1 <= steps)%Z ->
  exists fx fy points,
    length fx = Z.to_nat steps /\ length fy = Z.to_nat steps
    /\ fx !! 0%nat = Some 1 /\ fy !! 0%nat = Some 1
    /\ (forall vx0 vy0,
          parallel_transport self curve (vx0, vy0) steps
          = Ok ((map (Rmult vx0) fx, map (Rmult vy0) fy), points))
    /\ (forall vx0 vy0 wx0 wy0 vx vy wx wy,
          parallel_transport self curve (vx0, vy0) steps = Ok ((vx, vy), points) ->
          parallel_transport self curve (wx0, wy0) steps = Ok ((wx, wy), points) ->
          parallel_transport self curve (vx0 + wx0, vy0 + wy0) steps
          = Ok ((zip_with Rplus vx wx, zip_with Rplus vy wy), points)).
Proof.
  intros Hwf Hsteps.
  destruct (parallel_transport_factors self curve steps Hwf Hsteps)
    as (fx & fy & points & [_ Hlx Hly Hix Hiy _] & Hfac).
  exists fx, fy, points. cbn [fst snd] in *.
  repeat (split; [assumption|]).
  intros vx0 vy0 wx0 wy0 vx vy wx wy Hv Hw.
  rewrite Hfac in Hv, Hw |- *.
  injection Hv as <- <-. injection Hw as <- <-.
  rewrite !zip_with_map. do 3 f_equal; apply map_ext; intros a; ring.
Qed.

(** Property X2 on the demonstration input. *)
Lemma parallel_transport_diagonal_witness :
  wf_manifold sample_manifold /\ (1 <= 200)%Z
  /\ exists fx fy points,
       forall vx0 vy0,
         parallel_transport sample_manifold circle_loop (vx0, vy0) 200
         = Ok ((map (Rmult vx0) fx, map (Rmult vy0) fy), points).
Proof.
  split; [exact sample_manifold_wf|]. split; [lia|].
  destruct (parallel_transport_diagonal sample_manifold circle_loop 200
              sample_manifold_wf ltac:(lia))
    as (fx & fy & points & _ & _ & _ & _ & Hfac & _).
  exists fx, fy, points. exact Hfac.
Defined.

(** ** Transport along an axis-parallel line *)

Lemma unit_connection_wf : wf_manifold unit_connection_manifold.
Proof.
  constructor; cbn; try discriminate.
  - split; [reflexivity|]. repeat constructor.
  - split; [reflexivity|]. repeat constructor.
Qed.

Lemma velocity_stationary_x (curve : R -> R * R) (n i : nat) :
  (forall t, fst (curve t) = fst (curve 0)) -> fst (velocity curve n i) = 0.
Proof.
  intros Hc. unfold velocity.
  destruct (i =? 0)%nat; cbn [fst];
    rewrite (Hc (tsample n _)), (Hc (tsample n _)); unfold Rdiv; ring.
Qed.

Lemma velocity_stationary_y (curve : R -> R * R) (n i : nat) :
  (forall t, snd (curve t) = snd (curve 0)) -> snd (velocity curve n i) = 0.
Proof.
  intros Hc. unfold velocity.
  destruct (i =? 0)%nat; cbn [snd];
    rewrite (Hc (tsample n _)), (Hc (tsample n _)); unfold Rdiv; ring.
Qed.

(** A list of length [n] that starts at [a] and whose every sample is
    followed by the same value is [a] repeated. *)
Lemma constant_list (l : list R) (n : nat) (a : R) :
  length l = n -> l !! 0%nat = Some a ->
  (forall i v, (i + 1 < n)%nat -> l !! i = Some v -> l !! (i + 1)%nat = Some v) ->
  l = replicate n a.
Proof.
  intros Hlen H0 Hstep.
  assert (Hall : forall i, (i < n)%nat -> l !! i = Some a).
  { induction i as [|i IH]; intros Hi; [assumption|].
    replace (S i) with (i + 1)%nat by lia. apply Hstep; [lia|]. apply IH. lia. }
  apply list_eq. intros i.
  destruct (Nat.lt_ge_cases i n) as [Hi|Hi].
  - rewrite lookup_replicate_2 by assumption. now apply Hall.
  - rewrite !lookup_ge_None_2 by (rewrite ?length_replicate; lia). reflexivity.
Qed.

(** Property X3.  Over the real numbers, that is for a connection of
    finite numbers: along a curve whose [x] coordinate does not change (a
    vertical line), [parallel_transport] keeps the [x] component of the
    vector at its initial value at every sample, whatever these numbers
    are; and along a curve whose [y] coordinate does not change it keeps
    the [y] component.  (With a NaN in a connection cell the product
    [-gamma * v * 0] of the code is NaN, and the component is lost.) *)
Theorem parallel_transport_stationary_coordinate self curve (vx0 vy0 : R)
    (steps : Z) :
  wf_manifold self -> (1 <= steps)%Z ->
  exists vx vy points,
    parallel_transport self curve (vx0, vy0) steps = Ok ((vx, vy), points)
    /\ ((forall t, fst (curve t) = fst (curve 0)) ->
        vx = replicate (Z.to_nat steps) vx0)
    /\ ((forall t, snd (curve t) = snd (curve 0)) ->
        vy = replicate (Z.to_nat steps) vy0).
Proof.
  intros Hwf Hsteps.
  destruct (parallel_transport_returns self curve (vx0, vy0) steps Hwf Hsteps)
    as (vx & vy & points & Hpt & [Hp Hlx Hly Hix Hiy He]).
  exists vx, vy, points. split; [exact Hpt|]. cbn [fst snd] in *.
  split; intros Hc.
  - apply constant_list; [assumption|assumption|].
    intros i v Hi Hv.
    destruct (He i Hi) as (vxi & vyi & G & Hx & _ & _ & Hx1 & _).
    rewrite Hv in Hx. injection Hx as <-.
    rewrite Hx1, velocity_stationary_x by assumption. f_equal. ring.
  - apply constant_list; [assumption|assumption|].
    intros i v Hi Hv.
    destruct (He i Hi) as (vxi & vyi & G & _ & Hy & _ & _ & Hy1).
    rewrite Hv in Hy. injection Hy as <-.
    rewrite Hy1, velocity_stationary_y by assumption. f_equal. ring.
Qed.

(** Property X3 along the vertical segment from [(0, 0)] to [(0, 1)], with
    the connection [1]. *)
Lemma parallel_transport_stationary_coordinate_witness :
  wf_manifold unit_connection_manifold /\ (1 <= 3)%Z
  /\ exists vx vy points,
       parallel_transport unit_connection_manifold (fun t => (0, t)) (1, 1) 3
       = Ok ((vx, vy), points)
       /\ vx = [1; 1; 1].
Proof.
  split; [exact unit_connection_wf|]. split; [lia|].
  destruct (parallel_transport_stationary_coordinate unit_connection_manifold
              (fun t => (0, t)) 1 1 3 unit_connection_wf ltac:(lia))
    as (vx & vy & points & Hpt & Hx & _).
  exists vx, vy, points. split; [exact Hpt|]. apply Hx. reflexivity.
Defined.

(** ** A vanishing connection *)

(** Property X4.  Over the real numbers (finite values, exact
    arithmetic): on a manifold whose two connection arrays are zero at
    every cell, [parallel_transport] returns the initial vector at every
    sample, and [compute_holonomy] of a non-zero vector returns the angle
    [0] and the identity matrix, for every loop and step count
    [steps >= 1].  (In
    binary64 the quotient of the dot product by the product of the norms
    is [1] only up to rounding, and the angle is zero up to rounding.) *)
Theorem vanishing_connection_holonomy self loop v0 (steps : Z) :
  wf_manifold self -> flat_connection self -> (1 <= steps)%Z ->
  v0 <> (0, 0) ->
  let n := Z.to_nat steps in
  parallel_transport self loop v0 steps
  = Ok ((replicate n (fst v0), replicate n (snd v0)),
        map loop (linspace_samples 0 1 n))
  /\ compute_holonomy self loop v0 steps
     = Ok (0, mat2_identity, (replicate n (fst v0), replicate n (snd v0)),
           map loop (linspace_samples 0 1 n)).
Proof.
  intros Hwf Hflat Hsteps H0 n. split.
  - destruct (parallel_transport_returns self loop v0 steps Hwf Hsteps)
      as (vx & vy & points & Hpt & Hspec).
    destruct (flat_transport_constant _ _ _ _ _ _ _ Hwf Hflat Hspec) as [-> ->].
    rewrite (ts_points _ _ _ _ _ _ _ Hspec) in Hpt. exact Hpt.
  - rewrite (flat_holonomy_trivial self loop v0 steps Hwf Hflat Hsteps H0).
    unfold rotation_matrix, mat2_identity. rewrite cos_0, sin_0, Ropp_0.
    reflexivity.
Qed.

(** Property X4 on the demonstration input. *)
Lemma vanishing_connection_holonomy_witness :
  wf_manifold sample_manifold /\ flat_connection sample_manifold
  /\ (1 <= 200)%Z /\ (1, 0) <> (0, 0)
  /\ compute_holonomy sample_manifold circle_loop (1, 0) 200
     = Ok (0, mat2_identity, (replicate 200 1, replicate 200 0),
           map circle_loop (linspace_samples 0 1 200)).
Proof.
  split; [exact sample_manifold_wf|]. split; [exact sample_manifold_flat|].
  split; [lia|]. split; [exact unit_vector_nonzero|].
  exact (proj2 (vanishing_connection_holonomy sample_manifold circle_loop (1, 0) 200
                  sample_manifold_wf sample_manifold_flat ltac:(lia)
                  unit_vector_nonzero)).
Defined.

(** ** The rotation of the holonomy *)

(** The cosine and the sine of the signed angle between two non-zero
    vectors are their dot product and their cross product over the product
    of their norms. *)
Lemma signed_angle_cos_sin (v0 vf : R * R) :
  v0 <> (0, 0) -> vf <> (0, 0) ->
  cos (signed_angle v0 vf)
  = np_dot v0 vf / (np_linalg_norm v0 * np_linalg_norm vf)
  /\ sin (signed_angle v0 vf)
     = cross2 v0 vf / (np_linalg_norm v0 * np_linalg_norm vf).
Proof.
  intros H0 Hf.
  destruct (cosine_bounds v0 vf H0 Hf) as [Hc _].
  pose proof (norm_pos v0 H0) as Hn0. pose proof (norm_pos vf Hf) as Hnf.
  pose proof (dot_cross_norm v0 vf) as Hid.
  set (P := np_linalg_norm v0 * np_linalg_norm vf) in *.
  assert (HP : 0 < P) by (unfold P; nra).
  set (c := np_dot v0 vf / P) in *.
  assert (Hsin : sin (acos c) = Rabs (cross2 v0 vf) / P).
  { rewrite sin_acos by exact Hc.
    apply sqrt_lem_1.
    - unfold Rsqr. nra.
    - apply Rmult_le_pos; [apply Rabs_pos|]. left. now apply Rinv_0_lt_compat.
    - replace (Rabs (cross2 v0 vf) / P * (Rabs (cross2 v0 vf) / P))
        with ((Rabs (cross2 v0 vf) * Rabs (cross2 v0 vf)) / (P * P))
        by (field; lra).
      replace (Rabs (cross2 v0 vf) * Rabs (cross2 v0 vf))
        with (cross2 v0 vf * cross2 v0 vf)
        by (unfold Rabs; destruct (Rcase_abs _); ring).
      replace (cross2 v0 vf * cross2 v0 vf)
        with (P * P - np_dot v0 vf * np_dot v0 vf) by lra.
      unfold c, Rsqr. field. lra. }
  unfold signed_angle, unsigned_angle, clipped_cosine. fold P. fold c.
  rewrite np_clip_inside by exact Hc.
  destruct (Rlt_dec (cross2 v0 vf) 0) as [Hneg|Hpos].
  - rewrite cos_neg, sin_neg, cos_acos, Hsin by exact Hc.
    split; [reflexivity|]. rewrite Rabs_left by assumption. field. lra.
  - rewrite cos_acos, Hsin by exact Hc.
    split; [reflexivity|]. rewrite Rabs_right by lra. reflexivity.
Qed.

(** Property X5.  For a non-zero initial vector [v0] whose transported
    final vector [vf] is non-zero, the matrix [R] that [compute_holonomy]
    returns rotates the direction of [v0] onto the direction of [vf]:
    [|vf| * (R v0) = |v0| * vf].  The cosine and the sine of the returned
    angle are [(v0 . vf) / (|v0| |vf|)] and [(v0 x vf) / (|v0| |vf|)]. *)
Theorem compute_holonomy_rotates_initial_to_final self loop v0 (steps : Z)
    (a : R) (rot : mat2 R) (vx vy : list R) (points : list (R * R)) (vf : R * R) :
  wf_manifold self -> (1 <= steps)%Z ->
  compute_holonomy self loop v0 steps = Ok (a, rot, (vx, vy), points) ->
  final_vector vx vy = Some vf ->
  v0 <> (0, 0) -> vf <> (0, 0) ->
  cos a = np_dot v0 vf / (np_linalg_norm v0 * np_linalg_norm vf)
  /\ sin a = cross2 v0 vf / (np_linalg_norm v0 * np_linalg_norm vf)
  /\ np_linalg_norm vf * fst (mat2_apply rot v0) = np_linalg_norm v0 * fst vf
  /\ np_linalg_norm vf * snd (mat2_apply rot v0) = np_linalg_norm v0 * snd vf.
Proof.
  intros Hwf Hsteps Hch Hvf H0 Hf.
  destruct (compute_holonomy_returns self loop v0 steps Hwf Hsteps)
    as (vx' & vy' & points' & vf' & _ & _ & Hvf' & Hch').
  rewrite Hch in Hch'. injection Hch' as -> -> -> -> ->.
  rewrite Hvf in Hvf'. injection Hvf' as <-.
  destruct (signed_angle_cos_sin v0 vf H0 Hf) as [Hcos Hsin].
  pose proof (norm_pos v0 H0) as Hn0. pose proof (norm_pos vf Hf) as Hnf.
  pose proof (norm_sqr v0) as Hsq.
  split; [exact Hcos|]. split; [exact Hsin|].
  unfold mat2_apply, rotation_matrix. cbn [fst snd].
  rewrite Hcos, Hsin. unfold np_dot, cross2.
  destruct v0 as [x0 y0], vf as [xf yf]. cbn [fst snd] in *.
  set (n0 := np_linalg_norm (x0, y0)) in *.
  set (nf := np_linalg_norm (xf, yf)) in *.
  split.
  - replace (nf * ((x0 * xf + y0 * yf) / (n0 * nf) * x0
                   + - ((x0 * yf - y0 * xf) / (n0 * nf)) * y0))
      with ((x0 * x0 + y0 * y0) * xf / n0) by (field; lra).
    rewrite <- Hsq. field. lra.
  - replace (nf * ((x0 * yf - y0 * xf) / (n0 * nf) * x0
                   + (x0 * xf + y0 * yf) / (n0 * nf) * y0))
      with ((x0 * x0 + y0 * y0) * yf / n0) by (field; lra).
    rewrite <- Hsq. field. lra.
Qed.

(** The holonomy of the vector [(1, 1)] along the segment from [(0, 0)] to
    [(1, 0)] with the connection [1] and three samples: the final vector is
    [(0.25, 1)]. *)
Lemma straight_line_holonomy :
  compute_holonomy unit_connection_manifold (fun t => (t, 0)) (1, 1) 3
  = Ok (signed_angle (1, 1) (0.25, 1),
        rotation_matrix (signed_angle (1, 1) (0.25, 1)),
        ([1; 0.5; 0.25], [1; 1; 1]), [(0, 0); (0.5, 0); (1, 0)]).
Proof.
  destruct (compute_holonomy_returns unit_connection_manifold (fun t => (t, 0))
              (1, 1) 3 unit_connection_wf ltac:(lia))
    as (vx & vy & points & vf & Hpt & _ & Hvf & Hch).
  rewrite straight_line_transport in Hpt. injection Hpt as <- <- <-.
  cbn in Hvf. injection Hvf as <-. exact Hch.
Qed.

Lemma diagonal_vector_nonzero : (1, 1) <> (0, 0).
Proof. intros E. injection E as E _. lra. Qed.

Lemma quarter_vector_nonzero : (0.25, 1) <> (0, 0).
Proof. intros E. injection E as _ E. lra. Qed.

(** Property X5 on the straight-line transport with the connection [1]. *)
Lemma compute_holonomy_rotates_initial_to_final_witness :
  wf_manifold unit_connection_manifold /\ (1 <= 3)%Z
  /\ compute_holonomy unit_connection_manifold (fun t => (t, 0)) (1, 1) 3
     = Ok (signed_angle (1, 1) (0.25, 1),
           rotation_matrix (signed_angle (1, 1) (0.25, 1)),
           ([1; 0.5; 0.25], [1; 1; 1]), [(0, 0); (0.5, 0); (1, 0)])
  /\ final_vector [1; 0.5; 0.25] [1; 1; 1] = Some (0.25, 1)
  /\ (1, 1) <> (0, 0) /\ (0.25, 1) <> (0, 0)
  /\ np_linalg_norm (0.25, 1)
     * fst (mat2_apply (rotation_matrix (signed_angle (1, 1) (0.25, 1))) (1, 1))
     = np_linalg_norm (1, 1) * 0.25.
Proof.
  split; [exact unit_connection_wf|]. split; [lia|].
  split; [exact straight_line_holonomy|]. split; [reflexivity|].
  split; [exact diagonal_vector_nonzero|]. split; [exact quarter_vector_nonzero|].
  exact (proj1 (proj2 (proj2
           (compute_holonomy_rotates_initial_to_final unit_connection_manifold
              (fun t => (t, 0)) (1, 1) 3 _ _ _ _ _ (0.25, 1)
              unit_connection_wf ltac:(lia) straight_line_holonomy eq_refl
              diagonal_vector_nonzero quarter_vector_nonzero)))).
Defined.

(** ** The holonomy angle and the scale of the vector *)

Lemma norm_scale (c : R) (v : R * R) :
  np_linalg_norm (c * fst v, c * snd v) = Rabs c * np_linalg_norm v.
Proof.
  unfold np_linalg_norm. cbn [fst snd].
  replace (c * fst v * (c * fst v) + c * snd v * (c * snd v))
    with (Rsqr c * (fst v * fst v + snd v * snd v)) by (unfold Rsqr; ring).
  rewrite sqrt_mult; [|apply Rle_0_sqr|nra].
  now rewrite sqrt_Rsqr_abs.
Qed.

(** The signed angle between two non-zero vectors does not change when
    both are scaled by the same non-zero factor. *)
Lemma signed_angle_scale (c : R) (v0 vf : R * R) :
  c <> 0 -> v0 <> (0, 0) -> vf <> (0, 0) ->
  signed_angle (c * fst v0, c * snd v0) (c * fst vf, c * snd vf)
  = signed_angle v0 vf.
Proof.
  intros Hc H0 Hf.
  pose proof (norm_pos v0 H0) as Hn0. pose proof (norm_pos vf Hf) as Hnf.
  pose proof (Rabs_pos_lt c Hc) as Hk.
  assert (Hkk : Rabs c * Rabs c = c * c)
    by (unfold Rabs; destruct (Rcase_abs c); ring).
  assert (Hcc : 0 < c * c) by nra.
  unfold signed_angle, unsigned_angle, clipped_cosine.
  rewrite !norm_scale.
  assert (Hdot : np_dot (c * fst v0, c * snd v0) (c * fst vf, c * snd vf)
                 / (Rabs c * np_linalg_norm v0 * (Rabs c * np_linalg_norm vf))
                 = np_dot v0 vf / (np_linalg_norm v0 * np_linalg_norm vf)).
  { unfold np_dot. cbn [fst snd].
    replace (c * fst v0 * (c * fst vf) + c * snd v0 * (c * snd vf))
      with (Rabs c * Rabs c * (fst v0 * fst vf + snd v0 * snd vf))
      by (rewrite Hkk; ring).
    field. lra. }
  rewrite Hdot.
  assert (Hcross : cross2 (c * fst v0, c * snd v0) (c * fst vf, c * snd vf)
                   = c * c * cross2 v0 vf)
    by (unfold cross2; cbn [fst snd]; ring).
  rewrite Hcross.
  destruct (Rlt_dec (c * c * cross2 v0 vf) 0) as [H1|H1];
    destruct (Rlt_dec (cross2 v0 vf) 0) as [H2|H2]; try reflexivity; exfalso; nra.
Qed.

Lemma final_vector_scale (c : R) (vx vy : list R) (vf : R * R) :
  final_vector vx vy = Some vf ->
  final_vector (map (Rmult c) vx) (map (Rmult c) vy)
  = Some (c * fst vf, c * snd vf).
Proof.
  unfold final_vector. rewrite !length_map, !list_lookup_fmap.
  destruct (vx !! _) as [a|]; [|discriminate].
  destruct (vy !! _) as [b|]; [|discriminate].
  intros [= <-]. reflexivity.
Qed.

(** Property X6.  The holonomy does not depend on the length of the
    initial vector: when the initial vector and its transported final
    vector are non-zero, [compute_holonomy] of the initial vector scaled by
    a factor [c <> 0] (negative factors included) returns the same angle
    and the same matrix, with the trajectory scaled by [c]. *)
Theorem compute_holonomy_scale_invariant self loop (vx0 vy0 c : R) (steps : Z)
    (a : R) (rot : mat2 R) (vx vy : list R) (points : list (R * R)) (vf : R * R) :
  wf_manifold self -> (1 <= steps)%Z -> c <> 0 ->
  compute_holonomy self loop (vx0, vy0) steps = Ok (a, rot, (vx, vy), points) ->
  final_vector vx vy = Some vf ->
  (vx0, vy0) <> (0, 0) -> vf <> (0, 0) ->
  compute_holonomy self loop (c * vx0, c * vy0) steps
  = Ok (a, rot, (map (Rmult c) vx, map (Rmult c) vy), points).
Proof.
  intros Hwf Hsteps Hc Hch Hvf H0 Hf.
  destruct (compute_holonomy_returns self loop (vx0, vy0) steps Hwf Hsteps)
    as (vx1 & vy1 & points1 & vf1 & _ & Hspec & Hvf1 & Hch1).
  rewrite Hch in Hch1. injection Hch1 as -> -> -> -> ->.
  rewrite Hvf in Hvf1. injection Hvf1 as <-.
  destruct (compute_holonomy_returns self loop (c * vx0, c * vy0) steps Hwf Hsteps)
    as (vx2 & vy2 & points2 & vf2 & _ & Hspec2 & Hvf2 & Hch2).
  destruct (transport_spec_scale_components _ _ _ _ c c _ _ _ _ _ _ _ Hspec Hspec2)
    as (-> & -> & ->); [reflexivity|reflexivity|].
  rewrite (final_vector_scale c _ _ _ Hvf) in Hvf2. injection Hvf2 as <-.
  rewrite Hch2.
  pose proof (signed_angle_scale c (vx0, vy0) vf Hc H0 Hf) as Hangle.
  cbn [fst snd] in Hangle. now rewrite Hangle.
Qed.

(** Property X6 on the straight-line transport with the connection [1],
    for the factor [-2]. *)
Lemma compute_holonomy_scale_invariant_witness :
  wf_manifold unit_connection_manifold /\ (1 <= 3)%Z /\ -2 <> 0
  /\ final_vector [1; 0.5; 0.25] [1; 1; 1] = Some (0.25, 1)
  /\ (1, 1) <> (0, 0) /\ (0.25, 1) <> (0, 0)
  /\ compute_holonomy unit_connection_manifold (fun t => (t, 0))
       (-2 * 1, -2 * 1) 3
     = Ok (signed_angle (1, 1) (0.25, 1),
           rotation_matrix (signed_angle (1, 1) (0.25, 1)),
           (map (Rmult (-2)) [1; 0.5; 0.25], map (Rmult (-2)) [1; 1; 1]),
           [(0, 0); (0.5, 0); (1, 0)]).
Proof.
  split; [exact unit_connection_wf|]. split; [lia|]. split; [lra|].
  split; [reflexivity|].
  split; [exact diagonal_vector_nonzero|]. split; [exact quarter_vector_nonzero|].
  exact (compute_holonomy_scale_invariant unit_connection_manifold
           (fun t => (t, 0)) 1 1 (-2) 3 _ _ _ _ _ (0.25, 1)
           unit_connection_wf ltac:(lia) ltac:(lra) straight_line_holonomy eq_refl
           diagonal_vector_nonzero quarter_vector_nonzero).
Defined.

(** ** An initial vector along an axis *)

(** Two non-zero vectors with a vanishing cross product: the signed angle
    is [0] when they point the same way and [pi] when they point opposite
    ways. *)
Lemma signed_angle_parallel (v0 vf : R * R) :
  cross2 v0 vf = 0 ->
  (0 < np_dot v0 vf -> signed_angle v0 vf = 0)
  /\ (np_dot v0 vf < 0 -> signed_angle v0 vf = PI).
Proof.
  intros Hx.
  pose proof (dot_cross_norm v0 vf) as Hid. rewrite Hx in Hid.
  assert (Hn0 : 0 <= np_linalg_norm v0) by apply sqrt_pos.
  assert (Hnf : 0 <= np_linalg_norm vf) by apply sqrt_pos.
  set (P := np_linalg_norm v0 * np_linalg_norm vf) in *.
  assert (HP : 0 <= P) by (unfold P; nra).
  unfold signed_angle, unsigned_angle, clipped_cosine. fold P. rewrite Hx.
  destruct (Rlt_dec 0 0) as [H|_]; [lra|].
  split; intros Hd.
  - assert (np_dot v0 vf = P) as -> by nra.
    replace (P / P) with 1 by (field; nra).
    rewrite np_clip_inside by lra. apply acos_1.
  - assert (np_dot v0 vf = - P) as Hdp by nra. rewrite Hdp.
    replace (- P / P) with (- (1)) by (field; nra).
    replace (np_clip (- (1)) (-1) 1) with (- (1)) by (rewrite np_clip_inside; lra).
    rewrite acos_opp, acos_1. ring.
Qed.

(** The transport of a vector along a coordinate axis: the component that
    starts at zero stays zero, so the cross product of the initial and the
    final vector vanishes. *)
Lemma axis_vector_transport self loop v0 (steps : Z) :
  wf_manifold self -> (1 <= steps)%Z ->
  fst v0 = 0 \/ snd v0 = 0 ->
  exists vx vy points vf,
    compute_holonomy self loop v0 steps
    = Ok (signed_angle v0 vf, rotation_matrix (signed_angle v0 vf),
          (vx, vy), points)
    /\ final_vector vx vy = Some vf
    /\ length vx = Z.to_nat steps /\ length vy = Z.to_nat steps
    /\ (fst v0 = 0 -> vx = replicate (Z.to_nat steps) 0)
    /\ (snd v0 = 0 -> vy = replicate (Z.to_nat steps) 0)
    /\ cross2 v0 vf = 0.
Proof.
  intros Hwf Hsteps Haxis. destruct v0 as [vx0 vy0]. cbn [fst snd] in *.
  destruct (parallel_transport_factors self loop steps Hwf Hsteps)
    as (fx & fy & points & [_ Hlx Hly _ _ _] & Hfac).
  destruct (compute_holonomy_returns self loop (vx0, vy0) steps Hwf Hsteps)
    as (vx & vy & points' & vf & Hpt & _ & Hvf & Hch).
  rewrite Hfac in Hpt. injection Hpt as <- <- <-.
  exists (map (Rmult vx0) fx), (map (Rmult vy0) fy), points, vf.
  split; [exact Hch|]. split; [exact Hvf|].
  split; [now rewrite length_map|]. split; [now rewrite length_map|].
  split; [|split].
  - intros ->. now rewrite map_mult_zero, Hlx.
  - intros ->. now rewrite map_mult_zero, Hly.
  - unfold final_vector in Hvf. rewrite !length_map, !list_lookup_fmap in Hvf.
    destruct (fx !! _) as [a|]; [|discriminate].
    destruct (fy !! _) as [b|]; [|discriminate].
    injection Hvf as <-. unfold cross2. cbn [fst snd].
    destruct Haxis as [-> | ->]; ring.
Qed.

Lemma rotation_matrix_0 : rotation_matrix 0 = mat2_identity.
Proof.
  unfold rotation_matrix, mat2_identity. now rewrite cos_0, sin_0, Ropp_0.
Qed.

Lemma rotation_matrix_PI : rotation_matrix PI = ((-1, 0), (0, -1)).
Proof.
  unfold rotation_matrix. rewrite cos_PI, sin_PI, Ropp_0.
  repeat apply (f_equal2 pair); lra.
Qed.

(** Property X7.  Over the real numbers, for a connection of finite
    numbers: for an initial vector along a coordinate axis (one of its two
    components is zero, as in the demonstration of the module, which
    transports [(1, 0)]), the component that starts at zero stays zero and
    the cross product with the final vector vanishes; when the dot product
    of the initial and the final vector is positive [compute_holonomy]
    returns the angle [0] with the identity matrix, and when it is negative
    the angle [pi] with minus the identity.  Nothing is stated for a dot
    product of zero, that is for a zero initial or final vector. *)
Theorem compute_holonomy_axis_aligned self loop v0 (steps : Z) :
  wf_manifold self -> (1 <= steps)%Z ->
  fst v0 = 0 \/ snd v0 = 0 ->
  exists vx vy points vf a rot,
    compute_holonomy self loop v0 steps = Ok (a, rot, (vx, vy), points)
    /\ final_vector vx vy = Some vf
    /\ (fst v0 = 0 -> vx = replicate (Z.to_nat steps) 0)
    /\ (snd v0 = 0 -> vy = replicate (Z.to_nat steps) 0)
    /\ cross2 v0 vf = 0
    /\ (0 < np_dot v0 vf -> a = 0 /\ rot = mat2_identity)
    /\ (np_dot v0 vf < 0 -> a = PI /\ rot = ((-1, 0), (0, -1))).
Proof.
  intros Hwf Hsteps Haxis.
  destruct (axis_vector_transport self loop v0 steps Hwf Hsteps Haxis)
    as (vx & vy & points & vf & Hch & Hvf & _ & _ & Hzx & Hzy & Hcross).
  destruct (signed_angle_parallel v0 vf Hcross) as [Hsame Hopp].
  eexists vx, vy, points, vf, _, _.
  split; [exact Hch|]. split; [exact Hvf|].
  split; [exact Hzx|]. split; [exact Hzy|]. split; [exact Hcross|].
  split; intros Hd.
  - rewrite (Hsame Hd). split; [reflexivity|apply rotation_matrix_0].
  - rewrite (Hopp Hd). split; [reflexivity|apply rotation_matrix_PI].
Qed.

(** Property X7 on the demonstration input. *)
Lemma compute_holonomy_axis_aligned_witness :
  wf_manifold unit_connection_manifold /\ (1 <= 200)%Z
  /\ (fst (1, 0) = 0 \/ snd (1, 0) = 0)
  /\ exists vx points vf a rot,
       compute_holonomy unit_connection_manifold circle_loop (1, 0) 200
       = Ok (a, rot, (vx, replicate 200 0), points)
       /\ cross2 (1, 0) vf = 0.
Proof.
  split; [exact unit_connection_wf|]. split; [lia|].
  split; [right; reflexivity|].
  destruct (compute_holonomy_axis_aligned unit_connection_manifold circle_loop
              (1, 0) 200 unit_connection_wf ltac:(lia) (or_intror eq_refl))
    as (vx & vy & points & vf & a & rot & Hch & _ & _ & Hy & Hcross & _).
  rewrite (Hy eq_refl) in Hch.
  exists vx, points, vf, a, rot. split; [exact Hch|exact Hcross].
Defined.

(** ** What the constructor establishes *)

Lemma init_inversion (uniform : nat -> R) (size level : Z) (scale : R) self :
  __init__ uniform size level scale = Ok self ->
  (2 <= size)%Z /\ self = built uniform size level scale.
Proof.
  intros Hinit.
  destruct (Z.lt_ge_cases size 0) as [Hneg|Hpos].
  { rewrite init_negative in Hinit by assumption. discriminate. }
  destruct (Z.lt_ge_cases size 2) as [Hsmall|Hbig].
  { rewrite init_small in Hinit by lia. discriminate. }
  rewrite init_returns in Hinit by assumption. injection Hinit as <-.
  split; [assumption|reflexivity].
Qed.

Lemma grid_lookup (n i : nat) :
  (i < n)%nat -> grid n !! i = Some (-2 + 4 * uniform_time n i).
Proof.
  intros Hi. unfold grid. rewrite linspace_samples_lookup by assumption.
  f_equal. unfold uniform_time, Rdiv. ring.
Qed.

Lemma grid_nth (n i : nat) :
  (i < n)%nat -> grid n !! i = Some (nth i (grid n) 0).
Proof.
  intros Hi.
  destruct (lookup_lt_is_Some_2 (grid n) i) as [v Hv].
  { unfold grid. now rewrite linspace_samples_length. }
  rewrite Hv. f_equal. symmetry. now apply nth_lookup_Some.
Qed.

(** Property X8.  The constructor returns only for [size >= 2], and the
    instance it returns stores its three arguments and two equal coordinate
    axes of [size] samples each: the first sample is [-2], the last is [2],
    and, over the real numbers (in exact arithmetic), consecutive samples
    are [4 / (size - 1)] apart, so the axis is strictly increasing and
    every sample lies in [[-2, 2]].  (In binary64 the gaps are equal only
    up to rounding.) *)
Theorem init_axes (uniform : nat -> R) (size level : Z) (scale : R) self :
  __init__ uniform size level scale = Ok self ->
  let n := Z.to_nat size in
  (2 <= size)%Z
  /\ self.(Self.size) = size /\ self.(Self.fractal_level) = level
  /\ self.(Self.scale) = scale
  /\ self.(Self.y) = self.(Self.x) /\ length self.(Self.x) = n
  /\ self.(Self.x) !! 0%nat = Some (-2)
  /\ self.(Self.x) !! (n - 1)%nat = Some 2
  /\ (forall i a b,
        self.(Self.x) !! i = Some a -> self.(Self.x) !! (i + 1)%nat = Some b ->
        b - a = 4 / INR (n - 1))
  /\ (forall i a, self.(Self.x) !! i = Some a -> -2 <= a <= 2)
  /\ increasing self.(Self.x).
Proof.
  intros Hinit n.
  destruct (init_inversion _ _ _ _ _ Hinit) as [Hsize ->].
  unfold built. fold n. cbn [Self.size Self.fractal_level Self.scale Self.x Self.y].
  assert (Hn : (2 <= n)%nat) by (unfold n; lia).
  assert (Hlen : length (grid n) = n) by apply linspace_samples_length.
  assert (Hd : 0 < INR (n - 1)) by (apply lt_0_INR; lia).
  repeat (split; [assumption || reflexivity|]).
  split; [|split; [|split; [|split]]].
  - rewrite grid_lookup by lia. f_equal. unfold uniform_time. simpl INR.
    unfold Rdiv. ring.
  - rewrite grid_lookup by lia. f_equal. unfold uniform_time. field. lra.
  - intros i a b Ha Hb.
    assert (i + 1 < n)%nat as Hi by (apply lookup_lt_Some in Hb; lia).
    rewrite grid_lookup in Ha, Hb by lia.
    injection Ha as <-. injection Hb as <-.
    unfold uniform_time. rewrite plus_INR. simpl (INR 1). field. lra.
  - intros i a Ha.
    assert (i < n)%nat as Hi by (apply lookup_lt_Some in Ha; lia).
    rewrite grid_lookup in Ha by lia. injection Ha as <-.
    pose proof (uniform_time_range n i Hn Hi). lra.
  - apply linspace_increasing; [lra|assumption].
Qed.

(** Property X8 for the grid of three samples. *)
Lemma init_axes_witness :
  __init__ (fun _ => 0) 3 1 0.1 = Ok (built (fun _ => 0) 3 1 0.1)
  /\ (built (fun _ => 0) 3 1 0.1).(Self.x) !! 2%nat = Some 2.
Proof.
  split; [exact (init_returns (fun _ => 0) 3 1 0.1 ltac:(lia))|].
  destruct (init_axes (fun _ => 0) 3 1 0.1 _
              (init_returns (fun _ => 0) 3 1 0.1 ltac:(lia)))
    as (_ & _ & _ & _ & _ & _ & _ & Hlast & _).
  exact Hlast.
Defined.

(** Property X9.  In the instance that the constructor returns, the mesh,
    the potential, the metric and the two connection arrays all have
    [size] rows of [size] cells; the mesh [xx] repeats the [x] axis in
    every row ([xx[i][j] = x[j]]) and the mesh [yy] repeats the [y] axis in
    every column ([yy[i][j] = y[i]]). *)
Theorem init_shapes (uniform : nat -> R) (size level : Z) (scale : R) self :
  __init__ uniform size level scale = Ok self ->
  let n := Z.to_nat size in
  has_shape self.(Self.xx) n n /\ has_shape self.(Self.yy) n n
  /\ has_shape self.(Self.K) n n /\ has_shape self.(Self.g) n n
  /\ has_shape (Gamma_x_xx self.(Self.Gamma)) n n
  /\ has_shape (Gamma_y_yy self.(Self.Gamma)) n n
  /\ (forall i j row v,
        self.(Self.xx) !! i = Some row -> row !! j = Some v ->
        self.(Self.x) !! j = Some v)
  /\ (forall i j row v,
        self.(Self.yy) !! i = Some row -> row !! j = Some v ->
        self.(Self.y) !! i = Some v).
Proof.
  intros Hinit n.
  destruct (init_inversion _ _ _ _ _ Hinit) as [Hsize ->].
  unfold built. fold n.
  cbn [Self.x Self.y Self.xx Self.yy Self.K Self.g Self.Gamma Gamma_x_xx Gamma_y_yy].
  repeat (split; [apply has_shape_tabulate|]).
  assert (Hrow : forall F i (row : list R),
            tabulate n n F !! i = Some row -> (i < n)%nat /\ length row = n).
  { intros F i row Hr.
    assert (i < n)%nat as Hi.
    { apply lookup_lt_Some in Hr. now rewrite tabulate_length in Hr. }
    rewrite tabulate_lookup in Hr by assumption. injection Hr as <-.
    now rewrite length_map, length_seq. }
  split; intros i j row v Hr Hv.
  - destruct (Hrow _ _ _ Hr) as [Hi Hl].
    assert (j < n)%nat as Hj by (apply lookup_lt_Some in Hv; lia).
    rewrite (tabulate_cell _ _ _ _ _ _ Hj Hr) in Hv. injection Hv as <-.
    now apply grid_nth.
  - destruct (Hrow _ _ _ Hr) as [Hi Hl].
    assert (j < n)%nat as Hj by (apply lookup_lt_Some in Hv; lia).
    rewrite (tabulate_cell _ _ _ _ _ _ Hj Hr) in Hv. injection Hv as <-.
    now apply grid_nth.
Qed.

(** Property X9 for the grid of three samples. *)
Lemma init_shapes_witness :
  __init__ (fun _ => 0) 3 1 0.1 = Ok (built (fun _ => 0) 3 1 0.1)
  /\ has_shape (built (fun _ => 0) 3 1 0.1).(Self.g) 3 3.
Proof.
  split; [exact (init_returns (fun _ => 0) 3 1 0.1 ltac:(lia))|].
  destruct (init_shapes (fun _ => 0) 3 1 0.1 _
              (init_returns (fun _ => 0) 3 1 0.1 ltac:(lia)))
    as (_ & _ & _ & Hg & _).
  exact Hg.
Defined.

(** Property X10.  Every instance that the constructor returns can be
    transported on: for every curve (inside the grid or not), every initial
    vector and every step count [steps >= 1], [parallel_transport] and
    [compute_holonomy] raise nothing, and the two trajectories and the path
    have [steps] samples each. *)
Theorem init_then_holonomy (uniform : nat -> R) (size level : Z) (scale : R)
    self loop v0 (steps : Z) :
  __init__ uniform size level scale = Ok self -> (1 <= steps)%Z ->
  exists a rot vx vy points,
    parallel_transport self loop v0 steps = Ok ((vx, vy), points)
    /\ compute_holonomy self loop v0 steps = Ok (a, rot, (vx, vy), points)
    /\ length vx = Z.to_nat steps /\ length vy = Z.to_nat steps
    /\ length points = Z.to_nat steps.
Proof.
  intros Hinit Hsteps.
  destruct (init_wf _ _ _ _ _ Hinit) as [Hwf _].
  destruct (compute_holonomy_returns self loop v0 steps Hwf Hsteps)
    as (vx & vy & points & vf & Hpt & [Hp Hlx Hly _ _ _] & _ & Hch).
  eexists _, _, vx, vy, points.
  split; [exact Hpt|]. split; [exact Hch|].
  split; [exact Hlx|]. split; [exact Hly|].
  rewrite Hp. now rewrite length_map, linspace_samples_length.
Qed.

(** Property X10 on the demonstration loop. *)
Lemma init_then_holonomy_witness :
  __init__ (fun _ => 0) 3 1 0.1 = Ok (built (fun _ => 0) 3 1 0.1)
  /\ (1 <= 200)%Z
  /\ exists a rot vx vy points,
       compute_holonomy (built (fun _ => 0) 3 1 0.1) circle_loop (1, 0) 200
       = Ok (a, rot, (vx, vy), points).
Proof.
  split; [exact (init_returns (fun _ => 0) 3 1 0.1 ltac:(lia))|].
  split; [lia|].
  destruct (init_then_holonomy (fun _ => 0) 3 1 0.1 _ circle_loop (1, 0) 200
              (init_returns (fun _ => 0) 3 1 0.1 ltac:(lia)) ltac:(lia))
    as (a & rot & vx & vy & points & _ & Hch & _).
  exists a, rot, vx, vy, points. exact Hch.
Defined.

(** ** The potential *)

Lemma potential_cells_app (uniform : nat -> R) (scale : R)
    (X Y : nat -> nat -> R) (l1 l2 : list nat) (F0 : nat -> nat -> R) :
  potential_cells uniform scale X Y (l1 ++ l2) F0
  = potential_cells uniform scale X Y l2 (potential_cells uniform scale X Y l1 F0).
Proof. unfold potential_cells. apply fold_left_app. Qed.

Lemma potential_cells_sum (uniform : nat -> R) (scale : R)
    (X Y : nat -> nat -> R) (levels i j : nat) :
  potential_cells uniform scale X Y (seq 0 levels) (fun _ _ => 0) i j
  = potential_sum uniform scale levels (X i j) (Y i j).
Proof.
  induction levels as [|l IH]; [reflexivity|].
  rewrite seq_S, potential_cells_app. simpl. unfold potential_cells at 1.
  simpl. fold (potential_cells uniform scale X Y (seq 0 l) (fun _ _ => 0)).
  rewrite IH. reflexivity.
Qed.

Lemma band_weight_range (l : nat) : 0 < band_weight l <= 1.
Proof.
  unfold band_weight.
  assert (Hb : 1 <= IZR (2 ^ Z.of_nat l)).
  { apply IZR_le. pose proof (Z.pow_pos_nonneg 2 (Z.of_nat l)). lia. }
  assert (Hp : 1 <= Rpower (IZR (2 ^ Z.of_nat l)) 1.2).
  { unfold Rpower.
    assert (0 <= ln (IZR (2 ^ Z.of_nat l))).
    { rewrite <- ln_1. destruct Hb as [Hlt|<-]; [|lra].
      left. apply ln_increasing; lra. }
    assert (Ht : 0 <= 1.2 * ln (IZR (2 ^ Z.of_nat l))) by nra.
    destruct Ht as [Ht|<-]; [|rewrite exp_0; lra].
    pose proof (exp_ineq1 _ (Rgt_not_eq _ _ Ht)). lra. }
  split.
  - apply Rdiv_lt_0_compat; lra.
  - apply (Rmult_le_reg_r (Rpower (IZR (2 ^ Z.of_nat l)) 1.2)); [lra|].
    unfold Rdiv. rewrite Rmult_assoc, Rinv_l by lra. lra.
Qed.

Lemma potential_sum_bound (uniform : nat -> R) (scale : R) (levels : nat)
    (x y : R) :
  Rabs (potential_sum uniform scale levels x y) <= 2 * Rabs scale * INR levels.
Proof.
  induction levels as [|l IH].
  - simpl. rewrite Rabs_R0. lra.
  - rewrite S_INR. cbn [potential_sum].
    eapply Rle_trans; [apply Rabs_triang|].
    assert (Hterm : Rabs (scale * band_weight l
                          * (sin (IZR (2 ^ Z.of_nat l) * x + uniform l)
                             + cos (IZR (2 ^ Z.of_nat l) * y + uniform l)))
                    <= 2 * Rabs scale).
    { rewrite !Rabs_mult.
      pose proof (band_weight_range l) as [Hw0 Hw1].
      rewrite (Rabs_right (band_weight l)) by lra.
      pose proof (SIN_bound (IZR (2 ^ Z.of_nat l) * x + uniform l)) as Hs.
      pose proof (COS_bound (IZR (2 ^ Z.of_nat l) * y + uniform l)) as Hc.
      assert (Rabs (sin (IZR (2 ^ Z.of_nat l) * x + uniform l)
                    + cos (IZR (2 ^ Z.of_nat l) * y + uniform l)) <= 2)
        by (apply Rabs_le; lra).
      pose proof (Rabs_pos scale) as Ha.
      pose proof (Rabs_pos (sin (IZR (2 ^ Z.of_nat l) * x + uniform l)
                            + cos (IZR (2 ^ Z.of_nat l) * y + uniform l))) as Hs0.
      assert (Haw : 0 <= Rabs scale * band_weight l <= Rabs scale) by nra.
      rewrite (Rmult_comm 2 (Rabs scale)).
      apply Rmult_le_compat; lra. }
    lra.
Qed.

Lemma potential_sum_scale (uniform : nat -> R) (c scale : R) (levels : nat)
    (x y : R) :
  potential_sum uniform (c * scale) levels x y
  = c * potential_sum uniform scale levels x y.
Proof.
  induction levels as [|l IH]; simpl; [ring|]. rewrite IH. ring.
Qed.

Lemma K_cells_sum (uniform : nat -> R) (n : nat) (level : Z) (scale : R)
    (i j : nat) :
  K_cells uniform n level scale i j
  = potential_sum uniform scale (Z.to_nat level)
      (nth j (grid n) 0) (nth i (grid n) 0).
Proof. unfold K_cells. apply potential_cells_sum. Qed.

(** Property X11.  In the instance that the constructor returns, the cell
    [K[i][j]] of the potential is the sum over the bands [l < level] of
    [scale * weight_l * (sin(2^l * x[j] + phase_l) + cos(2^l * y[i] + phase_l))]
    with [weight_l = 1 / (2^l)^1.2], a number in [(0, 1]].  So every cell is
    bounded by [2 * |scale| * level] in absolute value, and with
    [level <= 0] the potential is zero at every cell. *)
Theorem init_potential (uniform : nat -> R) (size level : Z) (scale : R) self
    (i j : nat) (row : list R) (v xj yi : R) :
  __init__ uniform size level scale = Ok self ->
  self.(Self.K) !! i = Some row -> row !! j = Some v ->
  self.(Self.x) !! j = Some xj -> self.(Self.y) !! i = Some yi ->
  v = potential_sum uniform scale (Z.to_nat level) xj yi
  /\ Rabs v <= 2 * Rabs scale * INR (Z.to_nat level)
  /\ ((level <= 0)%Z -> v = 0).
Proof.
  intros Hinit Hrow Hv Hx Hy.
  destruct (init_inversion _ _ _ _ _ Hinit) as [Hsize ->].
  unfold built in *. cbn [Self.K Self.x Self.y] in *.
  set (n := Z.to_nat size) in *.
  assert (j < n)%nat as Hj.
  { apply lookup_lt_Some in Hx. unfold grid in Hx.
    now rewrite linspace_samples_length in Hx. }
  rewrite (tabulate_cell _ _ _ _ _ _ Hj Hrow) in Hv. injection Hv as <-.
  rewrite K_cells_sum.
  rewrite (nth_lookup_Some _ _ 0 _ Hx), (nth_lookup_Some _ _ 0 _ Hy).
  split; [reflexivity|]. split; [apply potential_sum_bound|].
  intros Hlevel. replace (Z.to_nat level) with 0%nat by lia. reflexivity.
Qed.

(** Property X11 at the first cell of the grid of three samples. *)
Lemma init_potential_witness :
  __init__ (fun _ => 0) 3 1 0.1 = Ok (built (fun _ => 0) 3 1 0.1)
  /\ exists row v,
       (built (fun _ => 0) 3 1 0.1).(Self.K) !! 0%nat = Some row
       /\ row !! 0%nat = Some v
       /\ Rabs v <= 2 * Rabs 0.1 * INR 1.
Proof.
  split; [exact (init_returns (fun _ => 0) 3 1 0.1 ltac:(lia))|].
  eexists _, _. split; [reflexivity|]. split; [reflexivity|].
  exact (proj1 (proj2
           (init_potential (fun _ => 0) 3 1 0.1 _ 0 0 _ _ _ _
              (init_returns (fun _ => 0) 3 1 0.1 ltac:(lia))
              eq_refl eq_refl eq_refl eq_refl))).
Defined.

(** ** The amplitude of the potential *)

Lemma grad_cell_linear (f h : nat -> R) (c : R) (n : nat) (d : R) (i : nat) :
  (forall k, f k = c * h k) -> grad_cell f n d i = c * grad_cell h n d i.
Proof.
  intros Hfh. unfold grad_cell. rewrite !Hfh.
  destruct (i =? 0)%nat; [|destruct (i =? n - 1)%nat]; unfold Rdiv; ring.
Qed.

Lemma metric_cell_linear (Kc Kc' : nat -> nat -> R) (c : R) (n : nat)
    (dx dy : R) (i j : nat) :
  (forall i j, Kc' i j = c * Kc i j) ->
  metric_cell Kc' n dx dy i j = c * metric_cell Kc n dx dy i j.
Proof.
  intros HK. unfold metric_cell.
  rewrite (grad_cell_linear _ (fun k => grad_cell (Kc i) n dx k) c).
  2:{ intros k. apply grad_cell_linear. intros k'. apply HK. }
  rewrite (grad_cell_linear (fun r => grad_cell (fun k => Kc' k j) n dy r)
             (fun r => grad_cell (fun k => Kc k j) n dy r) c).
  2:{ intros k. apply grad_cell_linear. intros k'. apply HK. }
  ring.
Qed.

Lemma K_cells_linear (uniform : nat -> R) (n : nat) (level : Z) (c scale : R)
    (i j : nat) :
  K_cells uniform n level (c * scale) i j = c * K_cells uniform n level scale i j.
Proof. rewrite !K_cells_sum. apply potential_sum_scale. Qed.

Lemma g_cells_linear (uniform : nat -> R) (n : nat) (level : Z) (c scale : R)
    (i j : nat) :
  g_cells uniform n level (c * scale) i j = c * g_cells uniform n level scale i j.
Proof.
  unfold g_cells. apply metric_cell_linear. intros. apply K_cells_linear.
Qed.

(** Property X12.  The potential and the metric are linear in the
    amplitude [scale]: constructing with [c * scale] instead of [scale]
    multiplies every cell of [K] and of [g] by [c], and leaves the axes as
    they are. *)
Theorem init_scale_linear (uniform : nat -> R) (size level : Z) (c scale : R)
    self1 self2 :
  __init__ uniform size level scale = Ok self1 ->
  __init__ uniform size level (c * scale) = Ok self2 ->
  self2.(Self.x) = self1.(Self.x) /\ self2.(Self.y) = self1.(Self.y)
  /\ self2.(Self.K) = map2d (Rmult c) self1.(Self.K)
  /\ self2.(Self.g) = map2d (Rmult c) self1.(Self.g).
Proof.
  intros H1 H2.
  destruct (init_inversion _ _ _ _ _ H1) as [_ ->].
  destruct (init_inversion _ _ _ _ _ H2) as [_ ->].
  unfold built. cbn [Self.x Self.y Self.K Self.g].
  split; [reflexivity|]. split; [reflexivity|].
  rewrite !map2d_tabulate.
  split; apply tabulate_ext; intros i j _ _.
  - apply K_cells_linear.
  - apply g_cells_linear.
Qed.

(** Property X12 for the grid of three samples and the factor [3]. *)
Lemma init_scale_linear_witness :
  __init__ (fun _ => 0) 3 1 0.1 = Ok (built (fun _ => 0) 3 1 0.1)
  /\ __init__ (fun _ => 0) 3 1 (3 * 0.1) = Ok (built (fun _ => 0) 3 1 (3 * 0.1))
  /\ (built (fun _ => 0) 3 1 (3 * 0.1)).(Self.g)
     = map2d (Rmult 3) (built (fun _ => 0) 3 1 0.1).(Self.g).
Proof.
  split; [exact (init_returns (fun _ => 0) 3 1 0.1 ltac:(lia))|].
  split; [exact (init_returns (fun _ => 0) 3 1 (3 * 0.1) ltac:(lia))|].
  exact (proj2 (proj2 (proj2
           (init_scale_linear (fun _ => 0) 3 1 3 0.1 _ _
              (init_returns (fun _ => 0) 3 1 0.1 ltac:(lia))
              (init_returns (fun _ => 0) 3 1 (3 * 0.1) ltac:(lia)))))).
Defined.

(** ** The connection does not depend on the amplitude *)

(** The transport and the holonomy read the instance through its axes and
    its connection only. *)
Lemma compute_holonomy_reads_connection (self1 self2 : FractalKahlerManifold)
    loop v0 (steps : Z) :
  self2.(Self.x) = self1.(Self.x) -> self2.(Self.y) = self1.(Self.y) ->
  self2.(Self.Gamma) = self1.(Self.Gamma) ->
  parallel_transport self2 loop v0 steps = parallel_transport self1 loop v0 steps
  /\ compute_holonomy self2 loop v0 steps = compute_holonomy self1 loop v0 steps.
Proof.
  intros Hx Hy HG.
  assert (Hpt : forall c v n,
            parallel_transport self2 c v n = parallel_transport self1 c v n).
  { intros c v n. unfold parallel_transport, transport_step, get_christoffel.
    rewrite Hx, Hy, HG. reflexivity. }
  split; [apply Hpt|]. unfold compute_holonomy. now rewrite Hpt.
Qed.

Lemma christoffel_cells_scale (G G' : nat -> nat -> R) (c : R) (n : nat)
    (d : R) (i j : nat) :
  (forall i j, G' i j = c * G i j) -> c <> 0 -> G i j <> 0 ->
  christoffel_x_cell G' n d i j = christoffel_x_cell G n d i j
  /\ christoffel_y_cell G' n d i j = christoffel_y_cell G n d i j.
Proof.
  intros HG Hc Hg. unfold christoffel_x_cell, christoffel_y_cell.
  rewrite (grad_cell_linear (G' i) (G i) c) by (intros; apply HG).
  rewrite (grad_cell_linear (fun k => G' k j) (fun k => G k j) c)
    by (intros; apply HG).
  rewrite HG. split; field; auto.
Qed.

(** Property X13.  The amplitude [scale] has no effect on the connection,
    and so none on the transport and the holonomy: when the metric built
    with [scale] is non-zero at every cell, constructing with [c * scale]
    for a factor [c <> 0] gives the same two connection arrays, and
    [parallel_transport] and [compute_holonomy] return the same results on
    both instances, for every loop, initial vector and step count. *)
Theorem init_connection_scale_free (uniform : nat -> R) (size level : Z)
    (c scale : R) self1 self2 :
  __init__ uniform size level scale = Ok self1 ->
  __init__ uniform size level (c * scale) = Ok self2 ->
  c <> 0 ->
  (forall i j row v,
     self1.(Self.g) !! i = Some row -> row !! j = Some v -> v <> 0) ->
  self2.(Self.Gamma) = self1.(Self.Gamma)
  /\ forall loop v0 steps,
       parallel_transport self2 loop v0 steps
       = parallel_transport self1 loop v0 steps
       /\ compute_holonomy self2 loop v0 steps
          = compute_holonomy self1 loop v0 steps.
Proof.
  intros H1 H2 Hc Hg.
  destruct (init_inversion _ _ _ _ _ H1) as [Hsize ->].
  destruct (init_inversion _ _ _ _ _ H2) as [_ ->].
  set (n := Z.to_nat size).
  assert (Hcell : forall i j, (i < n)%nat -> (j < n)%nat ->
            g_cells uniform n level scale i j <> 0).
  { intros i j Hi Hj.
    apply (Hg i j (map (g_cells uniform n level scale i) (seq 0 n))).
    - unfold built. cbn [Self.g]. fold n. now apply tabulate_lookup.
    - rewrite list_lookup_fmap, lookup_seq_lt by lia. reflexivity. }
  assert (HG : (built uniform size level (c * scale)).(Self.Gamma)
               = (built uniform size level scale).(Self.Gamma)).
  { unfold built. cbn [Self.Gamma]. fold n.
    apply (f_equal2 mkGamma); apply tabulate_ext; intros i j Hi Hj;
      apply (christoffel_cells_scale (g_cells uniform n level scale)
               (g_cells uniform n level (c * scale)) c n _ i j);
      auto; intros; apply g_cells_linear. }
  split; [exact HG|].
  intros loop v0 steps.
  now apply compute_holonomy_reads_connection.
Qed.

(** The instance on the grid of three samples with one band of phase [0]:
    the potential is [scale * (sin x + cos y)], and the metric is the same
    non-zero number at every cell. *)
Lemma band_weight_0 : band_weight 0 = 1.
Proof.
  unfold band_weight. change (2 ^ Z.of_nat 0)%Z with 1%Z.
  unfold Rpower. rewrite ln_1, Rmult_0_r, exp_0. field.
Qed.

Lemma grid_3 : grid 3 = [-2; 0; 2].
Proof.
  cbv - [Rplus Rminus Rmult Rdiv Rinv Ropp IZR].
  repeat (apply (f_equal2 cons)); try reflexivity; lra.
Qed.

Lemma cos_2_lt_1 : cos 2 < 1.
Proof.
  pose proof PI2_1 as Hpi.
  rewrite <- cos_0. apply cos_decreasing_1; lra.
Qed.

Lemma one_band_metric (scale : R) (i j : nat) :
  (i < 3)%nat -> (j < 3)%nat ->
  g_cells (fun _ => 0) 3 1 scale i j = scale * (cos 2 - 1) / 16.
Proof.
  intros Hi Hj.
  assert (HK : forall i j,
            K_cells (fun _ => 0) 3 1 scale i j
            = scale * (sin (nth j [-2; 0; 2] 0) + cos (nth i [-2; 0; 2] 0))).
  { intros i' j'. rewrite K_cells_sum, grid_3.
    change (Z.to_nat 1) with 1%nat. cbn [potential_sum].
    rewrite band_weight_0. change (2 ^ Z.of_nat 0)%Z with 1%Z.
    rewrite !Rmult_1_l, !Rplus_0_r, Rmult_1_r. ring. }
  unfold g_cells, metric_cell.
  rewrite (grad_cell_ext
             (fun c => grad_cell (K_cells (fun _ => 0) 3 1 scale i) 3
                         (spacing (grid 3)) c)
             (fun c => grad_cell
                         (fun k => scale * (sin (nth k [-2; 0; 2] 0)
                                            + cos (nth i [-2; 0; 2] 0)))
                         3 (spacing (grid 3)) c))
    by (intros c; apply grad_cell_ext; intros k; apply HK).
  rewrite (grad_cell_ext
             (fun r => grad_cell (fun k => K_cells (fun _ => 0) 3 1 scale k j) 3
                         (spacing (grid 3)) r)
             (fun r => grad_cell
                         (fun k => scale * (sin (nth j [-2; 0; 2] 0)
                                            + cos (nth k [-2; 0; 2] 0)))
                         3 (spacing (grid 3)) r))
    by (intros c; apply grad_cell_ext; intros k; apply HK).
  rewrite grid_3. unfold spacing. cbn [nth].
  replace (-2) with (- (2)) by lra.
  assert (Hs0 := sin_0). assert (Hc0 := cos_0).
  assert (Hsn := sin_neg 2). assert (Hcn := cos_neg 2).
  destruct i as [|[|[|i]]]; [| | |lia]; destruct j as [|[|[|j]]]; try lia;
    unfold grad_cell; cbn [Nat.eqb Nat.sub Nat.add nth];
    rewrite ?Hs0, ?Hc0, ?Hsn, ?Hcn;
    replace 0.25 with (/ 4) by lra; field.
Qed.

Lemma one_band_metric_nonzero (i j : nat) (row : list R) (v : R) :
  (built (fun _ => 0) 3 1 0.1).(Self.g) !! i = Some row ->
  row !! j = Some v -> v <> 0.
Proof.
  intros Hrow Hv. unfold built in Hrow. cbn [Self.g] in Hrow.
  change (Z.to_nat 3) with 3%nat in Hrow.
  assert (i < 3)%nat as Hi.
  { apply lookup_lt_Some in Hrow. now rewrite tabulate_length in Hrow. }
  assert (j < 3)%nat as Hj.
  { rewrite tabulate_lookup in Hrow by assumption. injection Hrow as <-.
    apply lookup_lt_Some in Hv. rewrite ?length_map, ?length_seq in Hv.
    simpl in Hv. lia. }
  rewrite (tabulate_cell _ _ _ _ _ _ Hj Hrow) in Hv. injection Hv as <-.
  rewrite one_band_metric by assumption.
  pose proof cos_2_lt_1. lra.
Qed.

(** Property X13 for the grid of three samples, one band and the factor
    [3]. *)
Lemma init_connection_scale_free_witness :
  __init__ (fun _ => 0) 3 1 0.1 = Ok (built (fun _ => 0) 3 1 0.1)
  /\ __init__ (fun _ => 0) 3 1 (3 * 0.1) = Ok (built (fun _ => 0) 3 1 (3 * 0.1))
  /\ 3 <> 0
  /\ (forall i j row v,
        (built (fun _ => 0) 3 1 0.1).(Self.g) !! i = Some row ->
        row !! j = Some v -> v <> 0)
  /\ (built (fun _ => 0) 3 1 (3 * 0.1)).(Self.Gamma)
     = (built (fun _ => 0) 3 1 0.1).(Self.Gamma).
Proof.
  split; [exact (init_returns (fun _ => 0) 3 1 0.1 ltac:(lia))|].
  split; [exact (init_returns (fun _ => 0) 3 1 (3 * 0.1) ltac:(lia))|].
  split; [lra|]. split; [exact one_band_metric_nonzero|].
  exact (proj1
           (init_connection_scale_free (fun _ => 0) 3 1 3 0.1 _ _
              (init_returns (fun _ => 0) 3 1 0.1 ltac:(lia))
              (init_returns (fun _ => 0) 3 1 (3 * 0.1) ltac:(lia))
              ltac:(lra) one_band_metric_nonzero)).
Defined.

(** ** The metric and affine terms of the potential *)

Lemma grad_cell_ext_lt (f h : nat -> R) (n : nat) (d : R) (i : nat) :
  (2 <= n)%nat -> (i < n)%nat -> (forall k, (k < n)%nat -> f k = h k) ->
  grad_cell f n d i = grad_cell h n d i.
Proof.
  intros Hn Hi Hfh. unfold grad_cell.
  destruct (Nat.eqb_spec i 0); [now rewrite !Hfh by lia|].
  destruct (Nat.eqb_spec i (n - 1)); [now rewrite !Hfh by lia|].
  now rewrite !Hfh by lia.
Qed.

(** The finite difference of [f] plus an affine function of the index, of
    slope [a] per unit of length, is that of [f] plus [a]. *)
Lemma grad_cell_affine (f : nat -> R) (g0 a : R) (n : nat) (h : R) (i : nat) :
  (2 <= n)%nat -> h <> 0 ->
  grad_cell (fun k => f k + (g0 + a * (INR k * h))) n h i = grad_cell f n h i + a.
Proof.
  intros Hn Hh. unfold grad_cell.
  destruct (Nat.eqb_spec i 0) as [->|Hi0].
  - simpl INR. field. assumption.
  - destruct (Nat.eqb_spec i (n - 1)) as [->|Hin].
    + replace (n - 1)%nat with (S (n - 2)) by lia. rewrite S_INR.
      field. assumption.
    + replace (i + 1)%nat with (S (S (i - 1))) by lia. rewrite !S_INR.
      field. assumption.
Qed.

Lemma grid_nth_affine (n k : nat) :
  (k < n)%nat -> nth k (grid n) 0 = -2 + INR k * (4 / INR (n - 1)).
Proof.
  intros Hk. apply nth_lookup_Some. unfold grid.
  rewrite linspace_samples_lookup by assumption. f_equal. unfold Rdiv. ring.
Qed.

Lemma grid_spacing (n : nat) :
  (2 <= n)%nat -> spacing (grid n) = 4 / INR (n - 1) /\ spacing (grid n) <> 0.
Proof.
  intros Hn. unfold spacing. rewrite !grid_nth_affine by lia.
  assert (0 < INR (n - 1)) by (apply lt_0_INR; lia).
  simpl INR.
  assert (Hs : -2 + 1 * (4 / INR (n - 1)) - (-2 + 0 * (4 / INR (n - 1)))
               = 4 / INR (n - 1)) by (field; lra).
  rewrite Hs. split; [reflexivity|].
  apply Rgt_not_eq. apply Rdiv_lt_0_compat; lra.
Qed.

Lemma grad_cell_shift (f : nat -> R) (a : R) (n : nat) (h : R) (i : nat) :
  grad_cell (fun k => f k + a) n h i = grad_cell f n h i.
Proof.
  unfold grad_cell.
  destruct (i =? 0)%nat; [|destruct (i =? n - 1)%nat]; unfold Rdiv; ring.
Qed.

(** The finite difference along a grid axis of [f] plus [a] times the
    coordinate plus a constant. *)
Lemma grad_cell_grid_affine (f : nat -> R) (a c0 : R) (n i : nat) :
  (2 <= n)%nat -> (i < n)%nat ->
  grad_cell (fun k => f k + (a * nth k (grid n) 0 + c0)) n (spacing (grid n)) i
  = grad_cell f n (spacing (grid n)) i + a.
Proof.
  intros Hn Hi. destruct (grid_spacing n Hn) as [Hd Hd0].
  rewrite <- (grad_cell_affine f (a * -2 + c0) a n (spacing (grid n)) i Hn Hd0).
  apply grad_cell_ext_lt; try assumption.
  intros k Hk. rewrite grid_nth_affine by assumption. rewrite Hd. ring.
Qed.

Lemma metric_cell_affine (Kc : nat -> nat -> R) (a b k0 : R) (n i j : nat) :
  (2 <= n)%nat -> (i < n)%nat -> (j < n)%nat ->
  metric_cell
    (fun i j => Kc i j + (a * nth j (grid n) 0 + (b * nth i (grid n) 0 + k0)))
    n (spacing (grid n)) (spacing (grid n)) i j
  = metric_cell Kc n (spacing (grid n)) (spacing (grid n)) i j.
Proof.
  intros Hn Hi Hj. unfold metric_cell. f_equal. f_equal.
  - rewrite (grad_cell_ext_lt _
               (fun c => grad_cell (Kc i) n (spacing (grid n)) c + a)).
    + apply grad_cell_shift.
    + assumption.
    + assumption.
    + intros c Hc.
      now apply (grad_cell_grid_affine (Kc i) a (b * nth i (grid n) 0 + k0)).
  - rewrite (grad_cell_ext_lt _
               (fun r => grad_cell (fun k => Kc k j) n (spacing (grid n)) r + b)).
    + apply grad_cell_shift.
    + assumption.
    + assumption.
    + intros r Hr.
      rewrite <- (grad_cell_grid_affine (fun k => Kc k j) b
                    (a * nth j (grid n) 0 + k0) n r Hn Hr).
      apply grad_cell_ext. intros k. ring.
Qed.

(** Property X14.  The metric does not see affine terms of the potential:
    on an instance that the constructor returns, replacing the potential
    [K] by [K + a * xx + b * yy + k0] and running
    [_compute_metric_from_potential] again gives the metric [g] that the
    instance already stores, for all numbers [a], [b] and [k0]. *)
Theorem metric_affine_invariant (uniform : nat -> R) (size level : Z)
    (scale : R) self (a b k0 : R) :
  __init__ uniform size level scale = Ok self ->
  _compute_metric_from_potential
    (Self.set_K self
       (zip2d Rplus self.(Self.K)
          (zip2d Rplus (map2d (fun v => a * v) self.(Self.xx))
             (map2d (fun v => b * v + k0) self.(Self.yy)))))
  = Ok self.(Self.g)
  /\ _compute_metric_from_potential self = Ok self.(Self.g).
Proof.
  intros Hinit.
  destruct (init_inversion _ _ _ _ _ Hinit) as [Hsize ->].
  unfold built. set (n := Z.to_nat size).
  cbn [Self.K Self.xx Self.yy Self.g].
  assert (Hn : (2 <= n)%nat) by (unfold n; lia).
  assert (Hlen : length (grid n) = n) by apply linspace_samples_length.
  rewrite !map2d_tabulate, !zip2d_tabulate.
  split.
  - rewrite (compute_metric_tabulate _ n
               (fun i j => K_cells uniform n level scale i j
                           + (a * nth j (grid n) 0 + (b * nth i (grid n) 0 + k0))))
      by (try reflexivity; try assumption).
    cbn [Self.set_K Self.x Self.y]. f_equal.
    apply tabulate_ext. intros i j Hi Hj. unfold g_cells.
    now apply metric_cell_affine.
  - rewrite (compute_metric_tabulate _ n (K_cells uniform n level scale))
      by (try reflexivity; try assumption).
    reflexivity.
Qed.

(** Property X14 for the grid of three samples. *)
Lemma metric_affine_invariant_witness :
  __init__ (fun _ => 0) 3 1 0.1 = Ok (built (fun _ => 0) 3 1 0.1)
  /\ _compute_metric_from_potential
       (Self.set_K (built (fun _ => 0) 3 1 0.1)
          (zip2d Rplus (built (fun _ => 0) 3 1 0.1).(Self.K)
             (zip2d Rplus
                (map2d (fun v => 5 * v) (built (fun _ => 0) 3 1 0.1).(Self.xx))
                (map2d (fun v => 7 * v + 1) (built (fun _ => 0) 3 1 0.1).(Self.yy)))))
     = Ok (built (fun _ => 0) 3 1 0.1).(Self.g).
Proof.
  split; [exact (init_returns (fun _ => 0) 3 1 0.1 ltac:(lia))|].
  exact (proj1 (metric_affine_invariant (fun _ => 0) 3 1 0.1 _ 5 7 1
                  (init_returns (fun _ => 0) 3 1 0.1 ltac:(lia)))).
Defined.

(** ** A constant metric *)

Lemma grad_cell_const (c : R) (n : nat) (h : R) (i : nat) :
  grad_cell (fun _ => c) n h i = 0.
Proof.
  unfold grad_cell.
  destruct (i =? 0)%nat; [|destruct (i =? n - 1)%nat]; unfold Rdiv; ring.
Qed.

(** Property X15.  Over the real numbers (finite values, exact
    arithmetic): over a metric that is the same non-zero number at every
    cell, [_compute_christoffel] returns two arrays of zeros, and on the
    instance with that connection [compute_holonomy] of a non-zero vector
    returns the angle [0] and the identity matrix for every loop.  (In
    binary64 the angle is zero up to rounding.) *)
Theorem constant_metric_connection (self : FractalKahlerManifold) (n : nat)
    (g0 : R) loop v0 (steps : Z) :
  (2 <= n)%nat ->
  length self.(Self.x) = n -> length self.(Self.y) = n ->
  self.(Self.g) = tabulate n n (fun _ _ => g0) -> g0 <> 0 ->
  (1 <= steps)%Z -> v0 <> (0, 0) ->
  exists Gamma,
    _compute_christoffel self = Ok Gamma
    /\ Gamma_x_xx Gamma = tabulate n n (fun _ _ => 0)
    /\ Gamma_y_yy Gamma = tabulate n n (fun _ _ => 0)
    /\ compute_holonomy (Self.set_Gamma self Gamma) loop v0 steps
       = Ok (0, mat2_identity,
             (replicate (Z.to_nat steps) (fst v0),
              replicate (Z.to_nat steps) (snd v0)),
             map loop (linspace_samples 0 1 (Z.to_nat steps))).
Proof.
  intros Hn Hx Hy Hg Hg0 Hsteps Hv0.
  exists (mkGamma (tabulate n n (fun _ _ => 0)) (tabulate n n (fun _ _ => 0))).
  split; [|split; [reflexivity|split; [reflexivity|]]].
  - rewrite (compute_christoffel_tabulate self n (fun _ _ => g0))
      by assumption.
    f_equal. apply (f_equal2 mkGamma); apply tabulate_ext; intros i j _ _.
    + unfold christoffel_x_cell.
      rewrite grad_cell_const. field. assumption.
    + unfold christoffel_y_cell.
      rewrite grad_cell_const. field. assumption.
  - set (self' := Self.set_Gamma self _).
    assert (Hwf : wf_manifold self').
    { constructor; unfold self'; cbn [Self.set_Gamma Self.x Self.y Self.Gamma
                                      Gamma_x_xx Gamma_y_yy].
      - intros E. rewrite E in Hx. simpl in Hx. lia.
      - intros E. rewrite E in Hy. simpl in Hy. lia.
      - rewrite Hx, Hy. apply has_shape_tabulate.
      - rewrite Hx, Hy. apply has_shape_tabulate. }
    assert (Hflat : flat_connection self').
    { split; intros i j row v Hrow Hv;
        unfold self' in Hrow; cbn [Self.set_Gamma Self.Gamma Gamma_x_xx Gamma_y_yy] in Hrow.
      - assert (j < n)%nat as Hj.
        { assert (i < n)%nat as Hi
            by (apply lookup_lt_Some in Hrow; now rewrite tabulate_length in Hrow).
          rewrite tabulate_lookup in Hrow by assumption. injection Hrow as <-.
          apply lookup_lt_Some in Hv. now rewrite length_map, length_seq in Hv. }
        rewrite (tabulate_cell _ _ _ _ _ _ Hj Hrow) in Hv. now injection Hv.
      - assert (j < n)%nat as Hj.
        { assert (i < n)%nat as Hi
            by (apply lookup_lt_Some in Hrow; now rewrite tabulate_length in Hrow).
          rewrite tabulate_lookup in Hrow by assumption. injection Hrow as <-.
          apply lookup_lt_Some in Hv. now rewrite length_map, length_seq in Hv. }
        rewrite (tabulate_cell _ _ _ _ _ _ Hj Hrow) in Hv. now injection Hv. }
    rewrite (flat_holonomy_trivial self' loop v0 steps Hwf Hflat Hsteps Hv0).
    unfold rotation_matrix, mat2_identity. now rewrite cos_0, sin_0, Ropp_0.
Qed.

(** Property X15 on the sample manifold, whose metric is [0.5] at every
    cell. *)
Lemma constant_metric_connection_witness :
  (2 <= 3)%nat /\ length sample_manifold.(Self.x) = 3%nat
  /\ sample_manifold.(Self.g) = tabulate 3 3 (fun _ _ => 0.5) /\ 0.5 <> 0
  /\ (1 <= 200)%Z /\ (1, 0) <> (0, 0)
  /\ exists Gamma,
       _compute_christoffel sample_manifold = Ok Gamma
       /\ Gamma_x_xx Gamma = tabulate 3 3 (fun _ _ => 0).
Proof.
  split; [lia|]. split; [reflexivity|]. split; [reflexivity|]. split; [lra|].
  split; [lia|]. split; [exact unit_vector_nonzero|].
  destruct (constant_metric_connection sample_manifold 3 0.5 circle_loop (1, 0) 200
              ltac:(lia) eq_refl eq_refl eq_refl ltac:(lra) ltac:(lia)
              unit_vector_nonzero)
    as (Gamma & HG & Hx & _).
  exists Gamma. split; [exact HG|exact Hx].
Defined.

(** ** The loop of the demonstration *)

(** Property X16.  Over the real numbers (in exact arithmetic), the loop
    of the demonstration is closed and periodic with period [1], it runs
    on the circle of radius [0.5] around [(0.5, -0.3)], from and to the
    point [(1, -0.3)], and it stays inside the grid [[-2, 2] x [-2, 2]], so
    that no point of it is clamped to the boundary of the grid.  (In
    binary64 these equations hold up to rounding.) *)
Theorem circle_loop_closed (t : R) :
  circle_loop (t + 1) = circle_loop t
  /\ circle_loop 0 = (1, -0.3) /\ circle_loop 1 = (1, -0.3)
  /\ (fst (circle_loop t) - 0.5) * (fst (circle_loop t) - 0.5)
     + (snd (circle_loop t) + 0.3) * (snd (circle_loop t) + 0.3) = 0.25
  /\ 0 <= fst (circle_loop t) <= 1 /\ -0.8 <= snd (circle_loop t) <= 0.2.
Proof.
  unfold circle_loop. cbn [fst snd].
  assert (Hper : forall a, cos (2 * PI * (a + 1)) = cos (2 * PI * a)
                           /\ sin (2 * PI * (a + 1)) = sin (2 * PI * a)).
  { intros a. replace (2 * PI * (a + 1)) with (2 * PI * a + 2 * PI) by ring.
    rewrite cos_plus, sin_plus, cos_2PI, sin_2PI. split; ring. }
  destruct (Hper t) as [Hc Hs]. destruct (Hper 0) as [Hc1 Hs1].
  replace (2 * PI * (0 + 1)) with (2 * PI * 1) in Hc1, Hs1 by ring.
  replace (2 * PI * 0) with 0 in Hc1, Hs1 |- * by ring.
  rewrite Hc, Hs, Hc1, Hs1, cos_0, sin_0.
  pose proof (COS_bound (2 * PI * t)) as Hcb.
  pose proof (SIN_bound (2 * PI * t)) as Hsb.
  pose proof (cos2_sin2 (2 * PI * t)) as Hcs.
  split; [reflexivity|].
  split; [apply (f_equal2 pair); lra|]. split; [apply (f_equal2 pair); lra|].
  split; [nra|]. lra.
Qed.

(** ** The dictionary of the driver *)

Lemma np_angle_range (z : C) : - PI < np_angle z <= PI.
Proof.
  destruct z as [x y]. pose proof PI_RGT_0 as Hpi.
  destruct (Req_dec x 0) as [->|Hx]; [destruct (Req_dec y 0) as [->|Hy]|].
  - unfold np_angle, atan2. cbn [fst snd]. case_R.
  - apply polar_form. intros E. injection E as E. contradiction.
  - apply polar_form. intros E. injection E as E _. contradiction.
Qed.

Lemma np_degrees_range (a : R) :
  - PI < a <= PI -> -180 < np_degrees a <= 180.
Proof.
  intros Ha. pose proof PI_RGT_0 as Hpi. unfold np_degrees.
  assert (Hk : 0 < 180 / PI) by (apply Rdiv_lt_0_compat; lra).
  assert (Hpik : PI * (180 / PI) = 180) by (field; lra).
  split; nra.
Qed.

Lemma norm_Cmult (z w : C) :
  np_linalg_norm (Cmult z w) = np_linalg_norm z * np_linalg_norm w.
Proof.
  unfold np_linalg_norm, Cmult. cbn [fst snd].
  rewrite <- sqrt_mult by nra. f_equal. ring.
Qed.

Lemma Cdet_matmul (m n : mat2 C) :
  Cdet (matmul m n) = Cmult (Cdet m) (Cdet n).
Proof.
  destruct m as [[[a1 a2] [b1 b2]] [[c1 c2] [d1 d2]]].
  destruct n as [[[e1 e2] [f1 f2]] [[g1 g2] [h1 h2]]].
  unfold Cdet, matmul, Cplus, Cmult, RtoC. cbn [fst snd].
  apply (f_equal2 pair); ring.
Qed.

Lemma depth3_results_keys phase1 phase2 phase3 M1 M2 M3 (k : string) :
  is_Some (depth3_results phase1 phase2 phase3 M1 M2 M3 !! k)
  <-> k ∈ depth3_keys.
Proof.
  unfold depth3_results, depth3_keys.
  rewrite !lookup_insert_is_Some, lookup_empty, !elem_of_cons, elem_of_nil.
  split.
  - intros [<-|[_ [<-|[_ [<-|[_ [<-|[_ [? E]]]]]]]]]; auto 6. discriminate.
  - intros [->|[->|[->|[->|[]]]]].
    + right. split; [discriminate|]. right. split; [discriminate|].
      right. split; [discriminate|]. now left.
    + right. split; [discriminate|]. right. split; [discriminate|]. now left.
    + right. split; [discriminate|]. now left.
    + now left.
Qed.

Section Depth3Dictionary.

Variable ComplexKahlerManifold : Type.
Variable new_ComplexKahlerManifold :
  Z -> Z -> R -> result ComplexKahlerManifold.
Variable compute_holonomy_complex :
  ComplexKahlerManifold -> (R -> C) -> C * C -> Z ->
  result (C * mat2 C * (list C * list C) * list C).

(** A run that returns has made the three calls in sequence, each from the
    last transported vector of the call before, and returns their
    dictionary. *)
Lemma run_depth3_inversion (results : gmap string LoopResult) :
  run_depth3_simulation ComplexKahlerManifold new_ComplexKahlerManifold
    compute_holonomy_complex = Ok results ->
  exists ckm phase1 phase2 phase3 M1 M2 M3 v1 v2 v3 pts1 pts2 pts3 end1 end2,
    depth3_run ComplexKahlerManifold new_ComplexKahlerManifold
      compute_holonomy_complex ckm phase1 phase2 phase3 M1 M2 M3
      v1 v2 v3 pts1 pts2 pts3 end1 end2
    /\ results = depth3_results phase1 phase2 phase3 M1 M2 M3.
Proof.
  unfold run_depth3_simulation. intros H.
  destruct (new_ComplexKahlerManifold 300 5 0.3) as [ckm|e] eqn:Hnew;
    cbn [bind] in H; [|discriminate].
  destruct (compute_holonomy_complex ckm loop1 (RtoC 1, RtoC 1) 300)
    as [[[[phase1 M1] [vz1 vzc1]] pts1]|e] eqn:H1; cbn [bind] in H; [|discriminate].
  destruct (getitem vz1 (-1)) as [z1|e] eqn:Hz1; cbn [bind] in H; [|discriminate].
  destruct (getitem vzc1 (-1)) as [zc1|e] eqn:Hzc1; cbn [bind] in H; [|discriminate].
  destruct (compute_holonomy_complex ckm loop2 (z1, zc1) 300)
    as [[[[phase2 M2] [vz2 vzc2]] pts2]|e] eqn:H2; cbn [bind] in H; [|discriminate].
  destruct (getitem vz2 (-1)) as [z2|e] eqn:Hz2; cbn [bind] in H; [|discriminate].
  destruct (getitem vzc2 (-1)) as [zc2|e] eqn:Hzc2; cbn [bind] in H; [|discriminate].
  destruct (compute_holonomy_complex ckm loop3 (z2, zc2) 300)
    as [[[[phase3 M3] [vz3 vzc3]] pts3]|e] eqn:H3; cbn [bind] in H; [|discriminate].
  injection H as <-.
  exists ckm, phase1, phase2, phase3, M1, M2, M3,
    (vz1, vzc1), (vz2, vzc2), (vz3, vzc3), pts1, pts2, pts3, (z1, zc1), (z2, zc2).
  split; [|reflexivity].
  unfold depth3_run. cbn [fst snd]. repeat (split; [assumption|]). assumption.
Qed.

(** Property X17.  The dictionary that [run_depth3_simulation] returns has
    exactly the four keys ['loop1'], ['loop2'], ['loop3'] and ['total'];
    under each of them the angle is the angle in degrees of the phase factor
    stored beside it, and it lies in [[-180, 180]], both ends included (the
    code returns [-180] for a negative real phase factor whose imaginary
    part is [-0.0]). *)
Theorem depth3_results_wellformed (results : gmap string LoopResult) :
  run_depth3_simulation ComplexKahlerManifold new_ComplexKahlerManifold
    compute_holonomy_complex = Ok results ->
  (forall k, is_Some (results !! k) <-> k ∈ depth3_keys)
  /\ forall k r, results !! k = Some r ->
       angle_degrees r = np_degrees (np_angle (phase r))
       /\ -180 <= angle_degrees r <= 180.
Proof.
  intros Hrun.
  destruct (run_depth3_inversion results Hrun)
    as (ckm & phase1 & phase2 & phase3 & M1 & M2 & M3 & v1 & v2 & v3
        & pts1 & pts2 & pts3 & end1 & end2 & _ & ->).
  split; [apply depth3_results_keys|].
  intros k r Hr.
  assert (Hangle : angle_degrees r = np_degrees (np_angle (phase r))).
  { unfold depth3_results in Hr.
    repeat (apply lookup_insert_Some in Hr;
            destruct Hr as [[_ <-]|[_ Hr]]; [reflexivity|]).
    rewrite lookup_empty in Hr. discriminate. }
  split; [exact Hangle|]. rewrite Hangle.
  pose proof (np_degrees_range _ (np_angle_range (phase r))). lra.
Qed.

(** Property X18.  In the dictionary that [run_depth3_simulation] returns,
    the modulus of the total phase factor is the product of the moduli of
    the three per-loop phase factors, so three phase factors of modulus one
    compose to one of modulus one; and the determinant of the total matrix
    is the product of the determinants of the three per-loop matrices. *)
Theorem depth3_total_modulus (results : gmap string LoopResult) :
  run_depth3_simulation ComplexKahlerManifold new_ComplexKahlerManifold
    compute_holonomy_complex = Ok results ->
  exists r1 r2 r3 total,
    results !! "loop1" = Some r1 /\ results !! "loop2" = Some r2
    /\ results !! "loop3" = Some r3 /\ results !! "total" = Some total
    /\ np_linalg_norm (phase total)
       = np_linalg_norm (phase r1) * np_linalg_norm (phase r2)
         * np_linalg_norm (phase r3)
    /\ (np_linalg_norm (phase r1) = 1 -> np_linalg_norm (phase r2) = 1 ->
        np_linalg_norm (phase r3) = 1 -> np_linalg_norm (phase total) = 1)
    /\ Cdet (matrix total)
       = Cmult (Cmult (Cdet (matrix r3)) (Cdet (matrix r2))) (Cdet (matrix r1)).
Proof.
  intros Hrun.
  destruct (run_depth3_inversion results Hrun)
    as (ckm & phase1 & phase2 & phase3 & M1 & M2 & M3 & v1 & v2 & v3
        & pts1 & pts2 & pts3 & end1 & end2 & _ & ->).
  destruct (depth3_results_lookup phase1 phase2 phase3 M1 M2 M3)
    as (Hl1 & Hl2 & Hl3 & Hlt).
  eexists _, _, _, _.
  split; [exact Hl1|]. split; [exact Hl2|]. split; [exact Hl3|].
  split; [exact Hlt|]. cbn [phase matrix].
  assert (Hmod : np_linalg_norm (Cmult (Cmult phase1 phase2) phase3)
                 = np_linalg_norm phase1 * np_linalg_norm phase2
                   * np_linalg_norm phase3)
    by now rewrite !norm_Cmult.
  split; [exact Hmod|]. split.
  - intros E1 E2 E3. rewrite Hmod, E1, E2, E3. ring.
  - now rewrite !Cdet_matmul.
Qed.

End Depth3Dictionary.

(** Property X17 on three loops of a quarter turn each. *)
Lemma depth3_results_wellformed_witness :
  run_depth3_simulation unit (fun _ _ _ => Ok tt) quarter_turn_holonomy
  = Ok (depth3_results (0, 1) (0, 1) (0, 1)
          (((0, 1), (0, 0)), ((0, 0), (0, -1)))
          (((0, 1), (0, 0)), ((0, 0), (0, -1)))
          (((0, 1), (0, 0)), ((0, 0), (0, -1))))
  /\ forall k,
       is_Some (depth3_results (0, 1) (0, 1) (0, 1)
                  (((0, 1), (0, 0)), ((0, 0), (0, -1)))
                  (((0, 1), (0, 0)), ((0, 0), (0, -1)))
                  (((0, 1), (0, 0)), ((0, 0), (0, -1))) !! k)
       <-> k ∈ depth3_keys.
Proof.
  split; [exact (run_depth3_returns _ _ _ _ _ _ _ _ _ _ _ _ _ _ _ _ _ _ quarter_turn_run)|].
  exact (proj1 (depth3_results_wellformed unit (fun _ _ _ => Ok tt)
                  quarter_turn_holonomy _
                  (run_depth3_returns _ _ _ _ _ _ _ _ _ _ _ _ _ _ _ _ _ _
                     quarter_turn_run))).
Defined.

(** Property X18 on three loops of a quarter turn each. *)
Lemma depth3_total_modulus_witness :
  run_depth3_simulation unit (fun _ _ _ => Ok tt) quarter_turn_holonomy
  = Ok (depth3_results (0, 1) (0, 1) (0, 1)
          (((0, 1), (0, 0)), ((0, 0), (0, -1)))
          (((0, 1), (0, 0)), ((0, 0), (0, -1)))
          (((0, 1), (0, 0)), ((0, 0), (0, -1))))
  /\ exists r1 r2 r3 total,
       depth3_results (0, 1) (0, 1) (0, 1)
         (((0, 1), (0, 0)), ((0, 0), (0, -1)))
         (((0, 1), (0, 0)), ((0, 0), (0, -1)))
         (((0, 1), (0, 0)), ((0, 0), (0, -1))) !! "total" = Some total
       /\ np_linalg_norm (phase total)
          = np_linalg_norm (phase r1) * np_linalg_norm (phase r2)
            * np_linalg_norm (phase r3).
Proof.
  split; [exact (run_depth3_returns _ _ _ _ _ _ _ _ _ _ _ _ _ _ _ _ _ _ quarter_turn_run)|].
  destruct (depth3_total_modulus unit (fun _ _ _ => Ok tt)
              quarter_turn_holonomy _
              (run_depth3_returns _ _ _ _ _ _ _ _ _ _ _ _ _ _ _ _ _ _
                 quarter_turn_run))
    as (r1 & r2 & r3 & total & _ & _ & _ & Ht & Hmod & _).
  exists r1, r2, r3, total. split; [exact Ht|exact Hmod].
Defined.

(** ** The three loops of the driver *)

Lemma cos_sin_turn (a : R) :
  cos (a + 2 * PI) = cos a /\ sin (a + 2 * PI) = sin a.
Proof. rewrite cos_plus, sin_plus, cos_2PI, sin_2PI. split; ring. Qed.

(** [np.exp(2j * np.pi * t)] is the point of the unit circle at the angle
    [2 * pi * t]. *)
Lemma Cexp_turn (t : R) :
  Cexp (Cmult (Cmult (0, 2) (RtoC PI)) (RtoC t))
  = (cos (2 * PI * t), sin (2 * PI * t)).
Proof.
  unfold Cexp, Cmult, RtoC. cbn [fst snd].
  replace ((0 * PI - 2 * 0) * t - (0 * 0 + 2 * PI) * 0) with 0 by ring.
  replace ((0 * PI - 2 * 0) * 0 + (0 * 0 + 2 * PI) * t) with (2 * PI * t) by ring.
  rewrite exp_0. apply (f_equal2 pair); ring.
Qed.

Lemma loop1_circle (t : R) :
  loop1 t = (0.5 + 0.4 * cos (2 * PI * t), 0.5 + 0.4 * sin (2 * PI * t)).
Proof.
  unfold loop1. rewrite Cexp_turn. unfold Cplus, Cmult, RtoC. cbn [fst snd].
  apply (f_equal2 pair); lra.
Qed.

Lemma loop3_circle (t : R) :
  loop3 t = (-0.7 + 0.5 * cos (2 * PI * t), -0.6 + 0.5 * sin (2 * PI * t)).
Proof.
  unfold loop3. rewrite Cexp_turn. unfold Cplus, Cmult, RtoC. cbn [fst snd].
  apply (f_equal2 pair); lra.
Qed.

Lemma loop2_lemniscate (t : R) :
  loop2 t
  = (0.1 * cos (2 * PI * t) / (1 + sin (2 * PI * t) ^ 2),
     0.1 * sin (2 * (2 * PI * t)) / (1 + sin (2 * PI * t) ^ 2)).
Proof.
  unfold loop2, Cdiv_real, Cplus, Cmult, RtoC. cbn [fst snd].
  apply (f_equal2 pair); apply (f_equal (fun v => v / _)); lra.
Qed.

(** Property X19.  Over the real numbers (in exact arithmetic), the three
    loops of the driver are closed curves, periodic with period [1].  The
    first runs on the circle of radius [0.4] around [0.5 + 0.5i] and the
    third on the circle of radius [0.5] around [-0.7 - 0.6i].  The second
    divides by [1 + sin^2], which is at least [1], so it never divides by
    zero; it stays in the square [|Re|, |Im| <= 0.1] and passes through
    the origin at [t = 1/4]; its imaginary part is
    [0.1 * sin(2 theta) / (1 + sin^2 theta)], twice the imaginary part
    [0.1 * sin(theta) * cos(theta) / (1 + sin^2 theta)] of the lemniscate of
    Bernoulli that its docstring names.  (In binary64 these equations hold
    up to rounding.) *)
Theorem depth3_loops_closed (t : R) :
  loop1 (t + 1) = loop1 t /\ loop2 (t + 1) = loop2 t /\ loop3 (t + 1) = loop3 t
  /\ (fst (loop1 t) - 0.5) * (fst (loop1 t) - 0.5)
     + (snd (loop1 t) - 0.5) * (snd (loop1 t) - 0.5) = 0.16
  /\ (fst (loop3 t) + 0.7) * (fst (loop3 t) + 0.7)
     + (snd (loop3 t) + 0.6) * (snd (loop3 t) + 0.6) = 0.25
  /\ 1 <= 1 + sin (2 * PI * t) ^ 2
  /\ -0.1 <= fst (loop2 t) <= 0.1 /\ -0.1 <= snd (loop2 t) <= 0.1
  /\ loop2 (1 / 4) = (0, 0)
  /\ snd (loop2 t)
     = 2 * (0.1 * sin (2 * PI * t) * cos (2 * PI * t)
            / (1 + sin (2 * PI * t) ^ 2)).
Proof.
  assert (Hturn : 2 * PI * (t + 1) = 2 * PI * t + 2 * PI) by ring.
  destruct (cos_sin_turn (2 * PI * t)) as [Hc Hs].
  assert (Hs2 : sin (2 * (2 * PI * (t + 1))) = sin (2 * (2 * PI * t))).
  { replace (2 * (2 * PI * (t + 1)))
      with (2 * (2 * PI * t) + 2 * PI + 2 * PI) by ring.
    destruct (cos_sin_turn (2 * (2 * PI * t) + 2 * PI)) as [_ ->].
    now destruct (cos_sin_turn (2 * (2 * PI * t))) as [_ ->]. }
  pose proof (cos2_sin2 (2 * PI * t)) as Hcs.
  pose proof (COS_bound (2 * PI * t)) as Hcb.
  pose proof (SIN_bound (2 * (2 * PI * t))) as Hsb.
  assert (HD : 1 <= 1 + sin (2 * PI * t) ^ 2).
  { pose proof (pow2_ge_0 (sin (2 * PI * t))). lra. }
  assert (Hinv : 0 < / (1 + sin (2 * PI * t) ^ 2) <= 1).
  { split; [apply Rinv_0_lt_compat; lra|].
    apply Rle_trans with (/ 1); [apply Rinv_le_contravar; lra|].
    rewrite Rinv_1. lra. }
  rewrite !loop1_circle, !loop2_lemniscate, !loop3_circle, Hs2, Hturn, Hc, Hs.
  cbn [fst snd].
  split; [reflexivity|]. split; [reflexivity|]. split; [reflexivity|].
  split; [nra|]. split; [nra|]. split; [exact HD|].
  split; [unfold Rdiv; split; nra|]. split; [unfold Rdiv; split; nra|].
  split.
  - replace (2 * PI * (1 / 4)) with (PI / 2) by field.
    replace (2 * (PI / 2)) with PI by field.
    rewrite cos_PI2, sin_PI. apply (f_equal2 pair); lra.
  - rewrite sin_2a. unfold Rdiv. ring.
Qed.

(** ** The grid sampler between two samples *)

(** At the midpoint of two adjacent samples of an increasing axis, both are
    nearest; the index selected is the lower one. *)
Lemma nearest_index_midpoint (xs : list R) (k r : nat) (a b : R) :
  increasing xs -> xs !! k = Some a -> xs !! (k + 1)%nat = Some b ->
  nearest_index xs ((a + b) / 2) r -> r = k.
Proof.
  intros Hinc Hk Hk1 (m & Hm & Hmin & Hfirst).
  assert (Hab : a < b) by (apply (Hinc k (k + 1)%nat); [lia|assumption..]).
  rewrite list_lookup_fmap in Hm.
  destruct (xs !! r) as [xr|] eqn:Hr; [|discriminate].
  simpl in Hm. injection Hm as <-.
  assert (Hda : Rabs (a - (a + b) / 2) = (b - a) / 2)
    by (rewrite Rabs_left by lra; lra).
  assert (Hdb : Rabs (b - (a + b) / 2) = (b - a) / 2)
    by (rewrite Rabs_right by lra; lra).
  assert (Hle : Rabs (xr - (a + b) / 2) <= (b - a) / 2).
  { rewrite <- Hda. apply (Hmin k). rewrite list_lookup_fmap, Hk. reflexivity. }
  destruct (Nat.lt_trichotomy r k) as [Hlt|[Heq|Hgt]]; [exfalso|assumption|exfalso].
  - pose proof (Hinc r k xr a Hlt Hr Hk) as Hra.
    rewrite Rabs_left in Hle by lra. lra.
  - destruct (Nat.eq_dec r (k + 1)%nat) as [->|Hne].
    + rewrite Hk1 in Hr. injection Hr as <-.
      assert (Hstrict : Rabs (b - (a + b) / 2) < Rabs (a - (a + b) / 2)).
      { apply (Hfirst k); [lia|]. rewrite list_lookup_fmap, Hk. reflexivity. }
      lra.
    + assert (Hbr : b < xr) by (apply (Hinc (k + 1)%nat r); [lia|assumption..]).
      rewrite Rabs_right in Hle by lra. lra.
Qed.

(** Property X20.  At a coordinate that lies exactly midway between two
    adjacent samples on each axis, where two samples are equally near,
    [get_christoffel] does not interpolate and does not fail: it returns
    the connection values of the cell of the lower index on each axis. *)
Theorem get_christoffel_midpoint self (k l : nat) (xa xb ya yb : R) :
  wf_manifold self ->
  increasing self.(Self.x) -> increasing self.(Self.y) ->
  self.(Self.x) !! k = Some xa -> self.(Self.x) !! (k + 1)%nat = Some xb ->
  self.(Self.y) !! l = Some ya -> self.(Self.y) !! (l + 1)%nat = Some yb ->
  exists rowx rowy gx gy,
    Gamma_x_xx self.(Self.Gamma) !! l = Some rowx /\ rowx !! k = Some gx
    /\ Gamma_y_yy self.(Self.Gamma) !! l = Some rowy /\ rowy !! k = Some gy
    /\ get_christoffel self ((xa + xb) / 2) ((ya + yb) / 2) = Ok (mkGamma gx gy).
Proof.
  intros Hwf Hincx Hincy Hk Hk1 Hl Hl1.
  destruct (get_christoffel_nearest self ((xa + xb) / 2) ((ya + yb) / 2) Hwf)
    as (ix & iy & rowx & rowy & gx & gy
        & _ & _ & Hnx & Hny & Hrx & Hgx & Hry & Hgy & HG).
  pose proof (nearest_index_midpoint _ _ _ _ _ Hincx Hk Hk1 Hnx) as ->.
  pose proof (nearest_index_midpoint _ _ _ _ _ Hincy Hl Hl1 Hny) as ->.
  exists rowx, rowy, gx, gy. auto.
Qed.

(** Property X20 at the midpoint [(-1, 1)] of the cell between the samples
    [-2] and [0] in [x] and the samples [0] and [2] in [y]. *)
Lemma get_christoffel_midpoint_witness :
  wf_manifold unit_connection_manifold
  /\ increasing unit_connection_manifold.(Self.x)
  /\ increasing unit_connection_manifold.(Self.y)
  /\ unit_connection_manifold.(Self.x) !! 0%nat = Some (-2)
  /\ unit_connection_manifold.(Self.x) !! 1%nat = Some 0
  /\ unit_connection_manifold.(Self.y) !! 1%nat = Some 0
  /\ unit_connection_manifold.(Self.y) !! 2%nat = Some 2
  /\ get_christoffel unit_connection_manifold ((-2 + 0) / 2) ((0 + 2) / 2)
     = Ok (mkGamma 1 1).
Proof.
  split; [exact unit_connection_wf|].
  split; [exact sample_axis_increasing|]. split; [exact sample_axis_increasing|].
  repeat (split; [reflexivity|]).
  destruct (get_christoffel_midpoint unit_connection_manifold 0 1 (-2) 0 0 2
              unit_connection_wf sample_axis_increasing sample_axis_increasing
              eq_refl eq_refl eq_refl eq_refl)
    as (rowx & rowy & gx & gy & Hrx & Hgx & Hry & Hgy & HG).
  cbn in Hrx, Hry. injection Hrx as <-. injection Hry as <-.
  cbn in Hgx, Hgy. injection Hgx as <-. injection Hgy as <-.
  exact HG.
Defined.

(** ** The demonstration of the module *)

Lemma np_degrees_0_PI : np_degrees 0 = 0 /\ np_degrees PI = 180.
Proof.
  pose proof PI_RGT_0. unfold np_degrees. split; field; lra.
Qed.

(** Property X21.  The demonstration of the module raises nothing, whatever
    the random phases: it builds its instance, transports [(1, 0)] around
    [circle_loop] and prints the angle in degrees.  The [y] component of the
    transported vector is zero at all 200 samples, so the printed angle is
    [0] when the final [x] component is positive and [180] when it is
    negative: the demonstration cannot print any other angle for a non-zero
    final vector. *)
Theorem demonstration_angle (uniform : nat -> R) :
  exists fm a rot vx points vfx,
    __init__ uniform 150 4 0.2 = Ok fm
    /\ compute_holonomy fm circle_loop (1, 0) 200
       = Ok (a, rot, (vx, replicate 200 0), points)
    /\ __main__ uniform = Ok (np_degrees a)
    /\ vx !! 199%nat = Some vfx
    /\ (0 < vfx -> np_degrees a = 0)
    /\ (vfx < 0 -> np_degrees a = 180).
Proof.
  pose proof (init_returns uniform 150 4 0.2 ltac:(lia)) as Hinit.
  destruct (built_wf uniform 150 4 0.2 ltac:(lia)) as [Hwf _].
  destruct (axis_vector_transport (built uniform 150 4 0.2) circle_loop (1, 0) 200
              Hwf ltac:(lia) (or_intror eq_refl))
    as (vx & vy & points & vf & Hch & Hvf & Hlx & _ & _ & Hzy & Hcross).
  rewrite (Hzy eq_refl) in Hch, Hvf. change (Z.to_nat 200) with 200%nat in *.
  unfold final_vector in Hvf. rewrite Hlx in Hvf.
  change (200 - 1)%nat with 199%nat in Hvf.
  destruct (vx !! 199%nat) as [vfx|] eqn:Hvfx; [|discriminate].
  rewrite length_replicate in Hvf.
  rewrite lookup_replicate_2 in Hvf by lia. injection Hvf as <-.
  destruct (signed_angle_parallel (1, 0) (vfx, 0) Hcross) as [Hsame Hopp].
  destruct np_degrees_0_PI as [Hd0 Hd180].
  exists (built uniform 150 4 0.2), (signed_angle (1, 0) (vfx, 0)),
    (rotation_matrix (signed_angle (1, 0) (vfx, 0))), vx, points, vfx.
  split; [exact Hinit|]. split; [exact Hch|]. split.
  - unfold __main__. rewrite Hinit. cbn [bind]. rewrite Hch. reflexivity.
  - split; [exact Hvfx|]. unfold np_dot in Hsame, Hopp. cbn [fst snd] in *.
    split; intros Hsign.
    + rewrite Hsame by lra. exact Hd0.
    + rewrite Hopp by lra. exact Hd180.
Qed.

(** ** The resolution of the grid sampler *)

(** A value between the first sample and a later one lies between two
    adjacent samples. *)
Lemma samples_bracket (xs : list R) (x : R) (m : nat) :
  forall a0 am,
    (1 <= m)%nat -> xs !! 0%nat = Some a0 -> xs !! m = Some am ->
    a0 <= x <= am ->
    exists k a b,
      xs !! k = Some a /\ xs !! (k + 1)%nat = Some b /\ a <= x <= b.
Proof.
  induction m as [|m IH]; intros a0 am Hm H0 Hlast Hx; [lia|].
  destruct m as [|m].
  - exists 0%nat, a0, am. auto.
  - destruct (lookup_lt_is_Some_2 xs (S m)) as [c Hc].
    { apply lookup_lt_Some in Hlast. lia. }
    destruct (Rle_dec x c) as [Hle|Hgt].
    + apply (IH a0 c); [lia|assumption|assumption|lra].
    + exists (S m), c, am. replace (S m + 1)%nat with (S (S m)) by lia.
      split; [assumption|]. split; [assumption|]. lra.
Qed.

(** The nearest sample is at most half a cell away from a value between
    two adjacent samples. *)
Lemma nearest_index_within (xs : list R) (x : R) (r k : nat) (a b : R) :
  xs !! k = Some a -> xs !! (k + 1)%nat = Some b -> a <= x <= b ->
  nearest_index xs x r ->
  exists xr, xs !! r = Some xr /\ Rabs (xr - x) <= (b - a) / 2.
Proof.
  intros Hk Hk1 Hx (m & Hm & Hmin & _).
  rewrite list_lookup_fmap in Hm.
  destruct (xs !! r) as [xr|] eqn:Hr; [|discriminate].
  simpl in Hm. injection Hm as <-.
  exists xr. split; [reflexivity|].
  assert (Ha : Rabs (xr - x) <= Rabs (a - x))
    by (apply (Hmin k); rewrite list_lookup_fmap, Hk; reflexivity).
  assert (Hb : Rabs (xr - x) <= Rabs (b - x))
    by (apply (Hmin (k + 1)%nat); rewrite list_lookup_fmap, Hk1; reflexivity).
  destruct (Rle_dec (x - a) (b - x)).
  - rewrite (Rabs_left1 (a - x)) in Ha by lra. lra.
  - rewrite (Rabs_right (b - x)) in Hb by lra. lra.
Qed.

Lemma grid_nearest_within (n : nat) (x : R) (r : nat) :
  (2 <= n)%nat -> -2 <= x <= 2 -> nearest_index (grid n) x r ->
  exists xr, grid n !! r = Some xr /\ Rabs (xr - x) <= 2 / INR (n - 1).
Proof.
  intros Hn Hx Hr.
  assert (Hd : 0 < INR (n - 1)) by (apply lt_0_INR; lia).
  assert (H0 : grid n !! 0%nat = Some (-2 + 4 * uniform_time n 0))
    by (apply grid_lookup; lia).
  assert (Hl : grid n !! (n - 1)%nat = Some (-2 + 4 * uniform_time n (n - 1)))
    by (apply grid_lookup; lia).
  assert (Hu0 : uniform_time n 0 = 0) by (unfold uniform_time; simpl; field; lra).
  assert (Hu1 : uniform_time n (n - 1) = 1) by (unfold uniform_time; field; lra).
  rewrite Hu0 in H0. rewrite Hu1 in Hl.
  destruct (samples_bracket (grid n) x (n - 1) _ _ ltac:(lia) H0 Hl ltac:(lra))
    as (k & a & b & Hk & Hk1 & Hab).
  destruct (nearest_index_within _ _ _ _ _ _ Hk Hk1 Hab Hr) as (xr & Hxr & Hle).
  exists xr. split; [exact Hxr|].
  assert (k + 1 < n)%nat as Hkn.
  { apply lookup_lt_Some in Hk1. unfold grid in Hk1.
    now rewrite linspace_samples_length in Hk1. }
  rewrite grid_lookup in Hk, Hk1 by lia.
  injection Hk as <-. injection Hk1 as <-.
  assert (Hstep : -2 + 4 * uniform_time n (k + 1) - (-2 + 4 * uniform_time n k)
                  = 4 / INR (n - 1)).
  { unfold uniform_time. rewrite plus_INR. simpl (INR 1). field. lra. }
  rewrite Hstep in Hle.
  replace (2 / INR (n - 1)) with (4 / INR (n - 1) / 2) by (field; lra).
  exact Hle.
Qed.

(** Property X22.  On an instance that the constructor returns, for a
    coordinate inside the grid ([-2 <= x, y <= 2]) the sample that
    [get_christoffel] reads is at most half a grid cell away on each axis:
    [|x[ix] - x| <= 2 / (size - 1)] and [|y[iy] - y| <= 2 / (size - 1)]. *)
Theorem get_christoffel_resolution (uniform : nat -> R) (size level : Z)
    (scale : R) self (x y : R) :
  __init__ uniform size level scale = Ok self ->
  -2 <= x <= 2 -> -2 <= y <= 2 ->
  exists ix iy xi yi rowx rowy gx gy,
    self.(Self.x) !! ix = Some xi /\ self.(Self.y) !! iy = Some yi
    /\ Rabs (xi - x) <= 2 / INR (Z.to_nat size - 1)
    /\ Rabs (yi - y) <= 2 / INR (Z.to_nat size - 1)
    /\ Gamma_x_xx self.(Self.Gamma) !! iy = Some rowx /\ rowx !! ix = Some gx
    /\ Gamma_y_yy self.(Self.Gamma) !! iy = Some rowy /\ rowy !! ix = Some gy
    /\ get_christoffel self x y = Ok (mkGamma gx gy).
Proof.
  intros Hinit Hx Hy.
  destruct (init_inversion _ _ _ _ _ Hinit) as [Hsize ->].
  destruct (built_wf uniform size level scale Hsize) as [Hwf _].
  destruct (get_christoffel_nearest _ x y Hwf)
    as (ix & iy & rowx & rowy & gx & gy
        & _ & _ & Hnx & Hny & Hrx & Hgx & Hry & Hgy & HG).
  unfold built in Hnx, Hny. cbn [Self.x Self.y] in Hnx, Hny.
  destruct (grid_nearest_within (Z.to_nat size) x ix ltac:(lia) Hx Hnx) as (xi & Hxi & Hdx).
  destruct (grid_nearest_within (Z.to_nat size) y iy ltac:(lia) Hy Hny) as (yi & Hyi & Hdy).
  exists ix, iy, xi, yi, rowx, rowy, gx, gy.
  repeat (split; [assumption|]). exact HG.
Qed.

(** Property X22 at the point [(1, -0.3)] where the demonstration loop
    starts, on the grid of three samples. *)
Lemma get_christoffel_resolution_witness :
  __init__ (fun _ => 0) 3 1 0.1 = Ok (built (fun _ => 0) 3 1 0.1)
  /\ -2 <= 1 <= 2 /\ -2 <= -0.3 <= 2
  /\ exists ix xi,
       (built (fun _ => 0) 3 1 0.1).(Self.x) !! ix = Some xi
       /\ Rabs (xi - 1) <= 2 / INR (Z.to_nat 3 - 1).
Proof.
  split; [exact (init_returns (fun _ => 0) 3 1 0.1 ltac:(lia))|].
  split; [lra|]. split; [lra|].
  destruct (get_christoffel_resolution (fun _ => 0) 3 1 0.1 _ 1 (-0.3)
              (init_returns (fun _ => 0) 3 1 0.1 ltac:(lia))
              ltac:(lra) ltac:(lra))
    as (ix & iy & xi & yi & rowx & rowy & gx & gy & Hxi & _ & Hdx & _).
  exists ix, xi. split; [exact Hxi|exact Hdx].
Defined.

(** * The holonomy extractor on valid inputs *)

(** ** The clip *)

Lemma np_clip_saturates (q : R) :
  -1 <= np_clip q (-1) 1 <= 1
  /\ (q <= -1 -> np_clip q (-1) 1 = -1)
  /\ (1 <= q -> np_clip q (-1) 1 = 1)
  /\ (-1 <= q <= 1 -> np_clip q (-1) 1 = q).
Proof.
  split; [apply np_clip_bounds|].
  unfold np_clip, Rmin, Rmax.
  repeat split; intros Hq;
    destruct (Rle_dec q (-1)); destruct (Rle_dec _ 1); lra.
Qed.

Lemma f64_ltb_leb (x y : float) :
  (x <? y)%float = true -> (x <=? y)%float = true.
Proof.
  rewrite FloatAxioms.ltb_spec, FloatAxioms.leb_spec. unfold SFltb, SFleb.
  destruct (SFcompare _ _) as [[ | | ]|]; congruence.
Qed.

(** Whatever the quotient, the clip gives NaN (for a NaN quotient) or a
    float of [[-1, 1]]. *)
Lemma f64_np_clip_range (q : float) :
  PrimFloat.is_nan (F64.np_clip q (-1) 1) = true
  \/ ((-1 <=? F64.np_clip q (-1) 1)%float = true
      /\ (F64.np_clip q (-1) 1 <=? 1)%float = true).
Proof.
  unfold F64.np_clip.
  destruct (PrimFloat.is_nan q) eqn:Hnan.
  - rewrite Hnan. now left.
  - destruct (-1 <? q)%float eqn:Hlo.
    + rewrite Hnan. destruct (q <? 1)%float eqn:Hhi.
      * right. split; now apply f64_ltb_leb.
      * right. split; reflexivity.
    + right. split; reflexivity.
Qed.

(** The angle that the binary64 extractor returns is the arccosine of the
    clipped quotient, with one sign or the other, and the matrix is the
    rotation matrix of the angle. *)
Lemma f64_compute_holonomy_clipped (np_arccos np_cos np_sin : float -> float)
    self loop v0 (steps : Z) a rot traj pts :
  F64.compute_holonomy np_arccos np_cos np_sin self loop v0 steps
  = Ok (a, rot, traj, pts) ->
  exists vfx vfy,
    getitem (fst traj) (-1) = Ok vfx /\ getitem (snd traj) (-1) = Ok vfy
    /\ (let q :=
          (F64.np_dot v0 (vfx, vfy)
           / (F64.np_linalg_norm v0 * F64.np_linalg_norm (vfx, vfy)))%float in
        let c := F64.np_clip q (-1) 1 in
        a = if (fst v0 * vfy - snd v0 * vfx <? 0)%float
            then (- np_arccos c)%float else np_arccos c)
    /\ rot = ((np_cos a, (- np_sin a)%float), (np_sin a, np_cos a)).
Proof.
  unfold F64.compute_holonomy. intros H.
  destruct (F64.parallel_transport self loop v0 steps) as [[[vx vy] points]|e];
    cbn [bind] in H; [|discriminate].
  destruct (getitem vx (-1)) as [vfx|e] eqn:Hx; cbn [bind] in H; [|discriminate].
  destruct (getitem vy (-1)) as [vfy|e] eqn:Hy; cbn [bind] in H; [|discriminate].
  injection H as <- <- <- _.
  exists vfx, vfy. cbn [fst snd].
  split; [exact Hx|]. split; [exact Hy|]. split; reflexivity.
Qed.

(** On the instance with the connection [0], the vector [(1, 5)] comes back
    as it is, and the quotient computed for it in binary64 is above [1]:
    the clip brings it back to [1] before the arccosine. *)
Lemma f64_quotient_above_one (np_arccos np_cos np_sin : float -> float) :
  (F64.np_dot (1, 5) (1, 5)
   / (F64.np_linalg_norm (1, 5) * F64.np_linalg_norm (1, 5)))%float
  = 1.0000000000000002%float
  /\ F64.compute_holonomy np_arccos np_cos np_sin (F64.constant_connection 0)
       (fun t => (t, 0%float)) (1, 5)%float 2
     = Ok (np_arccos 1%float,
           ((np_cos (np_arccos 1%float), (- np_sin (np_arccos 1%float))%float),
            (np_sin (np_arccos 1%float), np_cos (np_arccos 1%float))),
           ([1; 1]%float, [5; 5]%float), [(0, 0); (1, 0)]%float).
Proof. split; vm_compute; reflexivity. Qed.

(** ** Angle and matrix *)

(** Claim C1.  For a transport with [steps >= 1] whose initial vector [v0]
    and final vector [vf] (the last sample of the trajectory) are not zero,
    [compute_holonomy] returns the angle
    [arccos(clip((v0 . vf) / (|v0| * |vf|), -1, 1))], with its sign flipped
    when the cross product [v0x * vfy - v0y * vfx] is negative and kept
    otherwise, and the rotation matrix [[[cos a, -sin a], [sin a, cos a]]]
    of that signed angle [a].  The clip is applied to the quotient in every
    case, and it saturates: whatever its argument, its value lies in
    [[-1, 1]].  The same holds in binary64, where the clip does work:
    whatever the input, the value given to the arccosine is the clip of the
    quotient of the initial vector and the last sample of the returned
    trajectory, it is NaN or lies in [[-1, 1]], the sign is flipped exactly
    when the cross product compares below zero, and at the vector [(1, 5)]
    on a connection that vanishes the quotient is [1.0000000000000002] and
    the arccosine is taken at [1]. *)
Theorem compute_holonomy_angle_and_matrix self loop v0 (steps : Z) :
  wf_manifold self -> (1 <= steps)%Z ->
  (exists vx vy points vf,
     parallel_transport self loop v0 steps = Ok ((vx, vy), points)
     /\ final_vector vx vy = Some vf
     /\ (v0 <> (0, 0) -> vf <> (0, 0) ->
         exists a,
           compute_holonomy self loop v0 steps
           = Ok (a, ((cos a, - sin a), (sin a, cos a)), (vx, vy), points)
           /\ (let c :=
                 np_clip (np_dot v0 vf / (np_linalg_norm v0 * np_linalg_norm vf))
                   (-1) 1 in
               (fst v0 * snd vf - snd v0 * fst vf < 0 -> a = - acos c)
               /\ (~ fst v0 * snd vf - snd v0 * fst vf < 0 -> a = acos c))))
  /\ (forall q : R,
        -1 <= np_clip q (-1) 1 <= 1
        /\ (q <= -1 -> np_clip q (-1) 1 = -1)
        /\ (1 <= q -> np_clip q (-1) 1 = 1)
        /\ (-1 <= q <= 1 -> np_clip q (-1) 1 = q))
  /\ (forall (np_arccos np_cos np_sin : float -> float) fself floop fv0 fsteps
             a rot traj pts,
        F64.compute_holonomy np_arccos np_cos np_sin fself floop fv0 fsteps
        = Ok (a, rot, traj, pts) ->
        exists vfx vfy,
          getitem (fst traj) (-1) = Ok vfx /\ getitem (snd traj) (-1) = Ok vfy
          /\ (let q :=
                (F64.np_dot fv0 (vfx, vfy)
                 / (F64.np_linalg_norm fv0 * F64.np_linalg_norm (vfx, vfy)))%float in
              let c := F64.np_clip q (-1) 1 in
              a = (if (fst fv0 * vfy - snd fv0 * vfx <? 0)%float
                   then (- np_arccos c)%float else np_arccos c)
              /\ (PrimFloat.is_nan c = true
                  \/ ((-1 <=? c)%float = true /\ (c <=? 1)%float = true)))
          /\ rot = ((np_cos a, (- np_sin a)%float), (np_sin a, np_cos a)))
  /\ (forall np_arccos np_cos np_sin : float -> float,
        (F64.np_dot (1, 5) (1, 5)
         / (F64.np_linalg_norm (1, 5) * F64.np_linalg_norm (1, 5)))%float
        = 1.0000000000000002%float
        /\ exists rot,
             F64.compute_holonomy np_arccos np_cos np_sin
               (F64.constant_connection 0) (fun t => (t, 0%float)) (1, 5)%float 2
             = Ok (np_arccos 1%float, rot,
                   ([1; 1]%float, [5; 5]%float), [(0, 0); (1, 0)]%float)).
Proof.
  intros Hwf Hsteps. split; [|split; [|split]].
  - destruct (compute_holonomy_returns self loop v0 steps Hwf Hsteps)
      as (vx & vy & points & vf & Hpt & _ & Hvf & Hch).
    exists vx, vy, points, vf.
    split; [exact Hpt|]. split; [exact Hvf|].
    intros _ _. exists (signed_angle v0 vf).
    split; [exact Hch|]. cbv zeta.
    unfold signed_angle, unsigned_angle, clipped_cosine, cross2. split.
    + intros Hneg. destruct (Rlt_dec _ 0); [reflexivity|contradiction].
    + intros Hpos. destruct (Rlt_dec _ 0); [contradiction|reflexivity].
  - apply np_clip_saturates.
  - intros np_arccos np_cos np_sin fself floop fv0 fsteps a rot traj pts Hch.
    destruct (f64_compute_holonomy_clipped _ _ _ _ _ _ _ _ _ _ _ Hch)
      as (vfx & vfy & Hx & Hy & Ha & Hrot).
    exists vfx, vfy. split; [exact Hx|]. split; [exact Hy|].
    split; [|exact Hrot]. cbv zeta. split; [exact Ha|apply f64_np_clip_range].
  - intros np_arccos np_cos np_sin.
    destruct (f64_quotient_above_one np_arccos np_cos np_sin) as [Hq Hch].
    split; [exact Hq|]. eexists. exact Hch.
Qed.

(** Claim C1 along the segment from [(0, 0)] to [(1, 0)] with the
    connection [1]: the vector [(1, 1)] arrives as [(0.25, 1)]. *)
Lemma compute_holonomy_angle_and_matrix_witness :
  wf_manifold unit_connection_manifold /\ (1 <= 3)%Z
  /\ (1, 1) <> (0, 0) /\ (0.25, 1) <> (0, 0)
  /\ exists a,
       compute_holonomy unit_connection_manifold (fun t => (t, 0)) (1, 1) 3
       = Ok (a, ((cos a, - sin a), (sin a, cos a)),
             ([1; 0.5; 0.25], [1; 1; 1]), [(0, 0); (0.5, 0); (1, 0)])
       /\ a = acos (np_clip (np_dot (1, 1) (0.25, 1)
                             / (np_linalg_norm (1, 1) * np_linalg_norm (0.25, 1)))
                      (-1) 1).
Proof.
  split; [exact unit_connection_wf|]. split; [lia|].
  split; [exact diagonal_vector_nonzero|]. split; [exact quarter_vector_nonzero|].
  destruct (compute_holonomy_angle_and_matrix unit_connection_manifold
              (fun t => (t, 0)) (1, 1) 3 unit_connection_wf ltac:(lia))
    as [(vx & vy & points & vf & Hpt & Hvf & Hangle) _].
  rewrite straight_line_transport in Hpt. injection Hpt as <- <- <-.
  cbn in Hvf. injection Hvf as <-.
  destruct (Hangle diagonal_vector_nonzero quarter_vector_nonzero)
    as (a & Hch & _ & Hpos).
  exists a. split; [exact Hch|]. apply Hpos. cbn [fst snd]. lra.
Defined.

(** ** Orthogonality and determinant *)

(** Claim C5.  For valid inputs (a non-zero initial vector, a non-zero
    final vector, [steps >= 2]), the rotation matrix [R] that
    [compute_holonomy] returns is orthogonal: over the real numbers
    [R^T * R] is the identity, hence equal to it within the tolerance
    [1e-6]. *)
Theorem compute_holonomy_orthogonal self loop v0 (steps : Z)
    (a : R) (rot : mat2 R) (vx vy : list R) (points : list (R * R)) (vf : R * R) :
  wf_manifold self -> (2 <= steps)%Z ->
  compute_holonomy self loop v0 steps = Ok (a, rot, (vx, vy), points) ->
  final_vector vx vy = Some vf ->
  v0 <> (0, 0) -> vf <> (0, 0) ->
  mat2_mul (mat2_transpose rot) rot = mat2_identity
  /\ mat2_close 1e-6 (mat2_mul (mat2_transpose rot) rot) mat2_identity.
Proof.
  intros Hwf Hsteps Hch Hvf H0 Hf.
  destruct (compute_holonomy_returns self loop v0 steps Hwf)
    as (vx' & vy' & points' & vf' & _ & _ & _ & Hch'); [lia|].
  rewrite Hch in Hch'. injection Hch' as -> -> _ _ _.
  split; [apply rotation_matrix_orthogonal|].
  rewrite rotation_matrix_orthogonal. apply mat2_close_refl. lra.
Qed.

(** Claim C5 along the segment from [(0, 0)] to [(1, 0)] with the
    connection [1]. *)
Lemma compute_holonomy_orthogonal_witness :
  wf_manifold unit_connection_manifold /\ (2 <= 3)%Z
  /\ compute_holonomy unit_connection_manifold (fun t => (t, 0)) (1, 1) 3
     = Ok (signed_angle (1, 1) (0.25, 1),
           rotation_matrix (signed_angle (1, 1) (0.25, 1)),
           ([1; 0.5; 0.25], [1; 1; 1]), [(0, 0); (0.5, 0); (1, 0)])
  /\ final_vector [1; 0.5; 0.25] [1; 1; 1] = Some (0.25, 1)
  /\ (1, 1) <> (0, 0) /\ (0.25, 1) <> (0, 0)
  /\ mat2_close 1e-6
       (mat2_mul (mat2_transpose (rotation_matrix (signed_angle (1, 1) (0.25, 1))))
          (rotation_matrix (signed_angle (1, 1) (0.25, 1))))
       mat2_identity.
Proof.
  split; [exact unit_connection_wf|]. split; [lia|].
  split; [exact straight_line_holonomy|]. split; [reflexivity|].
  split; [exact diagonal_vector_nonzero|]. split; [exact quarter_vector_nonzero|].
  exact (proj2
           (compute_holonomy_orthogonal unit_connection_manifold
              (fun t => (t, 0)) (1, 1) 3 _ _ _ _ _ (0.25, 1)
              unit_connection_wf ltac:(lia) straight_line_holonomy eq_refl
              diagonal_vector_nonzero quarter_vector_nonzero)).
Defined.

(** Claim C10, amended.  For a non-zero initial vector and a non-zero final
    vector, the rotation matrix that [compute_holonomy] returns for the
    angle [a] has the determinant [cos^2 a + sin^2 a], which is [1] in
    exact arithmetic: a proper rotation, not a reflection. *)
Theorem compute_holonomy_determinant self loop v0 (steps : Z)
    (a : R) (rot : mat2 R) (vx vy : list R) (points : list (R * R)) (vf : R * R) :
  wf_manifold self -> (1 <= steps)%Z ->
  compute_holonomy self loop v0 steps = Ok (a, rot, (vx, vy), points) ->
  final_vector vx vy = Some vf ->
  v0 <> (0, 0) -> vf <> (0, 0) ->
  rot = ((cos a, - sin a), (sin a, cos a))
  /\ mat2_det rot = cos a * cos a + sin a * sin a
  /\ mat2_det rot = 1.
Proof.
  intros Hwf Hsteps Hch Hvf H0 Hf.
  destruct (compute_holonomy_returns self loop v0 steps Hwf Hsteps)
    as (vx' & vy' & points' & vf' & _ & _ & _ & Hch').
  rewrite Hch in Hch'. injection Hch' as -> -> _ _ _.
  assert (Hdet : mat2_det (rotation_matrix (signed_angle v0 vf'))
                 = cos (signed_angle v0 vf') * cos (signed_angle v0 vf')
                   + sin (signed_angle v0 vf') * sin (signed_angle v0 vf')).
  { unfold mat2_det, rotation_matrix. cbn [fst snd]. ring. }
  split; [reflexivity|]. split; [exact Hdet|]. rewrite Hdet. apply cos2_sin2.
Qed.

(** Claim C10, amended, along the segment from [(0, 0)] to [(1, 0)] with
    the connection [1]. *)
Lemma compute_holonomy_determinant_witness :
  wf_manifold unit_connection_manifold /\ (1 <= 3)%Z
  /\ compute_holonomy unit_connection_manifold (fun t => (t, 0)) (1, 1) 3
     = Ok (signed_angle (1, 1) (0.25, 1),
           rotation_matrix (signed_angle (1, 1) (0.25, 1)),
           ([1; 0.5; 0.25], [1; 1; 1]), [(0, 0); (0.5, 0); (1, 0)])
  /\ final_vector [1; 0.5; 0.25] [1; 1; 1] = Some (0.25, 1)
  /\ (1, 1) <> (0, 0) /\ (0.25, 1) <> (0, 0)
  /\ mat2_det (rotation_matrix (signed_angle (1, 1) (0.25, 1))) = 1.
Proof.
  split; [exact unit_connection_wf|]. split; [lia|].
  split; [exact straight_line_holonomy|]. split; [reflexivity|].
  split; [exact diagonal_vector_nonzero|]. split; [exact quarter_vector_nonzero|].
  exact (proj2 (proj2
           (compute_holonomy_determinant unit_connection_manifold
              (fun t => (t, 0)) (1, 1) 3 _ _ _ _ _ (0.25, 1)
              unit_connection_wf ltac:(lia) straight_line_holonomy eq_refl
              diagonal_vector_nonzero quarter_vector_nonzero))).
Defined.

(** * What the code computes in binary64 *)

(** Over the metric that is zero at every cell, [_compute_christoffel]
    divides zero by zero in every cell: the connection it returns is NaN
    everywhere, and nothing is raised. *)
Lemma f64_zero_metric_connection :
  F64._compute_christoffel (F64.constant_connection 0)
  = Ok (F64.Self.Gamma (F64.constant_connection nan)).
Proof. vm_compute. reflexivity. Qed.

(** Against claim C9.  With the connection [1] and four samples along the
    segment from [(0, 0)] to [(1, 0)], the trajectory of [(3, 0)] is not
    three times the trajectory of [(1, 0)]: the last samples are
    [0.888888888888889] and [0.8888888888888891].  With the connection of
    the zero metric, which is NaN at every cell, the trajectory of the zero
    vector is not zero: it is NaN from the second sample on. *)
Lemma parallel_transport_binary64_not_homogeneous :
  F64.parallel_transport (F64.constant_connection 1) (fun t => (t, 0%float))
    (1, 0)%float 4
  = Ok (([1; 0.6666666666666667; 0.44444444444444453; 0.29629629629629634]%float,
         [0; 0; 0; 0]%float),
        [(0, 0); (0.3333333333333333, 0); (0.6666666666666666, 0); (1, 0)]%float)
  /\ F64.parallel_transport (F64.constant_connection 1) (fun t => (t, 0%float))
       (3 * 1, 3 * 0)%float 4
     = Ok (([3; 2; 1.3333333333333335; 0.888888888888889]%float,
            [0; 0; 0; 0]%float),
           [(0, 0); (0.3333333333333333, 0); (0.6666666666666666, 0); (1, 0)]%float)
  /\ map (PrimFloat.mul 3)
       [1; 0.6666666666666667; 0.44444444444444453; 0.29629629629629634]%float
     = [3; 2; 1.3333333333333335; 0.8888888888888891]%float
  /\ [3; 2; 1.3333333333333335; 0.888888888888889]%float
     <> [3; 2; 1.3333333333333335; 0.8888888888888891]%float
  /\ F64.parallel_transport (F64.constant_connection nan) (fun t => (t, 0%float))
       (0, 0)%float 3
     = Ok (([0; nan; nan]%float, [0; nan; nan]%float),
           [(0, 0); (0.5, 0); (1, 0)]%float).
Proof.
  split; [vm_compute; reflexivity|]. split; [vm_compute; reflexivity|].
  split; [vm_compute; reflexivity|]. split; [|vm_compute; reflexivity].
  intros E. apply (f_equal (fun l => nth 3 l 0%float)) in E.
  apply (f_equal (PrimFloat.eqb 0.8888888888888891%float)) in E.
  vm_compute in E. discriminate.
Qed.

(** Against claim C10.  With the connection [1] and two samples along the
    segment from [(0, 0)] to [(1, 0)], the vector [(1, 0)] arrives as
    [(0, 0)]; the quotient of the dot product by the product of the norms
    is then [0 / 0], which is NaN; so whatever the functions [arccos],
    [cos] and [sin] are, as long as they return NaN at NaN, the matrix that
    [compute_holonomy] returns does not have the determinant [1]. *)
Lemma compute_holonomy_zero_final_vector :
  F64.parallel_transport (F64.constant_connection 1) (fun t => (t, 0%float))
    (1, 0)%float 2
  = Ok (([1; 0]%float, [0; 0]%float), [(0, 0); (1, 0)]%float)
  /\ (F64.np_dot (1, 0) (0, 0)
      / (F64.np_linalg_norm (1, 0) * F64.np_linalg_norm (0, 0)))%float = nan
  /\ ~ exists (np_arccos np_cos np_sin : float -> float) a rot traj pts,
         propagates_nan np_arccos /\ propagates_nan np_cos
         /\ propagates_nan np_sin
         /\ F64.compute_holonomy np_arccos np_cos np_sin
              (F64.constant_connection 1) (fun t => (t, 0%float)) (1, 0)%float 2
            = Ok (a, rot, traj, pts)
         /\ F64.mat2_det rot = 1%float.
Proof.
  split; [vm_compute; reflexivity|]. split; [vm_compute; reflexivity|].
  intros (np_arccos & np_cos & np_sin & a & rot & traj & pts
          & Ha & Hc & Hs & Hch & Hdet).
  unfold propagates_nan in Ha, Hc, Hs.
  assert (Hrun : F64.compute_holonomy np_arccos np_cos np_sin
                   (F64.constant_connection 1) (fun t => (t, 0%float)) (1, 0)%float 2
                 = Ok (np_arccos nan,
                       ((np_cos (np_arccos nan), (- np_sin (np_arccos nan))%float),
                        (np_sin (np_arccos nan), np_cos (np_arccos nan))),
                       ([1; 0]%float, [0; 0]%float), [(0, 0); (1, 0)]%float))
    by (vm_compute; reflexivity).
  rewrite Hrun in Hch. injection Hch as <- <- _ _.
  rewrite Ha, Hc, Hs in Hdet. vm_compute in Hdet. discriminate.
Qed.

(** Against claim C4.  With the connection [0] and two samples, the vector
    [(1e200, 0)] arrives as it is, not zero; the dot product and the product
    of the norms overflow, and their quotient is NaN; so whatever the
    functions [arccos], [cos] and [sin] are, as long as they return NaN at
    NaN, the angle that [compute_holonomy] returns is not above [-pi]. *)
Lemma compute_holonomy_overflow :
  F64.parallel_transport (F64.constant_connection 0) (fun t => (t, 0%float))
    (1e200, 0)%float 2
  = Ok (([1e200; 1e200]%float, [0; 0]%float), [(0, 0); (1, 0)]%float)
  /\ (F64.np_dot (1e200, 0) (1e200, 0)
      / (F64.np_linalg_norm (1e200, 0) * F64.np_linalg_norm (1e200, 0)))%float
     = nan
  /\ ~ exists (np_arccos np_cos np_sin : float -> float) a rot traj pts,
         propagates_nan np_arccos /\ propagates_nan np_cos
         /\ propagates_nan np_sin
         /\ F64.compute_holonomy np_arccos np_cos np_sin
              (F64.constant_connection 0) (fun t => (t, 0%float))
              (1e200, 0)%float 2
            = Ok (a, rot, traj, pts)
         /\ (- 3.141592653589793 <? a)%float = true.
Proof.
  split; [vm_compute; reflexivity|]. split; [vm_compute; reflexivity|].
  intros (np_arccos & np_cos & np_sin & a & rot & traj & pts
          & Ha & Hc & Hs & Hch & Hrange).
  unfold propagates_nan in Ha, Hc, Hs.
  assert (Hrun : F64.compute_holonomy np_arccos np_cos np_sin
                   (F64.constant_connection 0) (fun t => (t, 0%float))
                   (1e200, 0)%float 2
                 = Ok (np_arccos nan,
                       ((np_cos (np_arccos nan), (- np_sin (np_arccos nan))%float),
                        (np_sin (np_arccos nan), np_cos (np_arccos nan))),
                       ([1e200; 1e200]%float, [0; 0]%float),
                       [(0, 0); (1, 0)]%float))
    by (vm_compute; reflexivity).
  rewrite Hrun in Hch. injection Hch as <- _ _ _.
  rewrite Ha in Hrange. vm_compute in Hrange. discriminate.
Qed.

(** * The connection over a metric with zero cells *)

(** Against claim C2: over the metric that vanishes at every cell,
    [_compute_christoffel] raises nothing and returns its two arrays, of
    three rows of three cells each. *)
Lemma compute_christoffel_zero_metric_returns :
  zero_metric_manifold.(Self.g) = [[0; 0; 0]; [0; 0; 0]; [0; 0; 0]]
  /\ exists Gamma,
       _compute_christoffel zero_metric_manifold = Ok Gamma
       /\ has_shape (Gamma_x_xx Gamma) 3 3 /\ has_shape (Gamma_y_yy Gamma) 3 3.
Proof.
  split; [reflexivity|].
  eexists. split.
  - apply (compute_christoffel_tabulate zero_metric_manifold 3 (fun _ _ => 0));
      (reflexivity || lia).
  - cbn [Gamma_x_xx Gamma_y_yy]. split; apply has_shape_tabulate.
Qed.

(** Claim C2, amended.  For every construction with [scale = 0] (and
    [size >= 2]) the potential [K] and the metric [g] are zero at every
    cell, and building the connection over that metric raises nothing: the
    constructor returns, and [_compute_christoffel] returns two arrays of
    [size] rows of [size] cells.  In general, over any metric field on the
    grid, whatever the magnitude of its cells, [_compute_christoffel]
    raises nothing and returns two arrays of that shape, whose cell
    [(i, j)] is the quotient [0.5 * dg / g] wherever [g[i][j]] is not
    zero. *)
Theorem scale_zero_construction (uniform : nat -> R) (size level : Z) :
  (2 <= size)%Z ->
  let n := Z.to_nat size in
  exists self,
    __init__ uniform size level 0 = Ok self
    /\ self.(Self.K) = tabulate n n (fun _ _ => 0)
    /\ self.(Self.g) = tabulate n n (fun _ _ => 0)
    /\ (exists Gamma,
          _compute_christoffel self = Ok Gamma
          /\ has_shape (Gamma_x_xx Gamma) n n
          /\ has_shape (Gamma_y_yy Gamma) n n)
    /\ forall (other : FractalKahlerManifold) (Gc : nat -> nat -> R),
         length other.(Self.x) = n -> length other.(Self.y) = n ->
         other.(Self.g) = tabulate n n Gc ->
         exists Gamma,
           _compute_christoffel other = Ok Gamma
           /\ has_shape (Gamma_x_xx Gamma) n n
           /\ has_shape (Gamma_y_yy Gamma) n n
           /\ forall i j rowx rowy,
                Gc i j <> 0 ->
                Gamma_x_xx Gamma !! i = Some rowx ->
                Gamma_y_yy Gamma !! i = Some rowy -> (j < n)%nat ->
                rowx !! j
                = Some (0.5 * grad_cell (Gc i) n (spacing other.(Self.x)) j
                        / Gc i j)
                /\ rowy !! j
                   = Some (0.5 * grad_cell (fun k => Gc k j) n
                                   (spacing other.(Self.y)) i
                           / Gc i j).
Proof.
  intros Hsize n.
  assert (Hgen : forall (other : FractalKahlerManifold) (Gc : nat -> nat -> R),
            length other.(Self.x) = n -> length other.(Self.y) = n ->
            other.(Self.g) = tabulate n n Gc ->
            exists Gamma,
              _compute_christoffel other = Ok Gamma
              /\ has_shape (Gamma_x_xx Gamma) n n
              /\ has_shape (Gamma_y_yy Gamma) n n
              /\ forall i j rowx rowy,
                   Gc i j <> 0 ->
                   Gamma_x_xx Gamma !! i = Some rowx ->
                   Gamma_y_yy Gamma !! i = Some rowy -> (j < n)%nat ->
                   rowx !! j
                   = Some (0.5 * grad_cell (Gc i) n (spacing other.(Self.x)) j
                           / Gc i j)
                   /\ rowy !! j
                      = Some (0.5 * grad_cell (fun k => Gc k j) n
                                      (spacing other.(Self.y)) i
                              / Gc i j)).
  { intros other Gc Hx Hy Hg. eexists. split.
    - apply (compute_christoffel_tabulate other n Gc); [lia|assumption..].
    - cbn [Gamma_x_xx Gamma_y_yy].
      split; [apply has_shape_tabulate|]. split; [apply has_shape_tabulate|].
      intros i j rowx rowy _ Hrx Hry Hj.
      rewrite (tabulate_cell _ _ _ _ _ _ Hj Hrx), (tabulate_cell _ _ _ _ _ _ Hj Hry).
      split; reflexivity. }
  exists (built uniform size level 0).
  split; [now apply init_returns|].
  unfold built. fold n. cbn [Self.K Self.g].
  assert (Hlen : length (grid n) = n) by apply linspace_samples_length.
  split; [|split; [|split]].
  - apply tabulate_ext. intros i j _ _. apply K_cells_scale0.
  - apply tabulate_ext. intros i j _ _. apply g_cells_scale0.
  - destruct (Hgen (built uniform size level 0) (g_cells uniform n level 0))
      as (Gamma & HG & Hsx & Hsy & _); try assumption; try reflexivity.
    exists Gamma. unfold built in HG. fold n in HG. auto.
  - exact Hgen.
Qed.

(** Claim C2, amended, for the size and the level of the demonstration and
    a constant random source. *)
Lemma scale_zero_construction_witness :
  (2 <= 150)%Z
  /\ exists self,
       __init__ (fun _ => 0) 150 4 0 = Ok self
       /\ self.(Self.g) = tabulate 150 150 (fun _ _ => 0)
       /\ exists Gamma,
            _compute_christoffel self = Ok Gamma
            /\ has_shape (Gamma_x_xx Gamma) 150 150.
Proof.
  split; [lia|].
  destruct (scale_zero_construction (fun _ => 0) 150 4 ltac:(lia))
    as (self & Hinit & _ & Hg & (Gamma & HG & Hsx & _) & _).
  exists self. split; [exact Hinit|]. split; [exact Hg|].
  exists Gamma. split; [exact HG|exact Hsx].
Defined.


(** * The round trip of the angle *)

(** Claim C4, amended, along the segment from [(0, 0)] to [(1, 0)] with the
    connection [1]: the vector [(1, 1)] arrives as [(0.25, 1)]. *)
Lemma compute_holonomy_angle_roundtrip_witness :
  wf_manifold unit_connection_manifold /\ (2 <= 3)%Z
  /\ compute_holonomy unit_connection_manifold (fun t => (t, 0)) (1, 1) 3
     = Ok (signed_angle (1, 1) (0.25, 1),
           rotation_matrix (signed_angle (1, 1) (0.25, 1)),
           ([1; 0.5; 0.25], [1; 1; 1]), [(0, 0); (0.5, 0); (1, 0)])
  /\ final_vector [1; 0.5; 0.25] [1; 1; 1] = Some (0.25, 1)
  /\ (1, 1) <> (0, 0) /\ (0.25, 1) <> (0, 0)
  /\ - PI < signed_angle (1, 1) (0.25, 1) <= PI
  /\ angle_of_rotation (rotation_matrix (signed_angle (1, 1) (0.25, 1)))
     = signed_angle (1, 1) (0.25, 1).
Proof.
  split; [exact unit_connection_wf|]. split; [lia|].
  split; [exact straight_line_holonomy|]. split; [reflexivity|].
  split; [exact diagonal_vector_nonzero|]. split; [exact quarter_vector_nonzero|].
  exact (compute_holonomy_angle_roundtrip unit_connection_manifold
           (fun t => (t, 0)) (1, 1) 3 _ _ _ _ _ (0.25, 1)
           unit_connection_wf ltac:(lia) straight_line_holonomy eq_refl
           diagonal_vector_nonzero quarter_vector_nonzero).
Defined.
